(** * claude-max-proxy: a shallow embedding of [src/index.ts]

    The worker is a single TypeScript module.  Its functions are embedded
    here one by one, under their own names:

    - JavaScript strings are sequences of UTF-16 code units ([jsstring]);
    - the request body is [any] in the source, so it is a dynamically typed
      JSON [value]; run-time type errors are results ([Throw]);
    - [Headers] objects and the KV namespace are finite maps ([gmap]);
    - the asynchronous handlers run in a small state-and-exception monad
      over a [World] (KV store, clock, remote endpoints, event trace).

    Modelling conventions, stated once:

    - a number of a JSON document is given by its decimal text (the code
      never calculates with the numbers of a body); times and durations are
      integers ([Z]) and [Math.round(remaining / 1000 / 60)] is the exact
      rounding of the quotient;
    - a property holding [undefined] is an absent property;
    - a [Headers] object is a map from lower-cased names to values; a
      value set on it loses the white space at its ends and is refused
      with a [TypeError] when it holds a NUL, a line feed or a carriage
      return;
    - the record of the KV namespace and the payload of the token endpoint
      have the types the source declares for them ([TokenData], and the
      fields [access_token], [refresh_token], [expires_in]);
    - a body stream is the finite list of the chunks it delivers.

    Of the login script [scripts/oauth-login.js], the request built by
    [exchangeCodeForTokens] is embedded as well. *)

From Stdlib Require Import NArith ZArith Ascii String DecimalString Lia Zify.
From stdpp Require Import base option list gmap.

Set Default Proof Using "Type".
#[global] Set Warnings "-register-all,-clear-no-such-hyp".

(** ** Strings *)

Module Str.

(** A JavaScript string: its UTF-16 code units. *)
Definition jsstring : Type := list N.

(** ASCII literals of the source. *)
Definition js (s : string) : jsstring := map N_of_ascii (list_ascii_of_string s).
#[global] Arguments js _ : simpl never.

Definition dq : N := 34.        (* the double quote *)
Definition backslash : N := 92.
Definition space : N := 32.
Definition comma : N := 44.
Definition colon : N := 58.

Definition str_eqb (a b : jsstring) : bool := bool_decide (a = b).

(** ECMAScript [WhiteSpace] and [LineTerminator]: what [String.prototype.trim]
    strips and what the regular-expression class [\s] matches. *)
Definition is_js_space (c : N) : bool :=
  ((9 <=? c) && (c <=? 13) || (c =? 32) || (c =? 160) || (c =? 5760)
   || (8192 <=? c) && (c <=? 8202) || (c =? 8232) || (c =? 8233)
   || (c =? 8239) || (c =? 8287) || (c =? 12288) || (c =? 65279))%N.

Fixpoint drop_while (p : N -> bool) (s : jsstring) : jsstring :=
  match s with
  | [] => []
  | c :: s' => if p c then drop_while p s' else s
  end.

Fixpoint take_while (p : N -> bool) (s : jsstring) : jsstring :=
  match s with
  | [] => []
  | c :: s' => if p c then c :: take_while p s' else []
  end.

(** [s.trim()] *)
Definition trim (s : jsstring) : jsstring :=
  rev (drop_while is_js_space (rev (drop_while is_js_space s))).

(** [s.split(sep)] for a one-character separator; never the empty list. *)
Fixpoint split (sep : N) (s : jsstring) : list jsstring :=
  match s with
  | [] => [[]]
  | c :: s' =>
      if (c =? sep)%N then [] :: split sep s'
      else match split sep s' with
           | h :: t => (c :: h) :: t
           | [] => [[c]]
           end
  end.

(** [parts.join(sep)] for an array of strings. *)
Fixpoint join (sep : jsstring) (parts : list jsstring) : jsstring :=
  match parts with
  | [] => []
  | [p] => p
  | p :: ps => p ++ sep ++ join sep ps
  end.

(** [s.startsWith(p)] *)
Fixpoint starts_with (p s : jsstring) : bool :=
  match p, s with
  | [], _ => true
  | _ :: _, [] => false
  | a :: p', b :: s' => (a =? b)%N && starts_with p' s'
  end.

(** Lower-casing of the ASCII letters (header names are byte-case-insensitive). *)
Definition ascii_lower (c : N) : N :=
  if ((65 <=? c) && (c <=? 90))%N then (c + 32)%N else c.

(** Canonicalisation of a code unit under the [i] flag without the [u]
    flag, restricted to what can equal an ASCII letter: only the two ASCII
    cases of a letter canonicalise to it. *)
Definition eq_ignore_case (a b : N) : bool :=
  (ascii_lower a =? ascii_lower b)%N && ((a <? 128) && (b <? 128))%N.

(** Consume a literal (under a code-unit comparison) at the head of [s]. *)
Fixpoint eat (eqc : N -> N -> bool) (lit s : jsstring) : option jsstring :=
  match lit, s with
  | [], _ => Some s
  | _ :: _, [] => None
  | a :: lit', b :: s' => if eqc a b then eat eqc lit' s' else None
  end.

(** [s.replace(re, ...)] with a global regular expression whose matches are
    never empty: the leftmost match at or after the cursor is replaced and
    the scan resumes right after it.  [m s] is the match attempt at the head of
    [s]: the text that replaces the match and the text after the match. *)
Fixpoint replace_from (m : jsstring -> option (jsstring * jsstring))
    (fuel : nat) (s : jsstring) : jsstring :=
  match fuel with
  | O => s
  | S fuel' =>
      match s with
      | [] => []
      | c :: s' =>
          match m s with
          | Some (out, rest) => out ++ replace_from m fuel' rest
          | None => c :: replace_from m fuel' s'
          end
      end
  end.

Definition replace_all (m : jsstring -> option (jsstring * jsstring))
    (s : jsstring) : jsstring :=
  replace_from m (length s) s.

(** A global regular expression that is a plain literal. *)
Definition literal_match (eqc : N -> N -> bool) (lit out : jsstring)
    (s : jsstring) : option (jsstring * jsstring) :=
  match eat eqc lit s with
  | Some rest => Some (out, rest)
  | None => None
  end.

(** Decimal rendering of an integer-valued Number. *)
Definition of_Z (z : Z) : jsstring := js (NilZero.string_of_int (Z.to_int z)).
Definition of_nat (n : nat) : jsstring := js (NilZero.string_of_uint (Nat.to_uint n)).

Definition hex_digit (d : N) : N :=
  if (d <? 10)%N then (48 + d)%N else (87 + d)%N.

(** Four lower-case hexadecimal digits, as in a [\uXXXX] escape. *)
Definition hex4 (c : N) : jsstring :=
  [hex_digit (c / 4096 mod 16); hex_digit (c / 256 mod 16);
   hex_digit (c / 16 mod 16); hex_digit (c mod 16)]%N.

Definition is_high_surrogate (c : N) : bool := ((55296 <=? c) && (c <=? 56319))%N.
Definition is_low_surrogate (c : N) : bool := ((56320 <=? c) && (c <=? 57343))%N.

End Str.
Export Str.

(** ** Exceptions and fallible computations *)

(** A thrown [Error] object: its [name] and its [message]. *)
Record exn := Exn { exn_name : jsstring; exn_message : jsstring }.

Definition TypeError (msg : string) : exn := Exn (js "TypeError") (js msg).
Definition Error (msg : jsstring) : exn := Exn (js "Error") msg.

(** [String(e)], that is [Error.prototype.toString]. *)
Definition String_of_exn (e : exn) : jsstring :=
  match exn_name e, exn_message e with
  | [], msg => msg
  | name, [] => name
  | name, msg => name ++ js ": " ++ msg
  end.

Inductive outcome (A : Type) : Type :=
| Ok (a : A)
| Throw (e : exn).
Arguments Ok {A} a.
Arguments Throw {A} e.

Definition obind {A B} (c : outcome A) (k : A -> outcome B) : outcome B :=
  match c with
  | Ok a => k a
  | Throw e => Throw e
  end.

#[global] Instance outcome_ret : MRet outcome := fun A a => Ok a.
#[global] Instance outcome_bind : MBind outcome := fun A B k c => obind c k.

(** [xs.map(f)] where [f] may throw: the first exception aborts the loop. *)
Fixpoint map_outcome {A B} (f : A -> outcome B) (xs : list A) : outcome (list B) :=
  match xs with
  | [] => Ok []
  | x :: xs' =>
      match f x with
      | Ok y =>
          match map_outcome f xs' with
          | Ok ys => Ok (y :: ys)
          | Throw e => Throw e
          end
      | Throw e => Throw e
      end
  end.

(** ** JSON values *)

(** What [request.json()] produces, and what the transformer builds.
    A Number is given by the text that [Number::toString] writes for it
    ([0] for both zeros): the code only tests the numbers of a document,
    writes them into strings and serialises them, and each of these is
    a function of that text.  An object is the list of its own properties in
    enumeration order.  An array carries, besides its elements, the named
    properties that an assignment such as [body.system = ...] may attach
    to it ([JSON.parse] never creates any).  [undefined] is not a JSON
    value: a possibly-undefined result is an [option value], and a
    property holding [undefined] is an absent property, which neither
    a property read nor [JSON.stringify] can tell apart. *)
Inductive value : Type :=
| VNull
| VBool (b : bool)
| VNum (text : jsstring)
| VStr (s : jsstring)
| VArr (elems : list value) (extra : list (jsstring * value))
| VObj (props : list (jsstring * value)).

Definition props_of := list (jsstring * value).

Fixpoint assoc_get {V} (k : jsstring) (l : list (jsstring * V)) : option V :=
  match l with
  | [] => None
  | (k', v) :: l' => if str_eqb k k' then Some v else assoc_get k l'
  end.

(** Define or overwrite one property: an existing key keeps its place, a
    new key goes last. *)
Fixpoint assoc_set {V} (k : jsstring) (v : V) (l : list (jsstring * V)) :
    list (jsstring * V) :=
  match l with
  | [] => [(k, v)]
  | (k', v') :: l' =>
      if str_eqb k k' then (k, v) :: l' else (k', v') :: assoc_set k v l'
  end.

Fixpoint assoc_del {V} (k : jsstring) (l : list (jsstring * V)) :
    list (jsstring * V) :=
  match l with
  | [] => []
  | (k', v') :: l' =>
      if str_eqb k k' then assoc_del k l' else (k', v') :: assoc_del k l'
  end.

(** Storing a possibly-undefined value under a key. *)
Definition assoc_put {V} (k : jsstring) (ov : option V)
    (l : list (jsstring * V)) : list (jsstring * V) :=
  match ov with
  | Some v => assoc_set k v l
  | None => assoc_del k l
  end.

(** [v.k] for the property names the source reads ([system], [tools],
    [messages], [stream], [type], [text], [name], [content],
    [dist-tags], [latest]): none of them is an index, [length], or a
    property of a built-in prototype.  Reading a property of [null] or
    [undefined] throws. *)
Definition get_prop (ov : option value) (k : jsstring) : outcome (option value) :=
  match ov with
  | None => Throw (TypeError "Cannot read properties of undefined")
  | Some VNull => Throw (TypeError "Cannot read properties of null")
  | Some (VObj props) => Ok (assoc_get k props)
  | Some (VArr _ extra) => Ok (assoc_get k extra)
  | Some _ => Ok None
  end.

(** [v.k = x] in strict-mode code (an ES module). *)
Definition set_prop (v : value) (k : jsstring) (x : value) : outcome value :=
  match v with
  | VNull => Throw (TypeError "Cannot set properties of null")
  | VObj props => Ok (VObj (assoc_set k x props))
  | VArr elems extra => Ok (VArr elems (assoc_set k x extra))
  | _ => Throw (TypeError "Cannot create property on a primitive value")
  end.

#[global] Arguments get_prop : simpl nomatch.
#[global] Arguments set_prop : simpl nomatch.

(** ToBoolean *)
Definition truthy (ov : option value) : bool :=
  match ov with
  | None | Some VNull => false
  | Some (VBool b) => b
  | Some (VNum t) => negb (str_eqb t (js "0") || str_eqb t (js "NaN"))
  | Some (VStr s) => negb (str_eqb s [])
  | Some (VArr _ _) | Some (VObj _) => true
  end.

Fixpoint indexed {A} (i : nat) (l : list A) : list (jsstring * A) :=
  match l with
  | [] => []
  | x :: l' => (of_nat i, x) :: indexed (S i) l'
  end.

(** The own enumerable properties copied by an object spread [{...v}]. *)
Definition spread (v : value) : props_of :=
  match v with
  | VObj props => props
  | VArr elems extra => indexed 0 elems ++ extra
  | VStr s => indexed 0 (map (fun c => VStr [c]) s)
  | _ => []
  end.

(** ToString, as applied by a template literal.  A plain object answers
    ["[object Object]"] unless an own [toString] property (never callable in
    parsed JSON) hides the inherited method; an array joins its elements. *)
Fixpoint to_js_string (v : value) : outcome jsstring :=
  match v with
  | VNull => Ok (js "null")
  | VBool true => Ok (js "true")
  | VBool false => Ok (js "false")
  | VNum t => Ok t
  | VStr s => Ok s
  | VArr elems _ =>
      match map_outcome (fun e => match e with
                                  | VNull => Ok []
                                  | _ => to_js_string e
                                  end) elems with
      | Ok parts => Ok (join [comma] parts)
      | Throw e => Throw e
      end
  | VObj props =>
      match assoc_get (js "toString") props with
      | Some _ => Throw (TypeError "Cannot convert object to primitive value")
      | None => Ok (js "[object Object]")
      end
  end.

Definition template (ov : option value) : outcome jsstring :=
  match ov with
  | None => Ok (js "undefined")
  | Some v => to_js_string v
  end.

(** *** [JSON.stringify] *)

(** The Numbers that are not finite; [JSON.stringify] writes [null] for
    them. *)
Definition non_finite (t : jsstring) : bool :=
  str_eqb t (js "Infinity") || str_eqb t (js "-Infinity") || str_eqb t (js "NaN").

(** One code unit inside a JSON string literal; [next] is the code unit
    that follows and [prev_high] tells whether a high surrogate precedes.
    Only unpaired surrogates are escaped. *)
Definition quote_unit (prev_high : bool) (c : N) (next : option N) : jsstring :=
  if (c =? dq)%N then [backslash; dq]
  else if (c =? backslash)%N then [backslash; backslash]
  else if (c =? 8)%N then [backslash; 98%N]
  else if (c =? 12)%N then [backslash; 102%N]
  else if (c =? 10)%N then [backslash; 110%N]
  else if (c =? 13)%N then [backslash; 114%N]
  else if (c =? 9)%N then [backslash; 116%N]
  else if (c <? 32)%N then [backslash; 117%N] ++ hex4 c
  else if is_high_surrogate c then
    match next with
    | Some d => if is_low_surrogate d then [c] else [backslash; 117%N] ++ hex4 c
    | None => [backslash; 117%N] ++ hex4 c
    end
  else if is_low_surrogate c then
    if prev_high then [c] else [backslash; 117%N] ++ hex4 c
  else [c].

Fixpoint quote_units (prev_high : bool) (s : jsstring) : jsstring :=
  match s with
  | [] => []
  | c :: s' => quote_unit prev_high c (head s') ++ quote_units (is_high_surrogate c) s'
  end.

(** [JSON.stringify(s)] for a string [s]. *)
Definition json_quote (s : jsstring) : jsstring :=
  dq :: quote_units false s ++ [dq].

Fixpoint stringify (v : value) : jsstring :=
  match v with
  | VNull => js "null"
  | VBool true => js "true"
  | VBool false => js "false"
  | VNum t => if non_finite t then js "null" else t
  | VStr s => json_quote s
  | VArr elems _ => js "[" ++ join [comma] (map stringify elems) ++ js "]"
  | VObj props =>
      js "{" ++ join [comma]
        (map (fun kv => json_quote (fst kv) ++ [colon] ++ stringify (snd kv)) props)
      ++ js "}"
  end.

(** ** Constants of the worker *)

Definition ANTHROPIC_API_URL : jsstring := js "https://api.anthropic.com/v1/messages".
Definition ANTHROPIC_API_VERSION : jsstring := js "2023-06-01".
Definition OAUTH_TOKEN_URL : jsstring := js "https://console.anthropic.com/v1/oauth/token".
Definition CLAUDE_CODE_VERSION : jsstring := js "2.1.2".
Definition NPM_REGISTRY_URL : jsstring :=
  js "https://registry.npmjs.org/@anthropic-ai/claude-code".

Definition REQUIRED_BETA_FLAGS : list jsstring :=
  [js "oauth-2025-04-20"; js "interleaved-thinking-2025-05-14"].

Definition CLAUDE_CODE_SYSTEM_PROMPT : jsstring :=
  js "You are Claude Code, Anthropic's official CLI for Claude.".

Definition TOOL_PREFIX : jsstring := js "mcp_".

(** The argument of [startsWith] in [injectSystemPrompt]. *)
Definition IDENTITY_PHRASE : jsstring := js "You are Claude Code".

(** ** The request transformer *)

(** [{ type: "text", text: s }] *)
Definition text_block (s : jsstring) : value :=
  VObj [(js "type", VStr (js "text")); (js "text", VStr s)].

(** The callback of [some]: [block.text?.startsWith("You are Claude Code")],
    coerced to a boolean. *)
Definition block_has_identity (block : value) : outcome bool :=
  text ← get_prop (Some block) (js "text");
  match text with
  | None | Some VNull => Ok false
  | Some (VStr s) => Ok (starts_with IDENTITY_PHRASE s)
  | Some _ => Throw (TypeError "block.text?.startsWith is not a function")
  end.

#[global] Arguments block_has_identity : simpl never.

(** [xs.some(f)]: stops at the first element on which [f] is true. *)
Fixpoint array_some (f : value -> outcome bool) (xs : list value) : outcome bool :=
  match xs with
  | [] => Ok false
  | x :: xs' =>
      match f x with
      | Ok true => Ok true
      | Ok false => array_some f xs'
      | Throw e => Throw e
      end
  end.

Definition injectSystemPrompt (body : value) : outcome value :=
  system ← get_prop (Some body) (js "system");
  body ← (if negb (truthy system)
          then set_prop body (js "system") (VArr [] [])
          else Ok body);
  system ← get_prop (Some body) (js "system");
  body ← match system with
          | Some (VStr s) => set_prop body (js "system") (VArr [text_block s] [])
          | _ => Ok body
          end;
  system ← get_prop (Some body) (js "system");
  match system with
  | Some (VArr blocks extra) =>
      hasIdentity ← array_some block_has_identity blocks;
      if hasIdentity : bool then Ok body
      else set_prop body (js "system")
             (VArr (text_block CLAUDE_CODE_SYSTEM_PROMPT :: blocks) extra)
  | _ => Throw (TypeError "body.system.some is not a function")
  end.

(** [text.replace(/OpenCode/g, "Claude Code").replace(/opencode/gi, "Claude")] *)
Definition sanitize_text (text : jsstring) : jsstring :=
  replace_all (literal_match eq_ignore_case (js "opencode") (js "Claude"))
    (replace_all (literal_match N.eqb (js "OpenCode") (js "Claude Code")) text).

Definition is_string (s : jsstring) (ov : option value) : bool :=
  match ov with
  | Some (VStr s') => str_eqb s' s
  | _ => false
  end.

(** The callback mapped over [body.system]. *)
Definition sanitize_item (item : value) : outcome value :=
  type ← get_prop (Some item) (js "type");
  text ← get_prop (Some item) (js "text");
  if is_string (js "text") type && truthy text then
    match text with
    | Some (VStr s) =>
        Ok (VObj (assoc_set (js "text") (VStr (sanitize_text s)) (spread item)))
    | _ => Throw (TypeError "item.text.replace is not a function")
    end
  else Ok item.

(** The callback mapped over [body.tools]:
    [{...tool, name: tool.name ? `${TOOL_PREFIX}${tool.name}` : tool.name}]. *)
Definition prefix_tool (tool : value) : outcome value :=
  name ← get_prop (Some tool) (js "name");
  if truthy name then
    s ← template name;
    Ok (VObj (assoc_set (js "name") (VStr (TOOL_PREFIX ++ s)) (spread tool)))
  else Ok (VObj (assoc_put (js "name") name (spread tool))).

(** The callback mapped over the content blocks of a message. *)
Definition prefix_block (block : value) : outcome value :=
  type ← get_prop (Some block) (js "type");
  name ← get_prop (Some block) (js "name");
  if is_string (js "tool_use") type && truthy name then
    s ← template name;
    Ok (VObj (assoc_set (js "name") (VStr (TOOL_PREFIX ++ s)) (spread block)))
  else Ok block.

(** The callback mapped over [body.messages]. *)
Definition prefix_message (msg : value) : outcome value :=
  content ← get_prop (Some msg) (js "content");
  match content with
  | Some (VArr blocks _) =>
      blocks' ← map_outcome prefix_block blocks;
      set_prop msg (js "content") (VArr blocks' [])
  | _ => Ok msg
  end.

(** [if (body.k && Array.isArray(body.k)) body.k = body.k.map(f)] *)
Definition map_array_prop (k : jsstring) (f : value -> outcome value)
    (body : value) : outcome value :=
  field ← get_prop (Some body) k;
  match field with
  | Some (VArr items _) =>
      items' ← map_outcome f items;
      set_prop body k (VArr items' [])
  | _ => Ok body
  end.

Definition sanitizeBody (body : value) : outcome value :=
  body ← map_array_prop (js "system") sanitize_item body;
  body ← map_array_prop (js "tools") prefix_tool body;
  body ← map_array_prop (js "messages") prefix_message body;
  Ok body.

(** ** Headers *)

(** A [Headers] object: header names are kept in lower case. *)
Definition header_name (name : jsstring) : jsstring := map ascii_lower name.

(** One entry of a [Headers] object given by an object literal whose value
    is valid and already normal (a literal of the source, or a value read
    from another [Headers] object). *)
Definition headers_set (name value : jsstring)
    (h : gmap jsstring jsstring) : gmap jsstring jsstring :=
  <[header_name name := value]> h.

(** HTTP whitespace: tab, line feed, carriage return and space. *)
Definition is_http_whitespace (c : N) : bool :=
  ((c =? 9) || (c =? 10) || (c =? 13) || (c =? 32))%N.

(** Normalising a header value removes the HTTP whitespace at its ends. *)
Definition normalize_value (v : jsstring) : jsstring :=
  rev (drop_while is_http_whitespace (rev (drop_while is_http_whitespace v))).

(** A header value holds no NUL, no line feed and no carriage return.  (The
    platform of the worker takes the strings of [Headers] as text, not as
    byte strings: a code unit above 255 is not refused.) *)
Definition header_value_ok (v : jsstring) : bool :=
  forallb (fun c => negb ((c =? 0) || (c =? 10) || (c =? 13)))%N v.

(** [headers.set(name, value)] for a valid header name: the value is
    normalised, and a [TypeError] is thrown unless it is then a header
    value. *)
Definition Headers_set (name value : jsstring)
    (h : gmap jsstring jsstring) : outcome (gmap jsstring jsstring) :=
  let value := normalize_value value in
  if header_value_ok value then Ok (<[header_name name := value]> h)
  else Throw (TypeError "Invalid header value").

Definition headers_get (h : gmap jsstring jsstring) (name : jsstring) :
    option jsstring :=
  h !! header_name name.

(** [[...new Set(xs)]]: the distinct elements in order of first occurrence. *)
Definition Set_add (seen : list jsstring) (x : jsstring) : list jsstring :=
  if bool_decide (x ∈ seen) then seen else seen ++ [x].

Definition Set_of (xs : list jsstring) : list jsstring :=
  fold_left Set_add xs [].

Definition nonempty (s : jsstring) : bool := negb (str_eqb s []).

(** [incomingBeta ? incomingBeta.split(",").map(b => b.trim()).filter(Boolean) : []] *)
Definition incomingBetasList (incomingBeta : option jsstring) : list jsstring :=
  match incomingBeta with
  | Some s =>
      if nonempty s then List.filter nonempty (map trim (split comma s)) else []
  | None => []
  end.

(** The version is declared a string, but it is what the registry sent:
    the template literal of the last header converts it. *)
Definition buildHeaders (accessToken : jsstring) (version : value)
    (incomingBeta : option jsstring) : outcome (gmap jsstring jsstring) :=
  let headers : gmap jsstring jsstring := ∅ in
  headers ← Headers_set (js "Authorization") (js "Bearer " ++ accessToken) headers;
  headers ← Headers_set (js "Content-Type") (js "application/json") headers;
  headers ← Headers_set (js "anthropic-version") ANTHROPIC_API_VERSION headers;
  let mergedBetas :=
    join [comma] (Set_of (REQUIRED_BETA_FLAGS ++ incomingBetasList incomingBeta)) in
  headers ← Headers_set (js "anthropic-beta") mergedBetas headers;
  version ← to_js_string version;
  headers ← Headers_set (js "User-Agent")
              (js "claude-cli/" ++ version ++ js " (external, cli)") headers;
  Ok headers.

(** ** Requests and the authenticator *)

Record Env := {
  CLAUDE_OAUTH_CLIENT_ID : jsstring;
  CLAUDE_ACCESS_TOKEN : jsstring;
  CLAUDE_REFRESH_TOKEN : jsstring;
  PROXY_SECRET : jsstring
}.

(** An inbound [Request]; [req_json] is what [request.json()] resolves to,
    [None] when it rejects because the body is not valid JSON. *)
Record Request := {
  req_method : jsstring;
  req_path : jsstring;
  req_headers : gmap jsstring jsstring;
  req_json : option value
}.

Definition validateAuth (request : Request) (env : Env) : bool :=
  let authHeader := headers_get (req_headers request) (js "Authorization") in
  let bearer :=
    match authHeader with
    | Some a =>
        nonempty a &&
        (let parts := split space a in
         bool_decide (parts !! 0%nat = Some (js "Bearer")) &&
         bool_decide (parts !! 1%nat = Some (PROXY_SECRET env)))
    | None => false
    end in
  if bearer then true
  else
    let apiKey := headers_get (req_headers request) (js "x-api-key") in
    if bool_decide (apiKey = Some (PROXY_SECRET env)) then true else false.

(** ** The response transformer *)

(** One match attempt, at the head of the text, of the regular expression
    of the response transform.  Writing Q for the double quote, the
    expression is [/Qname Q\s*:\s*Qmcp_([^Q]+)Q/] (no blank after [name])
    and the replacement is [Qname Q: Q$1Q] (likewise).  Each quantifier is
    followed by a character outside its class, so the greedy match is the
    only match at a position. *)
Definition name_field_match (s : jsstring) : option (jsstring * jsstring) :=
  s ← eat N.eqb (dq :: js "name" ++ [dq]) s;
  s ← eat N.eqb [colon] (drop_while is_js_space s);
  s ← eat N.eqb (dq :: js "mcp_") (drop_while is_js_space s);
  let not_quote c := negb (c =? dq)%N in
  match take_while not_quote s with
  | [] => None
  | capture =>
      s ← eat N.eqb [dq] (drop_while not_quote s);
      Some (dq :: js "name" ++ [dq; colon; space; dq] ++ capture ++ [dq], s)
  end.

(** [text.replace(re, replacement)] with the global expression above. *)
Definition strip_tool_prefix (text : jsstring) : jsstring :=
  replace_all name_field_match text.

(** ** UTF-8: [TextDecoder] and [TextEncoder] *)

Module Utf8.

(** The state of the UTF-8 decoder of the Encoding standard.  The masks and
    shifts of the standard are written arithmetically: in the byte ranges
    where they are applied, [b & 0x3F] is [b - 0x80], the lead-byte masks
    subtract the lead's tag, and [(cp << 6) | x] is [cp * 64 + x]. *)
Record utf8_decoder := {
  code_point : N;
  bytes_seen : N;
  bytes_needed : N;
  lower_boundary : N;
  upper_boundary : N
}.

Definition idle : utf8_decoder :=
  {| code_point := 0; bytes_seen := 0; bytes_needed := 0;
     lower_boundary := 128; upper_boundary := 191 |}.

Definition REPLACEMENT : N := 65533.
Definition BOM : N := 65279.

(** A byte read while no sequence is pending. *)
Definition lead_byte (b : N) : utf8_decoder * list N :=
  if (b <=? 127)%N then (idle, [b])
  else if ((194 <=? b) && (b <=? 223))%N then
    ({| code_point := b - 192; bytes_seen := 0; bytes_needed := 1;
        lower_boundary := 128; upper_boundary := 191 |}, [])
  else if ((224 <=? b) && (b <=? 239))%N then
    ({| code_point := b - 224; bytes_seen := 0; bytes_needed := 2;
        lower_boundary := if (b =? 224)%N then 160 else 128;
        upper_boundary := if (b =? 237)%N then 159 else 191 |}, [])
  else if ((240 <=? b) && (b <=? 244))%N then
    ({| code_point := b - 240; bytes_seen := 0; bytes_needed := 3;
        lower_boundary := if (b =? 240)%N then 144 else 128;
        upper_boundary := if (b =? 244)%N then 143 else 191 |}, [])
  else (idle, [REPLACEMENT]).

(** The handler of the decoder on one byte: the new state and the code
    points emitted.  A byte that cannot continue the pending sequence ends
    it with an error and is then read again as a lead byte. *)
Definition decode_byte (d : utf8_decoder) (b : N) : utf8_decoder * list N :=
  if (bytes_needed d =? 0)%N then lead_byte b
  else if negb ((lower_boundary d <=? b) && (b <=? upper_boundary d))%N then
    let '(d', out) := lead_byte b in (d', REPLACEMENT :: out)
  else
    let cp := (code_point d * 64 + (b - 128))%N in
    if (bytes_seen d + 1 =? bytes_needed d)%N then (idle, [cp])
    else ({| code_point := cp; bytes_seen := bytes_seen d + 1;
             bytes_needed := bytes_needed d;
             lower_boundary := 128; upper_boundary := 191 |}, []).

Fixpoint decode_bytes (d : utf8_decoder) (bytes : list N) : utf8_decoder * list N :=
  match bytes with
  | [] => (d, [])
  | b :: bytes' =>
      let '(d1, out) := decode_byte d b in
      let '(d2, out') := decode_bytes d1 bytes' in
      (d2, out ++ out')
  end.

(** A code point as UTF-16 code units. *)
Definition utf16_units (cp : N) : jsstring :=
  if (cp <? 65536)%N then [cp]
  else [55296 + (cp - 65536) / 1024; 56320 + (cp - 65536) mod 1024]%N.

(** A [TextDecoder] for UTF-8 with the default options ([fatal] and
    [ignoreBOM] both false). *)
Record TextDecoder := {
  utf8 : utf8_decoder;
  bom_seen : bool
}.

Definition new_TextDecoder : TextDecoder := {| utf8 := idle; bom_seen := false |}.

(** Serialising the decoded code points: the first code point ever produced
    is dropped when it is the byte-order mark. *)
Definition drop_bom (seen : bool) (cps : list N) : bool * list N :=
  match cps with
  | [] => (seen, [])
  | cp :: rest =>
      if seen then (true, cps)
      else (true, if (cp =? BOM)%N then rest else cps)
  end.

(** [decoder.decode(value, { stream: true })] *)
Definition decode_stream (d : TextDecoder) (chunk : list N) : TextDecoder * jsstring :=
  let '(u, cps) := decode_bytes (utf8 d) chunk in
  let '(seen, cps') := drop_bom (bom_seen d) cps in
  ({| utf8 := u; bom_seen := seen |}, flat_map utf16_units cps').

(** Decoding a whole body at once, as [response.text()] does: a sequence
    still pending at the end is an error. *)
Definition decode_all (bytes : list N) : jsstring :=
  let '(u, cps) := decode_bytes idle bytes in
  let cps := if (bytes_needed u =? 0)%N then cps else cps ++ [REPLACEMENT] in
  flat_map utf16_units (snd (drop_bom false cps)).

(** The scalar values of a string; an unpaired surrogate reads as U+FFFD. *)
Fixpoint scalar_values (s : jsstring) : list N :=
  match s with
  | [] => []
  | c :: s' =>
      if is_high_surrogate c then
        match s' with
        | d :: s'' =>
            if is_low_surrogate d
            then (65536 + (c - 55296) * 1024 + (d - 56320))%N :: scalar_values s''
            else REPLACEMENT :: scalar_values s'
        | [] => [REPLACEMENT]
        end
      else if is_low_surrogate c then REPLACEMENT :: scalar_values s'
      else c :: scalar_values s'
  end.

Definition encode_scalar (cp : N) : list N :=
  if (cp <? 128)%N then [cp]
  else if (cp <? 2048)%N then [192 + cp / 64; 128 + cp mod 64]%N
  else if (cp <? 65536)%N then
    [224 + cp / 4096; 128 + cp / 64 mod 64; 128 + cp mod 64]%N
  else
    [240 + cp / 262144; 128 + cp / 4096 mod 64; 128 + cp / 64 mod 64;
     128 + cp mod 64]%N.

(** [encoder.encode(text)] *)
Definition TextEncoder_encode (text : jsstring) : list N :=
  flat_map encode_scalar (scalar_values text).

End Utf8.
Export Utf8.

(** ** The streaming response transformer *)

(** The upstream body is the sequence of the chunks its reader will
    deliver; the transformer owns the reader and one decoder. *)
Record stream_state := {
  reader : list (list N);
  decoder : TextDecoder
}.

Inductive controller_action :=
| Enqueue (chunk : list N)
| Close.

(** The [pull] callback of the transformed stream. *)
Definition pull (st : stream_state) : controller_action * stream_state :=
  match reader st with
  | [] => (Close, st)
  | value :: rest =>
      let '(d, text) := decode_stream (decoder st) value in
      let text := strip_tool_prefix text in
      (Enqueue (TextEncoder_encode text), {| reader := rest; decoder := d |})
  end.

(** The chunks a consumer obtains by pulling [fuel] times at most. *)
Fixpoint pull_all (fuel : nat) (st : stream_state) : list (list N) :=
  match fuel with
  | O => []
  | S fuel' =>
      match pull st with
      | (Enqueue chunk, st') => chunk :: pull_all fuel' st'
      | (Close, _) => []
      end
  end.

Definition transformStreamingResponse (body : list (list N)) : list (list N) :=
  pull_all (S (length body)) {| reader := body; decoder := new_TextDecoder |}.

(** ** The world of a request *)

(** [interface TokenData] *)
Record TokenData := {
  accessToken : jsstring;
  refreshToken : jsstring;
  expiresAt : Z
}.

(** An outbound [fetch(url, init)]. *)
Record FetchRequest := {
  fetch_url : jsstring;
  fetch_method : jsstring;
  fetch_headers : gmap jsstring jsstring;
  fetch_body : option jsstring
}.

(** A [fetch] either rejects (network failure) or resolves to a reply. *)
Inductive fetch_reply (A : Type) : Type :=
| NetworkError (e : exn)
| Reply (r : A).
Arguments NetworkError {A} e.
Arguments Reply {A} r.

(** The payload the provider's token endpoint answers with. *)
Record TokenPayload := {
  access_token : jsstring;
  refresh_token : jsstring;
  expires_in : Z
}.

(** A reply of the token endpoint: [status], [text()], and [json()]
    ([None] when the body does not parse). *)
Record TokenReply := {
  token_status : Z;
  token_text : jsstring;
  token_json : option TokenPayload
}.

Record RegistryReply := {
  registry_status : Z;
  registry_json : option value
}.

(** A reply of the messages endpoint; [upstream_body] is [response.body],
    the byte chunks of the body, or [None] for a null body. *)
Record UpstreamReply := {
  upstream_status : Z;
  upstream_content_type : option jsstring;
  upstream_body : option (list (list N))
}.

(** [response.ok] *)
Definition status_ok (status : Z) : bool := ((200 <=? status) && (status <=? 299))%Z.

(** [response.text()] *)
Definition upstream_text (r : UpstreamReply) : jsstring :=
  match upstream_body r with
  | Some chunks => decode_all (concat chunks)
  | None => []
  end.

Inductive event :=
| EvKvGet (key : jsstring)
| EvKvPut (key : jsstring) (data : TokenData) (expirationTtl : Z)
| EvFetch (r : FetchRequest)
| EvLog (msg : jsstring).

(** Everything outside the worker: the KV namespace [TOKEN_STORE] (typed by
    the cast of the source), whether the store is failing, the clock read by
    [Date.now()], the three remote endpoints, and the trace of the effects
    performed so far (most recent last). *)
Record World := {
  kv : gmap jsstring TokenData;
  kv_fault : option exn;
  clock : nat -> Z;
  ticks : nat;
  token_endpoint : FetchRequest -> fetch_reply TokenReply;
  registry : FetchRequest -> fetch_reply RegistryReply;
  upstream : FetchRequest -> fetch_reply UpstreamReply;
  trace : list event
}.

Definition record (ev : event) (w : World) : World :=
  {| kv := kv w; kv_fault := kv_fault w; clock := clock w; ticks := ticks w;
     token_endpoint := token_endpoint w; registry := registry w;
     upstream := upstream w; trace := trace w ++ [ev] |}.

Definition tick (w : World) : World :=
  {| kv := kv w; kv_fault := kv_fault w; clock := clock w; ticks := S (ticks w);
     token_endpoint := token_endpoint w; registry := registry w;
     upstream := upstream w; trace := trace w |}.

Definition store (key : jsstring) (data : TokenData) (w : World) : World :=
  {| kv := <[key := data]> (kv w); kv_fault := kv_fault w; clock := clock w;
     ticks := ticks w; token_endpoint := token_endpoint w;
     registry := registry w; upstream := upstream w; trace := trace w |}.

(** *** The monad of the asynchronous functions *)

Definition M (A : Type) : Type := World -> outcome A * World.

Definition ret {A} (a : A) : M A := fun w => (Ok a, w).
Definition throw {A} (e : exn) : M A := fun w => (Throw e, w).

Definition bind {A B} (c : M A) (k : A -> M B) : M B :=
  fun w =>
    match c w with
    | (Ok a, w') => k a w'
    | (Throw e, w') => (Throw e, w')
    end.

(** [try { c } catch (e) { handler(e) }] *)
Definition try_catch {A} (c : M A) (handler : exn -> M A) : M A :=
  fun w =>
    match c w with
    | (Ok a, w') => (Ok a, w')
    | (Throw e, w') => handler e w'
    end.

Definition lift {A} (o : outcome A) : M A := fun w => (o, w).

Notation "'let!' x ':=' c 'in' k" := (bind c (fun x => k))
  (at level 10, x name, c at level 100, k at level 200,
   format "'[v' 'let!'  x  ':='  c  'in' '/' k ']'").

(** *** Primitive effects *)

(** [Date.now()] *)
Definition Date_now : M Z := fun w => (Ok (clock w (ticks w)), tick w).

(** [console.log] and [console.error] *)
Definition console_log (msg : jsstring) : M unit :=
  fun w => (Ok tt, record (EvLog msg) w).

(** [env.TOKEN_STORE.get(key, "json")] *)
Definition TOKEN_STORE_get (key : jsstring) : M (option TokenData) :=
  fun w =>
    let w := record (EvKvGet key) w in
    match kv_fault w with
    | Some e => (Throw e, w)
    | None => (Ok (kv w !! key), w)
    end.

(** [env.TOKEN_STORE.put(key, JSON.stringify(data), { expirationTtl })] *)
Definition TOKEN_STORE_put (key : jsstring) (data : TokenData)
    (expirationTtl : Z) : M unit :=
  fun w =>
    let w := record (EvKvPut key data expirationTtl) w in
    match kv_fault w with
    | Some e => (Throw e, w)
    | None => (Ok tt, store key data w)
    end.

(** [fetch] against one of the remote endpoints. *)
Definition fetch {A} (endpoint : World -> FetchRequest -> fetch_reply A)
    (r : FetchRequest) : M A :=
  fun w =>
    let w := record (EvFetch r) w in
    match endpoint w r with
    | NetworkError e => (Throw e, w)
    | Reply a => (Ok a, w)
    end.

(** ** Responses of the worker *)

Inductive response_body :=
| BodyNull
| BodyText (text : jsstring)
| BodyStream (chunks : list (list N)).

Record Response := {
  status : Z;
  headers : gmap jsstring jsstring;
  body : response_body
}.

Definition null_body_status (s : Z) : bool :=
  ((s =? 101) || (s =? 103) || (s =? 204) || (s =? 205) || (s =? 304))%Z.

(** [new Response(body, { status, headers })]: the constructor rejects a
    status outside 200..599 and a body on a null-body status, except that
    the platform (workerd) takes an empty text on a null-body status for
    no body; a text body without a content type gets the default one. *)
Definition new_Response (b : response_body) (s : Z)
    (h : gmap jsstring jsstring) : outcome Response :=
  if negb ((200 <=? s) && (s <=? 599))%Z then
    Throw (Exn (js "RangeError") (js "Invalid status code"))
  else
    match b with
    | BodyNull => Ok {| status := s; headers := h; body := b |}
    | _ =>
        if null_body_status s then
          match b with
          | BodyText [] => Ok {| status := s; headers := h; body := BodyNull |}
          | _ => Throw (TypeError "Response with null body status cannot have body")
          end
        else
          match b, h !! js "content-type" with
          | BodyText _, None =>
              Ok {| status := s; body := b;
                    headers := <[js "content-type" := js "text/plain;charset=UTF-8"]> h |}
          | _, _ => Ok {| status := s; headers := h; body := b |}
          end
    end.

Definition json_headers : gmap jsstring jsstring :=
  headers_set (js "Content-Type") (js "application/json") ∅.
#[global] Arguments new_Response : simpl never.

(** ** Token lifecycle *)

Definition TOKENS_KEY : jsstring := js "tokens".

Definition getClaudeCodeVersion : M value :=
  try_catch
    (let! response :=
       fetch registry
         {| fetch_url := NPM_REGISTRY_URL; fetch_method := js "GET";
            fetch_headers := headers_set (js "Accept") (js "application/json") ∅;
            fetch_body := None |} in
     if status_ok (registry_status response) then
       match registry_json response with
       | None => throw (Exn (js "SyntaxError") (js "Unexpected token in JSON"))
       | Some data =>
           let! tags := lift (get_prop (Some data) (js "dist-tags")) in
           let! latest :=
             match tags with
             | None | Some VNull => ret None
             | Some t => lift (get_prop (Some t) (js "latest"))
             end in
           match latest with
           | Some v => if truthy latest then ret v else ret (VStr CLAUDE_CODE_VERSION)
           | None => ret (VStr CLAUDE_CODE_VERSION)
           end
       end
     else ret (VStr CLAUDE_CODE_VERSION))
    (fun e =>
       let! _ := console_log (js "Failed to fetch Claude Code version: " ++ String_of_exn e) in
       ret (VStr CLAUDE_CODE_VERSION)).

(** The request of the refresh exchange. *)
Definition refresh_request (refreshToken clientId : jsstring) : FetchRequest :=
  {| fetch_url := OAUTH_TOKEN_URL; fetch_method := js "POST";
     fetch_headers := headers_set (js "Content-Type") (js "application/json") ∅;
     fetch_body :=
       Some (stringify (VObj [(js "grant_type", VStr (js "refresh_token"));
                              (js "refresh_token", VStr refreshToken);
                              (js "client_id", VStr clientId)])) |}.

Definition refreshAccessToken (refreshToken clientId : jsstring) : M TokenData :=
  let! response := fetch token_endpoint (refresh_request refreshToken clientId) in
  if negb (status_ok (token_status response)) then
    let error := token_text response in
    throw (Error (js "Token refresh failed: " ++ of_Z (token_status response)
                  ++ js " " ++ error))
  else
    match token_json response with
    | None => throw (Exn (js "SyntaxError") (js "Unexpected token in JSON"))
    | Some data =>
        let! now := Date_now in
        ret {| accessToken := access_token data;
               refreshToken := refresh_token data;
               expiresAt := now + expires_in data * 1000 |}
    end.

Definition getValidToken (env : Env) : M jsstring :=
  let! cached := TOKEN_STORE_get TOKENS_KEY in
  let! valid :=
    match cached with
    | Some c => let! now := Date_now in ret (expiresAt c >? now + 60000)%Z
    | None => ret false
    end in
  match cached, valid with
  | Some c, true => ret (accessToken c)
  | _, _ =>
      let refreshToken :=
        match cached with
        | Some c => if nonempty (refreshToken c) then refreshToken c
                    else CLAUDE_REFRESH_TOKEN env
        | None => CLAUDE_REFRESH_TOKEN env
        end in
      let! _ := console_log (js "Refreshing access token...") in
      let! newTokens := refreshAccessToken refreshToken (CLAUDE_OAUTH_CLIENT_ID env) in
      let! _ := TOKEN_STORE_put TOKENS_KEY newTokens 86400 in
      ret (accessToken newTokens)
  end.

(** ** The messages handler *)

(** [value || undefined]: an empty header value counts as absent. *)
Definition or_undefined (o : option jsstring) : option jsstring :=
  match o with
  | Some s => if nonempty s then Some s else None
  | None => None
  end.

Definition UPSTREAM_URL : jsstring := ANTHROPIC_API_URL ++ js "?beta=true".

(** [JSON.stringify({ error: "Token error", message: String(e) })] *)
Definition token_error_payload (e : exn) : jsstring :=
  stringify (VObj [(js "error", VStr (js "Token error"));
                   (js "message", VStr (String_of_exn e))]).

Definition handleMessages (request : Request) (env : Env) : M Response :=
  if negb (str_eqb (req_method request) (js "POST")) then
    lift (new_Response (BodyText (js "Method not allowed")) 405 ∅)
  else if negb (validateAuth request env) then
    lift (new_Response (BodyText (js "Unauthorized")) 401 ∅)
  else
    let! token :=
      try_catch
        (let! t := getValidToken env in ret (inl t))
        (fun e =>
           let! _ := console_log (js "Failed to get access token: " ++ String_of_exn e) in
           let! r :=
             lift (new_Response (BodyText (token_error_payload e)) 500 json_headers) in
           ret (inr r)) in
    match token with
    | inr r => ret r
    | inl accessToken =>
        match req_json request with
        | None => lift (new_Response (BodyText (js "Invalid JSON body")) 400 ∅)
        | Some body =>
            let! body := lift (injectSystemPrompt body) in
            let! body := lift (sanitizeBody body) in
            let! version := getClaudeCodeVersion in
            let incomingBeta :=
              or_undefined (headers_get (req_headers request) (js "anthropic-beta")) in
            let! headers := lift (buildHeaders accessToken version incomingBeta) in
            let! response :=
              fetch upstream
                {| fetch_url := UPSTREAM_URL; fetch_method := js "POST";
                   fetch_headers := headers;
                   fetch_body := Some (stringify body) |} in
            let! stream := lift (get_prop (Some body) (js "stream")) in
            match truthy stream, upstream_body response with
            | true, Some chunks =>
                let transformedStream := transformStreamingResponse chunks in
                let contentType :=
                  match or_undefined (upstream_content_type response) with
                  | Some t => t
                  | None => js "text/event-stream"
                  end in
                lift (new_Response (BodyStream transformedStream)
                        (upstream_status response)
                        (headers_set (js "Cache-Control") (js "no-cache")
                           (headers_set (js "Content-Type") contentType ∅)))
            | _, _ =>
                let responseBody := upstream_text response in
                let responseBody := strip_tool_prefix responseBody in
                lift (new_Response (BodyText responseBody)
                        (upstream_status response) json_headers)
            end
        end
    end.

(** ** Model list, health check and routing *)

Definition model_entry (id : string) : value :=
  VObj [(js "id", VStr (js id)); (js "object", VStr (js "model"));
        (js "owned_by", VStr (js "anthropic"))].

Definition handleModels : M Response :=
  let models :=
    VObj [(js "object", VStr (js "list"));
          (js "data",
           VArr [model_entry "claude-opus-4-6"; model_entry "claude-sonnet-4-6";
                 model_entry "claude-haiku-4-5";
                 model_entry "claude-opus-4-20250514";
                 model_entry "claude-sonnet-4-20250514"] [])] in
  lift (new_Response (BodyText (stringify models)) 200 json_headers).

(** [Math.round(remaining / 1000 / 60)] for a positive number of
    milliseconds: the nearest integer, halves upwards. *)
Definition round_minutes (remaining : Z) : Z := ((remaining + 30000) / 60000)%Z.

Definition handleHealth (env : Env) : M Response :=
  let! tokenStatus :=
    try_catch
      (let! cached := TOKEN_STORE_get TOKENS_KEY in
       match cached with
       | Some c =>
           let! now := Date_now in
           let remaining := (expiresAt c - now)%Z in
           if (remaining >? 0)%Z then
             ret (js "valid (expires in " ++ of_Z (round_minutes remaining)
                  ++ js " minutes)")
           else ret (js "expired (will refresh on next request)")
       | None => ret (js "not cached (will use secret on first request)")
       end)
      (fun e => ret (js "error: " ++ String_of_exn e)) in
  lift (new_Response
          (BodyText (stringify
             (VObj [(js "status", VStr (js "ok"));
                    (js "service", VStr (js "claude-max-proxy"));
                    (js "tokenStatus", VStr tokenStatus)])))
          200 json_headers).

Definition cors_headers : gmap jsstring jsstring :=
  headers_set (js "Access-Control-Allow-Headers")
    (js "Content-Type, Authorization, x-api-key, anthropic-version, anthropic-beta")
    (headers_set (js "Access-Control-Allow-Methods") (js "GET, POST, OPTIONS")
       (headers_set (js "Access-Control-Allow-Origin") (js "*") ∅)).

(** The [fetch] handler exported by the module. *)
Definition worker_fetch (request : Request) (env : Env) : M Response :=
  let path := req_path request in
  if str_eqb (req_method request) (js "OPTIONS") then
    lift (new_Response BodyNull 200 cors_headers)
  else if str_eqb path (js "/v1/messages") || str_eqb path (js "/anthropic/v1/messages") then
    handleMessages request env
  else if str_eqb path (js "/v1/models") || str_eqb path (js "/anthropic/v1/models") then
    handleModels
  else if str_eqb path (js "/health") || str_eqb path (js "/") then
    handleHealth env
  else lift (new_Response (BodyText (js "Not found")) 404 ∅).

(** * Specification vocabulary *)

(** ** Effects of a computation *)

(** [emits c P]: whatever the world, [c] only appends events satisfying [P]
    to the trace. *)
Definition emits {A} (c : M A) (P : event -> Prop) : Prop :=
  forall w, exists evs, trace (c w).2 = trace w ++ evs /\ Forall P evs.

(** The events of credential handling: store accesses, log lines, and
    fetches that go to the token endpoint. *)
Definition credential_event (ev : event) : Prop :=
  match ev with
  | EvFetch f => fetch_url f = OAUTH_TOKEN_URL
  | _ => True
  end.

(** The error thrown when the refresh exchange is refused. *)
Definition refresh_failure (r : TokenReply) : exn :=
  Error (js "Token refresh failed: " ++ of_Z (token_status r) ++ js " " ++ token_text r).

(** The JSON text of an object with the two properties [error] and
    [message], both strings. *)
Definition error_payload (error message : jsstring) : jsstring :=
  js "{" ++ json_quote (js "error") ++ [colon] ++ json_quote error ++ [comma]
  ++ json_quote (js "message") ++ [colon] ++ json_quote message ++ js "}".

(** The refresh exchange attempted when nothing is cached. *)
Definition fallback_request (env : Env) : FetchRequest :=
  refresh_request (CLAUDE_REFRESH_TOKEN env) (CLAUDE_OAUTH_CLIENT_ID env).

(** The two early answers of the messages handler. *)
Definition bad_request_response : Response :=
  {| status := 400;
     headers := <[js "content-type" := js "text/plain;charset=UTF-8"]> ∅;
     body := BodyText (js "Invalid JSON body") |}.

Definition token_error_response (e : exn) : Response :=
  {| status := 500; headers := json_headers;
     body := BodyText (token_error_payload e) |}.

(** What the health handler can observe of a world: whether the store fails,
    the expiry of the cached record if there is one, and the current time. *)
Definition health_view (w : World) : option exn * option Z * Z :=
  (kv_fault w, expiresAt <$> kv w !! TOKENS_KEY, clock w (ticks w)).

(** ** Sample inputs *)

Definition sample_env : Env :=
  {| CLAUDE_OAUTH_CLIENT_ID := js "client";
     CLAUDE_ACCESS_TOKEN := js "provisioned-access";
     CLAUDE_REFRESH_TOKEN := js "provisioned-refresh";
     PROXY_SECRET := js "right" |}.

(** A world at time [now] whose token endpoint always answers [reply]; the
    registry is unreachable and the messages endpoint answers an empty
    object. *)
Definition sample_world (now : Z) (cache : gmap jsstring TokenData)
    (reply : fetch_reply TokenReply) : World :=
  {| kv := cache; kv_fault := None; clock := fun _ => now; ticks := 0;
     token_endpoint := fun _ => reply;
     registry := fun _ => NetworkError (TypeError "fetch failed");
     upstream := fun _ =>
       Reply {| upstream_status := 200; upstream_content_type := None;
                upstream_body := Some [js "{}"] |};
     trace := [] |}.

Definition granted : fetch_reply TokenReply :=
  Reply {| token_status := 200; token_text := [];
           token_json := Some {| access_token := js "fresh-access";
                                 refresh_token := js "fresh-refresh";
                                 expires_in := 3600 |} |}.

Definition refused : TokenReply :=
  {| token_status := 401; token_text := js "invalid_grant"; token_json := None |}.

Definition cached_record (access refresh : string) (expiry : Z) : TokenData :=
  {| accessToken := js access; refreshToken := js refresh; expiresAt := expiry |}.

(** The sample world at time 1000000 with [c] cached. *)
Definition caching (c : TokenData) : World :=
  sample_world 1000000 (<[TOKENS_KEY := c]> ∅) granted.

(** A POST to the messages endpoint carrying the right [x-api-key]. *)
Definition sample_post (json : option value) : Request :=
  {| req_method := js "POST"; req_path := js "/v1/messages";
     req_headers := <[js "x-api-key" := js "right"]> ∅;
     req_json := json |}.

(** ** The authenticator *)

(** [a] reads [Bearer], one space, the secret, and then either nothing or a
    further space and anything: the only way a header value can make the first
    two pieces of [a.split(" ")] equal to [Bearer] and the secret. *)
Definition bearer_of (secret a : jsstring) : Prop :=
  (space ∉ secret) /\
  exists rest, a = js "Bearer" ++ [space] ++ secret ++ rest /\
               (rest = [] \/ head rest = Some space).

(** A request with the given headers only. *)
Definition request_with (h : gmap jsstring jsstring) : Request :=
  {| req_method := js "POST"; req_path := js "/v1/messages";
     req_headers := h; req_json := None |}.

Definition env_with_secret (secret : jsstring) : Env :=
  {| CLAUDE_OAUTH_CLIENT_ID := js "client";
     CLAUDE_ACCESS_TOKEN := js "provisioned-access";
     CLAUDE_REFRESH_TOKEN := js "provisioned-refresh";
     PROXY_SECRET := secret |}.

(** ** The header builder *)

(** The distinct elements of a list, each at its first occurrence: the
    deduplicated, order-stable union that the specification asks for. *)
Fixpoint distinct_in_order (xs : list jsstring) : list jsstring :=
  match xs with
  | [] => []
  | x :: xs' => x :: filter (fun y => y <> x) (distinct_in_order xs')
  end.

(** The capability flags sent upstream for a caller-supplied header value. *)
Definition merged_flags (incomingBeta : option jsstring) : list jsstring :=
  REQUIRED_BETA_FLAGS ++
  filter (fun f => f ∉ REQUIRED_BETA_FLAGS)
    (distinct_in_order (incomingBetasList incomingBeta)).

(** The text of a comma-separated list. *)
Fixpoint comma_separated (pieces : list jsstring) : jsstring :=
  match pieces with
  | [] => []
  | [p] => p
  | p :: rest => p ++ [comma] ++ comma_separated rest
  end.

(** The flags that a caller supplies by the pieces of a comma-separated
    header value: each piece without the white space at its ends, the empty
    ones left out. *)
Definition supplied_flags (pieces : list jsstring) : list jsstring :=
  filter (fun f => f <> []) (map trim pieces).

(** The deduplicated, order-stable union of the mandatory flags followed by
    the supplied ones. *)
Definition flag_union (supplied : list jsstring) : list jsstring :=
  distinct_in_order (REQUIRED_BETA_FLAGS ++ supplied).

(** A text without NUL, line feed and carriage return. *)
Definition one_line (s : jsstring) : Prop :=
  Forall (fun c => c <> 0%N /\ c <> 10%N /\ c <> 13%N) s.

(** ** The request transformer *)

(** The blocks of [body.system] when it is an array. *)
Definition system_blocks (body : value) : option (list value) :=
  match get_prop (Some body) (js "system") with
  | Ok (Some (VArr blocks _)) => Some blocks
  | _ => None
  end.

(** The blocks that identity injection starts from: nothing for an absent
    or falsy [system], one text block for a string. *)
Definition normalized_blocks (body : value) : list value :=
  match get_prop (Some body) (js "system") with
  | Ok (Some (VStr s)) => if nonempty s then [text_block s] else []
  | Ok (Some (VArr blocks _)) => blocks
  | _ => []
  end.

(** A block whose [text] is a string that begins with the identity
    phrase. *)
Definition begins_with_identity (block : value) : Prop :=
  exists rest,
    get_prop (Some block) (js "text")
    = Ok (Some (VStr (js "You are Claude Code" ++ rest))).

(** A block whose text is the identity preamble. *)
Definition is_preamble_block (block : value) : bool :=
  match get_prop (Some block) (js "text") with
  | Ok (Some (VStr s)) => str_eqb s CLAUDE_CODE_SYSTEM_PROMPT
  | _ => false
  end.

Definition preamble_count (blocks : list value) : nat :=
  length (List.filter is_preamble_block blocks).

(** Well-formed input of the transformer: the body is an object; the
    elements of [system], of [tools], of [messages] and of each message's
    [content], whenever these are arrays, are objects; a [text] or a [name],
    when present, is a string. *)
Definition string_or_absent (ov : option value) : Prop :=
  match ov with
  | None | Some (VStr _) => True
  | Some _ => False
  end.

Definition object_with (k : jsstring) (v : value) : Prop :=
  match v with
  | VObj props => string_or_absent (assoc_get k props)
  | _ => False
  end.

Definition array_of (P : value -> Prop) (ov : option value) : Prop :=
  match ov with
  | Some (VArr items _) => Forall P items
  | _ => True
  end.

Definition message_ok (msg : value) : Prop :=
  match msg with
  | VObj props => array_of (object_with (js "name")) (assoc_get (js "content") props)
  | _ => False
  end.

Definition well_formed_body (body : value) : Prop :=
  match body with
  | VObj props =>
      match assoc_get (js "system") props with
      | None | Some (VStr _) => True
      | Some (VArr items _) => Forall (object_with (js "text")) items
      | Some _ => False
      end /\
      array_of (object_with (js "name")) (assoc_get (js "tools") props) /\
      array_of message_ok (assoc_get (js "messages") props)
  | _ => False
  end.

(** The text of a [name] field in a JSON document: the quoted key, a colon,
    a space, and the value as a JSON string. *)
Definition name_field (name : jsstring) : jsstring :=
  json_quote (js "name") ++ [colon; space] ++ json_quote name.

(** An unfinished [name] field with the prefix: the quoted word [name],
    a colon between blanks, a quote, the prefix and at least one character
    of a name, without the quote that closes it. *)
Definition unfinished_field (s : jsstring) : Prop :=
  exists ws1 ws2 capture,
    s = (dq :: js "name" ++ [dq]) ++ ws1 ++ [colon] ++ ws2 ++ (dq :: js "mcp_")
        ++ capture /\
    forallb is_js_space ws1 = true /\ forallb is_js_space ws2 = true /\
    capture <> [] /\ (dq ∉ capture).

(** A text that does not end with an unfinished field. *)
Definition ends_finished (pre : jsstring) : Prop :=
  forall p1 p2, pre = p1 ++ p2 -> ~ unfinished_field p2.

(** A text with several [name] fields: for each field the text before it
    and its name, written behind [prefix]; [last] is the text after the
    last field. *)
Fixpoint fields_text (prefix : jsstring) (segments : list (jsstring * jsstring))
    (last : jsstring) : jsstring :=
  match segments with
  | [] => last
  | (before, n) :: rest =>
      before ++ name_field (prefix ++ n) ++ fields_text prefix rest last
  end.

(** The body of the specification's scenario:
    a [system] string and one tool. *)
Definition sample_body : value :=
  VObj [(js "system", VStr (js "hi"));
        (js "tools", VArr [VObj [(js "name", VStr (js "search"))]] [])].

(** A body that names the identity twice. *)
Definition doubled_identity_body : value :=
  VObj [(js "system",
         VArr [text_block CLAUDE_CODE_SYSTEM_PROMPT;
               text_block CLAUDE_CODE_SYSTEM_PROMPT] [])].

(** Every double quote of [s] comes right after a backslash; [prev] is the
    code unit before [s]. *)
Fixpoint quotes_escaped (prev : N) (s : jsstring) : bool :=
  match s with
  | [] => true
  | c :: s' => (negb (c =? dq)%N || (prev =? backslash)%N) && quotes_escaped c s'
  end.

(** ** The streaming transformer *)

(** The texts that the decoder of the stream yields, chunk by chunk. *)
Fixpoint decoded_texts (d : TextDecoder) (chunks : list (list N)) : list jsstring :=
  match chunks with
  | [] => []
  | chunk :: chunks' =>
      let '(d', text) := decode_stream d chunk in
      text :: decoded_texts d' chunks'
  end.

(** A Unicode scalar value: a code point that is not a surrogate. *)
Definition is_scalar (cp : N) : Prop :=
  (cp < 55296 \/ 57344 <= cp <= 1114111)%N.






(** * Further vocabulary *)

(** ** The token lifecycle *)

(** The request of the version look-up. *)
Definition registry_request : FetchRequest :=
  {| fetch_url := NPM_REGISTRY_URL; fetch_method := js "GET";
     fetch_headers := headers_set (js "Accept") (js "application/json") ∅;
     fetch_body := None |}.

(** [data["dist-tags"]?.["latest"]] in the answer of the registry, when it
    is there. *)
Definition latest_tag (r : RegistryReply) : option value :=
  match registry_json r with
  | Some data =>
      match get_prop (Some data) (js "dist-tags") with
      | Ok (Some tags) =>
          match get_prop (Some tags) (js "latest") with
          | Ok (Some v) => Some v
          | _ => None
          end
      | _ => None
      end
  | None => None
  end.

(** The version that a given outcome of the look-up leads to. *)
Definition advertised_version (reply : fetch_reply RegistryReply) : value :=
  match reply with
  | Reply r =>
      if status_ok (registry_status r) && truthy (latest_tag r)
      then default (VStr CLAUDE_CODE_VERSION) (latest_tag r)
      else VStr CLAUDE_CODE_VERSION
  | NetworkError _ => VStr CLAUDE_CODE_VERSION
  end.

Definition is_log (ev : event) : Prop :=
  match ev with
  | EvLog _ => True
  | _ => False
  end.

(** [cached?.refreshToken || env.CLAUDE_REFRESH_TOKEN] *)
Definition refresh_credential (env : Env) (cached : option TokenData) : jsstring :=
  match cached with
  | Some c => if nonempty (refreshToken c) then refreshToken c
              else CLAUDE_REFRESH_TOKEN env
  | None => CLAUDE_REFRESH_TOKEN env
  end.

(** The refresh exchange that [getValidToken] attempts in a world. *)
Definition due_request (env : Env) (w : World) : FetchRequest :=
  refresh_request (refresh_credential env (kv w !! TOKENS_KEY))
    (CLAUDE_OAUTH_CLIENT_ID env).

(** The reading of the clock at the time the new record is built: the
    freshness test of a cached record reads the clock once before. *)
Definition refresh_time (w : World) : Z :=
  match kv w !! TOKENS_KEY with
  | Some _ => clock w (S (ticks w))
  | None => clock w (ticks w)
  end.

(** The record made of a granted refresh. *)
Definition fresh_record (now : Z) (data : TokenPayload) : TokenData :=
  {| accessToken := access_token data;
     refreshToken := refresh_token data;
     expiresAt := now + expires_in data * 1000 |}.

(** The status line of the health report, for what the handler observes:
    the failure of the store, or the expiry of the cached record if there
    is one, and the current time. *)
Definition token_status_line (fault : option exn) (expiry : option Z) (now : Z) :
    jsstring :=
  match fault, expiry with
  | Some e, _ => js "error: " ++ String_of_exn e
  | None, None => js "not cached (will use secret on first request)"
  | None, Some t =>
      if (t - now >? 0)%Z
      then js "valid (expires in " ++ of_Z (round_minutes (t - now)) ++ js " minutes)"
      else js "expired (will refresh on next request)"
  end.

(** The health report carrying a status line. *)
Definition health_response (line : jsstring) : Response :=
  {| status := 200; headers := json_headers;
     body := BodyText (stringify
               (VObj [(js "status", VStr (js "ok"));
                      (js "service", VStr (js "claude-max-proxy"));
                      (js "tokenStatus", VStr line)])) |}.

(** ** Routing *)

Definition messages_path (path : jsstring) : bool :=
  str_eqb path (js "/v1/messages") || str_eqb path (js "/anthropic/v1/messages").

Definition models_path (path : jsstring) : bool :=
  str_eqb path (js "/v1/models") || str_eqb path (js "/anthropic/v1/models").

Definition health_path (path : jsstring) : bool :=
  str_eqb path (js "/health") || str_eqb path (js "/").

(** The requests that reach the credentials or the store: an authorised
    POST to a messages path, and any request to a health path; a preflight
    never does. *)
Definition reaches_credentials (request : Request) (env : Env) : bool :=
  negb (str_eqb (req_method request) (js "OPTIONS")) &&
  (if messages_path (req_path request)
   then str_eqb (req_method request) (js "POST") && validateAuth request env
   else negb (models_path (req_path request)) && health_path (req_path request)).

(** The status of the answer to the other requests. *)
Definition early_status (request : Request) : Z :=
  if str_eqb (req_method request) (js "OPTIONS") then 200
  else if messages_path (req_path request) then
    if str_eqb (req_method request) (js "POST") then 401 else 405
  else if models_path (req_path request) then 200
  else 404.

(** The names of the headers of a forwarded request. *)
Definition forwarded_header_names : gset jsstring :=
  {[ js "authorization"; js "content-type"; js "anthropic-version";
     js "anthropic-beta"; js "user-agent" ]}.

(** What the worker may do to the outside: read and write the store under
    [tokens] (writes with a time-to-live of 86400 seconds), log, query the
    registry, talk to the token endpoint, and POST to the messages endpoint
    with the five headers of [buildHeaders] and a body. *)
Definition worker_event (ev : event) : Prop :=
  match ev with
  | EvKvGet key => key = TOKENS_KEY
  | EvKvPut key _ ttl => key = TOKENS_KEY /\ ttl = 86400%Z
  | EvLog _ => True
  | EvFetch f =>
      f = registry_request \/
      (fetch_url f = OAUTH_TOKEN_URL /\ fetch_method f = js "POST") \/
      (fetch_url f = UPSTREAM_URL /\ fetch_method f = js "POST" /\
       dom (fetch_headers f) = forwarded_header_names /\
       is_Some (fetch_body f))
  end.

(** A POST to a messages path with a wrong bearer token. *)
Definition wrong_bearer_post : Request :=
  {| req_method := js "POST"; req_path := js "/anthropic/v1/messages";
     req_headers := <[js "authorization" := js "Bearer wrong"]> ∅;
     req_json := Some (VObj []) |}.

(** ** Forwarding *)

(** The client's capability flags, as the handler hands them to
    [buildHeaders]: an empty value counts as none. *)
Definition incoming_flags (request : Request) : option jsstring :=
  match headers_get (req_headers request) (js "anthropic-beta") with
  | Some [] => None
  | o => o
  end.

(** The request forwarded upstream with the headers built and the
    transformed body. *)
Definition forwarded_request (built : gmap jsstring jsstring) (body : value)
    : FetchRequest :=
  {| fetch_url := js "https://api.anthropic.com/v1/messages?beta=true";
     fetch_method := js "POST";
     fetch_headers := built;
     fetch_body := Some (stringify body) |}.

(** Whether a body asks for a streamed answer: [body.stream] is truthy. *)
Definition wants_stream (body : value) : bool :=
  match get_prop (Some body) (js "stream") with
  | Ok s => truthy s
  | Throw _ => false
  end.

(** The answer built from the upstream's reply. *)
Definition relayed_response (streaming : bool) (r : UpstreamReply) : outcome Response :=
  match streaming, upstream_body r with
  | true, Some chunks =>
      new_Response (BodyStream (transformStreamingResponse chunks))
        (upstream_status r)
        (headers_set (js "Cache-Control") (js "no-cache")
           (headers_set (js "Content-Type")
              (default (js "text/event-stream")
                 (or_undefined (upstream_content_type r))) ∅))
  | _, _ =>
      new_Response (BodyText (strip_tool_prefix (upstream_text r)))
        (upstream_status r) json_headers
  end.

(** A JSON value that is not an object or an array. *)
Definition is_primitive (v : value) : bool :=
  match v with
  | VObj _ | VArr _ _ => false
  | _ => true
  end.

(** A world whose upstream answers 429 with a JSON error. *)
Definition overloaded_world : World :=
  {| kv := <[TOKENS_KEY := cached_record "cached-access" "cached-refresh" 1600000]> ∅;
     kv_fault := None; clock := fun _ => 1000000%Z; ticks := 0;
     token_endpoint := fun _ => granted;
     registry := fun _ => NetworkError (TypeError "fetch failed");
     upstream := fun _ =>
       Reply {| upstream_status := 429; upstream_content_type := None;
                upstream_body := Some [js "{}"] |};
     trace := [] |}.

(** ** Sanitization *)

(** The literal [lit] cannot be read at the head of [out] followed by
    anything: a code unit of [lit] differs from the one of [out] at its
    place. *)
Fixpoint mismatch (eqc : N -> N -> bool) (lit out : jsstring) : bool :=
  match lit, out with
  | a :: lit', c :: out' => if eqc a c then mismatch eqc lit' out' else true
  | _, _ => false
  end.

(** ** Sample bodies *)

(** A system block that is not a text block, a tool with a description, and
    a message with a text block next to a [tool_use] block. *)
Definition cached_block : value :=
  VObj [(js "type", VStr (js "image")); (js "text", VStr (js "opencode"))].

Definition described_tool : value :=
  VObj [(js "name", VStr (js "search"));
        (js "description", VStr (js "Searches"))].

Definition said_block : value :=
  VObj [(js "type", VStr (js "text")); (js "name", VStr (js "bob"))].

Definition rich_body : value :=
  VObj [(js "model", VStr (js "claude-sonnet-4-6"));
        (js "system", VArr [text_block (js "Built on OpenCode"); cached_block] []);
        (js "tools", VArr [described_tool] []);
        (js "tool_choice", VObj [(js "type", VStr (js "tool"));
                                  (js "name", VStr (js "search"))]);
        (js "messages",
         VArr [VObj [(js "role", VStr (js "assistant"));
                     (js "content", VArr [said_block] [])]] [])].

(** ** Texts without the prefix *)

(** [needle] occurs in [s]: [s.includes(needle)]. *)
Fixpoint occurs (needle s : jsstring) : bool :=
  starts_with needle s ||
  match s with
  | [] => false
  | _ :: s' => occurs needle s'
  end.

(** The code points that the decoder of the stream yields, chunk by chunk. *)
Fixpoint decoded_points (u : utf8_decoder) (chunks : list (list N)) : list (list N) :=
  match chunks with
  | [] => []
  | chunk :: chunks' =>
      let '(u', cps) := decode_bytes u chunk in
      cps :: decoded_points u' chunks'
  end.

(** ** Configuration *)

(** The configuration with another provisioned access token. *)
Definition with_access_token (env : Env) (token : jsstring) : Env :=
  {| CLAUDE_OAUTH_CLIENT_ID := CLAUDE_OAUTH_CLIENT_ID env;
     CLAUDE_ACCESS_TOKEN := token;
     CLAUDE_REFRESH_TOKEN := CLAUDE_REFRESH_TOKEN env;
     PROXY_SECRET := PROXY_SECRET env |}.

(** A world whose store fails. *)
Definition failing_store_world : World :=
  {| kv := ∅; kv_fault := Some (Error (js "KV GET failed: 500"));
     clock := fun _ => 1000000%Z; ticks := 0;
     token_endpoint := fun _ => granted;
     registry := fun _ => NetworkError (TypeError "fetch failed");
     upstream := fun _ => NetworkError (TypeError "fetch failed");
     trace := [] |}.

(** ** The capability flags, read back *)

(** A flag as [incomingBetasList] yields them: not empty, without a comma,
    and trimmed. *)
Definition flag_ok (f : jsstring) : Prop :=
  f <> [] /\ (comma ∉ f) /\ trim f = f.

(** ** The login script ([scripts/oauth-login.js]) *)

Definition CLIENT_ID : jsstring := js "9d1c250a-e61b-44d9-88ed-5944d1962f5e".
Definition OAUTH_REDIRECT_URI : jsstring :=
  js "https://console.anthropic.com/oauth/code/callback".

Definition hash : N := 35.      (* the number sign *)

(** The object sent by [exchangeCodeForTokens]; [JSON.stringify] leaves out
    a property that is [undefined]. *)
Definition exchange_payload (actualCode : option jsstring)
    (state verifier : jsstring) : value :=
  VObj (match actualCode with
        | Some c => [(js "code", VStr c)]
        | None => []
        end ++
        [(js "state", VStr state);
         (js "grant_type", VStr (js "authorization_code"));
         (js "client_id", VStr CLIENT_ID);
         (js "redirect_uri", VStr OAUTH_REDIRECT_URI);
         (js "code_verifier", VStr verifier)]).

(** The request of the code exchange: the code is cut at every number sign,
    the first piece is the code and the second, unless missing or empty,
    the state. *)
Definition exchange_request (code verifier : jsstring) : FetchRequest :=
  let splits := split hash code in
  let actualCode := splits !! 0%nat in
  let state :=
    match splits !! 1%nat with
    | Some s => if nonempty s then s else verifier
    | None => verifier
    end in
  {| fetch_url := OAUTH_TOKEN_URL; fetch_method := js "POST";
     fetch_headers := headers_set (js "Content-Type") (js "application/json") ∅;
     fetch_body := Some (stringify (exchange_payload actualCode state verifier)) |}.

(** The request that carries a given code and state. *)
Definition exchange_of (actualCode state verifier : jsstring) : FetchRequest :=
  {| fetch_url := OAUTH_TOKEN_URL; fetch_method := js "POST";
     fetch_headers := headers_set (js "Content-Type") (js "application/json") ∅;
     fetch_body := Some (stringify (exchange_payload (Some actualCode) state verifier)) |}.

(** ** A name field cut between two chunks *)

(** The number of double quotes of a text. *)
Fixpoint quotes (s : jsstring) : nat :=
  match s with
  | [] => 0
  | c :: s' => (if (c =? dq)%N then 1 else 0) + quotes s'
  end.

(** A printable ASCII character that [JSON.stringify] writes as it is. *)
Definition plain (c : N) : bool :=
  ((32 <=? c) && (c <? 128) && negb (c =? dq) && negb (c =? backslash))%N.

(** * Lemmas and theorems *)

(** ** Strings *)

Lemma str_eqb_refl (s : jsstring) : str_eqb s s = true.
Proof. unfold str_eqb. by apply bool_decide_eq_true. Qed.

Lemma str_eqb_true (a b : jsstring) : str_eqb a b = true <-> a = b.
Proof. unfold str_eqb. apply bool_decide_eq_true. Qed.

Lemma str_eqb_false (a b : jsstring) : str_eqb a b = false <-> a <> b.
Proof. unfold str_eqb. apply bool_decide_eq_false. Qed.

Lemma starts_with_spec (p s : jsstring) :
  starts_with p s = true <-> exists rest, s = p ++ rest.
Proof.
  revert s. induction p as [| a p IH]; intros s; cbn.
  - split; [by exists s | done].
  - destruct s as [| b s]; [split; [done | by intros [rest Hrest]] |].
    rewrite andb_true_iff, N.eqb_eq, IH. split.
    + intros [-> [rest ->]]. by exists rest.
    + intros [rest [= -> ->]]. split; [done | by exists rest].
Qed.

(** ** Effects of a computation *)

Section Emits.
Context {A B : Type} (P : event -> Prop).

Lemma emits_lift (o : outcome A) : emits (lift o) P.
Proof. intros w. exists []. by rewrite app_nil_r. Qed.

Lemma emits_ret (a : A) : emits (ret a) P.
Proof. apply emits_lift. Qed.

Lemma emits_throw (e : exn) : emits (@throw A e) P.
Proof. apply emits_lift. Qed.

Lemma emits_bind (c : M A) (k : A -> M B) :
  emits c P -> (forall a, emits (k a) P) -> emits (bind c k) P.
Proof.
  intros Hc Hk w. unfold bind.
  destruct (Hc w) as (evs & Htr & Hevs).
  destruct (c w) as [[a | e] w1]; cbn in *.
  - destruct (Hk a w1) as (evs' & Htr' & Hevs').
    exists (evs ++ evs'). rewrite Htr', Htr, app_assoc.
    split; [done | by apply Forall_app].
  - by exists evs.
Qed.

Lemma emits_try_catch (c : M A) (h : exn -> M A) :
  emits c P -> (forall e, emits (h e) P) -> emits (try_catch c h) P.
Proof.
  intros Hc Hh w. unfold try_catch.
  destruct (Hc w) as (evs & Htr & Hevs).
  destruct (c w) as [[a | e] w1]; cbn in *.
  - by exists evs.
  - destruct (Hh e w1) as (evs' & Htr' & Hevs').
    exists (evs ++ evs'). rewrite Htr', Htr, app_assoc.
    split; [done | by apply Forall_app].
Qed.

Lemma emits_fetch (endpoint : World -> FetchRequest -> fetch_reply A)
    (r : FetchRequest) :
  P (EvFetch r) -> emits (fetch endpoint r) P.
Proof.
  intros HP w. exists [EvFetch r]. unfold fetch.
  split; [| by repeat constructor].
  by destruct (endpoint _ r).
Qed.

End Emits.

Lemma emits_Date_now P : emits Date_now P.
Proof. intros w. exists []. by rewrite app_nil_r. Qed.

Lemma emits_console_log P msg : P (EvLog msg) -> emits (console_log msg) P.
Proof. intros HP w. exists [EvLog msg]. split; [done | by repeat constructor]. Qed.

Lemma emits_TOKEN_STORE_get P key :
  P (EvKvGet key) -> emits (TOKEN_STORE_get key) P.
Proof.
  intros HP w. exists [EvKvGet key]. unfold TOKEN_STORE_get. cbn.
  split; [| by repeat constructor]. by destruct (kv_fault w).
Qed.

Lemma emits_TOKEN_STORE_put P key data ttl :
  P (EvKvPut key data ttl) -> emits (TOKEN_STORE_put key data ttl) P.
Proof.
  intros HP w. exists [EvKvPut key data ttl]. unfold TOKEN_STORE_put. cbn.
  split; [| by repeat constructor]. by destruct (kv_fault w).
Qed.

Ltac emits_step :=
  first
    [ apply emits_bind; [| intros ?]
    | apply emits_try_catch; [| intros ?]
    | apply emits_ret | apply emits_throw | apply emits_lift
    | apply emits_Date_now
    | apply emits_console_log; exact I
    | apply emits_TOKEN_STORE_get; exact I
    | apply emits_TOKEN_STORE_put; exact I
    | apply emits_fetch; reflexivity ].

Lemma refreshAccessToken_emits rt cid :
  emits (refreshAccessToken rt cid) credential_event.
Proof.
  unfold refreshAccessToken. emits_step; [emits_step |].
  destruct (negb _); [emits_step |].
  destruct (token_json a); repeat emits_step.
Qed.

Lemma getValidToken_emits env : emits (getValidToken env) credential_event.
Proof.
  unfold getValidToken. emits_step; [emits_step |].
  emits_step.
  { destruct a; repeat emits_step. }
  assert (Hrefresh : forall rt,
    emits (let! _ := console_log (js "Refreshing access token...") in
           let! newTokens := refreshAccessToken rt (CLAUDE_OAUTH_CLIENT_ID env) in
           let! _ := TOKEN_STORE_put TOKENS_KEY newTokens 86400 in
           ret (accessToken newTokens)) credential_event).
  { intros rt. emits_step; [emits_step |].
    emits_step; [apply refreshAccessToken_emits |]. repeat emits_step. }
  destruct a as [c|], a0; first [apply Hrefresh | emits_step].
Qed.

Lemma getValidToken_cached (env : Env) (w : World) (c : TokenData) :
  kv_fault w = None ->
  kv w !! TOKENS_KEY = Some c ->
  (expiresAt c > clock w (ticks w) + 60000)%Z ->
  getValidToken env w = (Ok (accessToken c), tick (record (EvKvGet TOKENS_KEY) w)).
Proof.
  intros Hfault Hkv Hfresh.
  unfold getValidToken, bind, TOKEN_STORE_get. cbn.
  rewrite Hfault, Hkv. cbn.
  destruct (Z.gtb_spec (expiresAt c) (clock w (ticks w) + 60000)); [reflexivity | lia].
Qed.

Lemma getValidToken_refused (env : Env) (w : World) (r : TokenReply) :
  kv_fault w = None ->
  kv w !! TOKENS_KEY = None ->
  token_endpoint w (fallback_request env) = Reply r ->
  status_ok (token_status r) = false ->
  getValidToken env w =
    (Throw (refresh_failure r),
     record (EvFetch (fallback_request env))
       (record (EvLog (js "Refreshing access token..."))
          (record (EvKvGet TOKENS_KEY) w))).
Proof.
  intros Hfault Hkv Hreply Hstatus.
  unfold getValidToken, bind, TOKEN_STORE_get. cbn.
  rewrite Hfault, Hkv. cbn.
  unfold refreshAccessToken, bind, fetch. cbn.
  fold (fallback_request env). rewrite Hreply, Hstatus. reflexivity.
Qed.

Lemma new_Response_bad_request :
  new_Response (BodyText (js "Invalid JSON body")) 400 ∅ = Ok bad_request_response.
Proof. reflexivity. Qed.

Lemma new_Response_token_error e :
  new_Response (BodyText (token_error_payload e)) 500 json_headers
  = Ok (token_error_response e).
Proof. reflexivity. Qed.

(** What [handleMessages] does once the method and the secret are accepted
    and the body does not parse. *)
Lemma handleMessages_unparsed (request : Request) (env : Env) (w : World) :
  req_method request = js "POST" ->
  validateAuth request env = true ->
  req_json request = None ->
  handleMessages request env w =
    match getValidToken env w with
    | (Ok _, w1) => (Ok bad_request_response, w1)
    | (Throw e, w1) =>
        (Ok (token_error_response e),
         record (EvLog (js "Failed to get access token: " ++ String_of_exn e)) w1)
    end.
Proof.
  intros Hm Ha Hj. unfold handleMessages.
  rewrite Hm, str_eqb_refl, Ha, Hj. cbn [negb].
  unfold bind, try_catch, lift, ret, console_log.
  destruct (getValidToken env w) as [[tok | e] w1].
  - by rewrite new_Response_bad_request.
  - by rewrite new_Response_token_error.
Qed.

(** ** Claims about the token lifecycle and the messages handler *)

(** C3: when the store holds a record that expires more than 60 seconds
    after the current time, [getValidToken] returns its access credential
    unchanged; the only effect is the store read, so no refresh request is
    sent and nothing is written to the store. *)

Theorem getValidToken_fast_path (env : Env) (w : World) (c : TokenData) :
  kv_fault w = None ->
  kv w !! TOKENS_KEY = Some c ->
  (expiresAt c > clock w (ticks w) + 60000)%Z ->
  exists w',
    getValidToken env w = (Ok (accessToken c), w') /\
    trace w' = trace w ++ [EvKvGet TOKENS_KEY] /\
    kv w' = kv w.
Proof.
  intros Hfault Hkv Hfresh.
  exists (tick (record (EvKvGet TOKENS_KEY) w)).
  split; [by apply getValidToken_cached | by split].
Qed.

Lemma getValidToken_fast_path_witness :
  exists w',
    getValidToken sample_env
      (caching (cached_record "cached-access" "cached-refresh" 1600000))
    = (Ok (js "cached-access"), w') /\
    trace w' = [EvKvGet TOKENS_KEY] /\
    kv w' = <[TOKENS_KEY := cached_record "cached-access" "cached-refresh" 1600000]> ∅.
Proof.
  refine (getValidToken_fast_path sample_env
            (caching (cached_record "cached-access" "cached-refresh" 1600000))
            (cached_record "cached-access" "cached-refresh" 1600000) _ _ _);
    [reflexivity | vm_compute; reflexivity | reflexivity].
Defined.

Lemma token_error_payload_text (e : exn) :
  token_error_payload e = error_payload (js "Token error") (String_of_exn e).
Proof.
  unfold token_error_payload, error_payload.
  cbn [stringify map join fst snd]. by rewrite <- !app_assoc.
Qed.

(** C4: with nothing cached and a refresh exchange answered with a
    non-success status, [getValidToken] throws an error whose message holds
    the status and the body of that answer.  The messages handler (for an
    authorised POST) then answers with status 500, content type
    [application/json] and, as its body, the JSON text of an object with the
    properties [error] (the string [Token error]) and [message] (the text of
    the error, with the status and the body of the refused exchange).  The
    only request sent is the refresh exchange, to the token endpoint: nothing
    goes to the messages endpoint. *)
Theorem refresh_refused_is_server_error (env : Env) (w : World) (r : TokenReply) :
  kv_fault w = None ->
  kv w !! TOKENS_KEY = None ->
  token_endpoint w (fallback_request env) = Reply r ->
  status_ok (token_status r) = false ->
  let failure :=
    js "Token refresh failed: " ++ of_Z (token_status r) ++ js " " ++ token_text r in
  (exists w1, getValidToken env w = (Throw (Error failure), w1)) /\
  (forall request,
     req_method request = js "POST" ->
     validateAuth request env = true ->
     exists resp w2,
       handleMessages request env w = (Ok resp, w2) /\
       status resp = 500%Z /\
       headers_get (headers resp) (js "Content-Type") = Some (js "application/json") /\
       body resp
       = BodyText (error_payload (js "Token error") (js "Error: " ++ failure)) /\
       trace w2 = trace w ++
         [EvKvGet TOKENS_KEY; EvLog (js "Refreshing access token...");
          EvFetch (fallback_request env);
          EvLog (js "Failed to get access token: Error: " ++ failure)] /\
       fetch_url (fallback_request env)
       = js "https://console.anthropic.com/v1/oauth/token" /\
       fetch_url (fallback_request env) <> UPSTREAM_URL).
Proof.
  intros Hfault Hkv Hreply Hstatus failure.
  pose proof (getValidToken_refused env w r Hfault Hkv Hreply Hstatus) as Hget.
  change (refresh_failure r) with (Error failure) in Hget.
  split; [eauto |].
  intros request Hm Ha.
  exists (token_error_response (Error failure)). eexists.
  split; [| split; [reflexivity | split; [reflexivity | split; [| split; [| split]]]]].
  - unfold handleMessages. rewrite Hm, str_eqb_refl, Ha. cbn [negb].
    unfold bind at 1. unfold try_catch, bind at 1. rewrite Hget.
    unfold bind, lift, ret, console_log.
    rewrite new_Response_token_error. reflexivity.
  - cbn [body token_error_response]. by rewrite token_error_payload_text.
  - cbn. rewrite <- !app_assoc. reflexivity.
  - reflexivity.
  - discriminate.
Qed.

Lemma refresh_refused_is_server_error_witness :
  exists resp w2,
    handleMessages (sample_post (Some (VObj []))) sample_env
      (sample_world 1000000 ∅ (Reply refused))
    = (Ok resp, w2) /\
    status resp = 500%Z /\
    body resp
    = BodyText
        (js "{" ++ json_quote (js "error") ++ js ":" ++ json_quote (js "Token error")
         ++ js "," ++ json_quote (js "message") ++ js ":"
         ++ json_quote (js "Error: Token refresh failed: 401 invalid_grant")
         ++ js "}").
Proof.
  destruct (refresh_refused_is_server_error sample_env
              (sample_world 1000000 ∅ (Reply refused)) refused)
    as [_ H]; [reflexivity | reflexivity | reflexivity | reflexivity |].
  destruct (H (sample_post (Some (VObj []))))
    as (resp & w2 & Hw2 & Hstatus & _ & Hbody & _); [reflexivity | vm_compute; reflexivity |].
  exists resp, w2. split; [exact Hw2 |]. split; [exact Hstatus |].
  rewrite Hbody. reflexivity.
Defined.

(** C1, as the code has it: an authorised POST whose body does not parse is
    answered only after [getValidToken] has run.  If a credential is obtained
    the answer is 400 and if not it is 500; either way the handler's events are
    those of [getValidToken] (store accesses, and fetches of the token
    endpoint only), so nothing is forwarded upstream and no version look-up
    is made.  With a cached credential valid for more than 60 seconds
    the answer is 400 and no network call is made at all. *)
Theorem invalid_json_rejected_after_token (request : Request) (env : Env) (w : World) :
  req_method request = js "POST" ->
  validateAuth request env = true ->
  req_json request = None ->
  exists resp w',
    handleMessages request env w = (Ok resp, w') /\
    (match (getValidToken env w).1 with
     | Ok _ => resp = bad_request_response
     | Throw e => resp = token_error_response e
     end) /\
    (exists evs, trace w' = trace w ++ evs /\ Forall credential_event evs) /\
    (forall c,
       kv_fault w = None -> kv w !! TOKENS_KEY = Some c ->
       (expiresAt c > clock w (ticks w) + 60000)%Z ->
       resp = bad_request_response /\ trace w' = trace w ++ [EvKvGet TOKENS_KEY]).
Proof.
  intros Hm Ha Hj.
  rewrite (handleMessages_unparsed request env w Hm Ha Hj).
  destruct (getValidToken_emits env w) as (evs & Htr & Hevs).
  destruct (getValidToken env w) as [[tok | e] w1] eqn:Hget; cbn in Htr |- *.
  - exists bad_request_response, w1.
    split; [reflexivity |]. split; [reflexivity |]. split; [eauto |].
    intros c Hf Hkv Hfresh.
    rewrite (getValidToken_cached env w c Hf Hkv Hfresh) in Hget.
    injection Hget as _ <-. by split.
  - eexists _, _. split; [reflexivity |]. split; [reflexivity |]. split.
    + exists (evs ++ [EvLog (js "Failed to get access token: " ++ String_of_exn e)]).
      cbn. rewrite Htr, app_assoc. split; [done |].
      apply Forall_app. split; [done | by repeat constructor].
    + intros c Hf Hkv Hfresh.
      rewrite (getValidToken_cached env w c Hf Hkv Hfresh) in Hget. discriminate.
Qed.

Lemma invalid_json_rejected_after_token_witness :
  exists resp w',
    handleMessages (sample_post None) sample_env (sample_world 1000000 ∅ granted)
    = (Ok resp, w').
Proof.
  destruct (invalid_json_rejected_after_token (sample_post None) sample_env
              (sample_world 1000000 ∅ granted))
    as (resp & w' & H & _); [reflexivity | vm_compute; reflexivity | reflexivity |].
  exists resp, w'. exact H.
Defined.

(** C1 as stated fails: with nothing cached, the authorised POST with an
    unparsable body is answered 400 only after a refresh request has been
    sent to the token endpoint (and the new record written to the store). *)
Lemma invalid_json_refreshes_first :
  ~ (forall (request : Request) (env : Env) (w : World),
       req_method request = js "POST" ->
       validateAuth request env = true ->
       req_json request = None ->
       exists resp w',
         handleMessages request env w = (Ok resp, w') /\
         status resp = 400%Z /\
         forall f, EvFetch f ∈ trace w' -> EvFetch f ∈ trace w).
Proof.
  intros H.
  destruct (H (sample_post None) sample_env (sample_world 1000000 ∅ granted))
    as (resp & w' & Heq & _ & Hno); [reflexivity | vm_compute; reflexivity | reflexivity |].
  apply (f_equal snd) in Heq. cbn [snd] in Heq. subst w'.
  assert (Htr : trace (handleMessages (sample_post None) sample_env
                         (sample_world 1000000 ∅ granted)).2
                = [EvKvGet TOKENS_KEY; EvLog (js "Refreshing access token...");
                   EvFetch (fallback_request sample_env);
                   EvKvPut TOKENS_KEY
                     {| accessToken := js "fresh-access";
                        refreshToken := js "fresh-refresh";
                        expiresAt := 4600000 |} 86400])
    by (vm_compute; reflexivity).
  specialize (Hno (fallback_request sample_env)).
  rewrite Htr in Hno. cbn in Hno.
  apply elem_of_nil in Hno; [done |].
  do 2 apply list_elem_of_further. apply list_elem_of_here.
Qed.

(** ** The health handler *)

(** C9: the response of the health handler is a function of the presence of
    a cached record, of its expiry and of the clock alone.  Two worlds (and
    two configurations) that differ only in the access and refresh
    credentials get identical responses. *)
Theorem handleHealth_hides_credentials (env1 env2 : Env) (w1 w2 : World) :
  health_view w1 = health_view w2 ->
  (handleHealth env1 w1).1 = (handleHealth env2 w2).1.
Proof.
  unfold health_view. intros Hview.
  injection Hview as Hfault Hexp Hnow.
  unfold handleHealth, bind, try_catch, TOKEN_STORE_get, Date_now, ret, lift.
  cbn. rewrite <- Hfault.
  destruct (kv_fault w1) as [e |]; [reflexivity |].
  destruct (kv w1 !! TOKENS_KEY) as [c1 |], (kv w2 !! TOKENS_KEY) as [c2 |];
    try discriminate; [| reflexivity].
  cbn in Hexp. injection Hexp as Hexp. cbn. rewrite Hexp, Hnow.
  by destruct (_ >? 0)%Z.
Qed.

Lemma handleHealth_hides_credentials_witness :
  (handleHealth sample_env
     (caching (cached_record "access-one" "refresh-one" 1600000))).1
  = (handleHealth sample_env
       (caching (cached_record "access-two" "refresh-two" 1600000))).1.
Proof.
  refine (handleHealth_hides_credentials sample_env sample_env
            (caching (cached_record "access-one" "refresh-one" 1600000))
            (caching (cached_record "access-two" "refresh-two" 1600000)) _).
  vm_compute. reflexivity.
Defined.

(** ** Splitting at a separator *)

Section Split.
Variable sep : N.
Let other (c : N) : bool := negb (c =? sep)%N.

Lemma take_drop_while (p : N -> bool) (s : jsstring) :
  s = take_while p s ++ drop_while p s.
Proof. induction s as [| c s IH]; cbn; [done |]. destruct (p c); cbn; congruence. Qed.

Lemma take_while_all (p : N -> bool) (s : jsstring) :
  forallb p (take_while p s) = true.
Proof. induction s as [| c s IH]; cbn; [done |]. destruct (p c) eqn:Hc; cbn; [by rewrite Hc |done]. Qed.

Lemma drop_while_head (p : N -> bool) (s : jsstring) :
  match drop_while p s with
  | [] => True
  | c :: _ => p c = false
  end.
Proof. induction s as [| c s IH]; cbn; [done |]. destruct (p c) eqn:Hc; cbn; done. Qed.

(** A prefix accepted by [p] and stopped by the end of the text or by a
    rejected character is what [take_while] takes. *)
Lemma take_while_app (p : N -> bool) (h rest : jsstring) :
  forallb p h = true ->
  match rest with [] => True | c :: _ => p c = false end ->
  take_while p (h ++ rest) = h /\ drop_while p (h ++ rest) = rest.
Proof.
  intros Hh Hrest. induction h as [| c h IH]; cbn in *.
  - destruct rest as [| c rest]; cbn; [done |]. by rewrite Hrest.
  - apply andb_prop in Hh as [Hc Hh]. rewrite Hc.
    destruct (IH Hh) as [-> ->]. done.
Qed.

(** The first piece is the text before the first separator; the other
    pieces are those of the text after it. *)
Lemma split_unfold (s : jsstring) :
  split sep s =
    take_while other s ::
    match drop_while other s with
    | [] => []
    | _ :: s' => split sep s'
    end.
Proof.
  induction s as [| c s IH]; cbn; [done |].
  unfold other at 1 3. destruct (c =? sep)%N eqn:Hc; cbn; [done |].
  by rewrite IH.
Qed.

Lemma other_forallb (s : jsstring) : forallb other s = true <-> sep ∉ s.
Proof.
  induction s as [| c s IH]; cbn.
  - split; [intros _ H; inversion H | done].
  - rewrite andb_true_iff, IH, not_elem_of_cons. unfold other.
    rewrite negb_true_iff, N.eqb_neq. split; intros [H1 H2]; split; auto.
Qed.
End Split.

(** The first two pieces of [a.split(" ")] are [first] and [second] exactly
    when [a] is [first], a space, [second], and then the end of the text or
    another space. *)
Lemma split_two (first second a : jsstring) :
  split space a !! 0%nat = Some first /\ split space a !! 1%nat = Some second
  <->
  (space ∉ first) /\ (space ∉ second) /\
  exists rest, a = first ++ [space] ++ second ++ rest /\
               (rest = [] \/ head rest = Some space).
Proof.
  set (other := fun c : N => negb (c =? space)%N).
  assert (Hstop : forall rest : jsstring,
            rest = [] \/ head rest = Some space ->
            match rest with [] => True | c :: _ => other c = false end).
  { intros [| c rest] [H | H]; try done. by injection H as ->. }
  split.
  - rewrite (split_unfold space a). cbn.
    intros [Hfirst Hsecond]. injection Hfirst as Hfirst.
    pose proof (take_drop_while other a) as Ha.
    pose proof (take_while_all other a) as Hall.
    pose proof (drop_while_head other a) as Hhead.
    fold other in Hfirst, Hsecond. rewrite Hfirst in Ha, Hall.
    destruct (drop_while other a) as [| c a'] eqn:Hdrop; [done |].
    assert (c = space) as ->.
    { unfold other in Hhead. apply negb_false_iff, N.eqb_eq in Hhead. done. }
    rewrite (split_unfold space a') in Hsecond. cbn in Hsecond.
    injection Hsecond as Hsecond. fold other in Hsecond.
    pose proof (take_drop_while other a') as Ha'.
    pose proof (take_while_all other a') as Hall'.
    pose proof (drop_while_head other a') as Hhead'.
    rewrite Hsecond in Ha', Hall'.
    split; [by apply (other_forallb space) |].
    split; [by apply (other_forallb space) |].
    exists (drop_while other a'). split; [by rewrite Ha, Ha' at 1 |].
    destruct (drop_while other a') as [| d r]; [by left | right].
    unfold other in Hhead'. apply negb_false_iff, N.eqb_eq in Hhead'. by subst.
  - intros (Hfirst & Hsecond & rest & -> & Hrest).
    apply (other_forallb space) in Hfirst, Hsecond.
    rewrite (split_unfold space).
    destruct (take_while_app other first ([space] ++ second ++ rest) Hfirst)
      as [Htake Hdrop]; [done |].
    fold other. rewrite Htake, Hdrop. cbn. split; [done |].
    rewrite (split_unfold space). cbn.
    destruct (take_while_app other second rest Hsecond (Hstop rest Hrest))
      as [Htake' _].
    fold other. by rewrite Htake'.
Qed.

Lemma bearer_no_space : space ∉ js "Bearer".
Proof. apply (other_forallb space). reflexivity. Qed.

(** ** The authenticator *)

(** C6, as the code has it: [validateAuth] is a function of the two headers
    and the secret.  It accepts exactly when the [Authorization] value is
    [Bearer], a space, the secret, and then nothing or a space followed by
    anything (so a secret that contains a space is never accepted this
    way), or when [x-api-key] equals the secret.  In particular
    [Authorization: Bearer wrong] is rejected under the secret [right], and
    [x-api-key: right] is accepted. *)
Theorem validateAuth_accepts (request : Request) (env : Env) :
  (validateAuth request env = true <->
     (exists a, headers_get (req_headers request) (js "Authorization") = Some a /\
                bearer_of (PROXY_SECRET env) a) \/
     headers_get (req_headers request) (js "x-api-key") = Some (PROXY_SECRET env)) /\
  validateAuth (request_with (<[js "authorization" := js "Bearer wrong"]> ∅))
    (env_with_secret (js "right")) = false /\
  validateAuth (request_with (<[js "x-api-key" := js "right"]> ∅))
    (env_with_secret (js "right")) = true.
Proof.
  split; [| split; vm_compute; reflexivity].
  unfold validateAuth, bearer_of.
  set (secret := PROXY_SECRET env).
  destruct (headers_get (req_headers request) (js "Authorization")) as [a |] eqn:Hauth.
  - destruct (nonempty a && _) eqn:Hbearer.
    + split; [intros _ | done]. left. exists a. split; [done |].
      apply andb_prop in Hbearer as [_ Hparts].
      apply andb_prop in Hparts as [H0 H1].
      apply bool_decide_eq_true in H0, H1.
      destruct (proj1 (split_two _ _ _) (conj H0 H1)) as (_ & ? & ?). done.
    + rewrite bool_decide_decide. destruct (decide _) as [Hkey | Hkey].
      * split; [by right | done].
      * split; [done |]. intros [(a' & Ha' & Hsp & rest & Heq & Hrest) | H]; [| done].
        injection Ha' as <-.
        destruct (proj2 (split_two (js "Bearer") secret a)) as [H0 H1].
        { split; [apply bearer_no_space |]. split; [done |]. by exists rest. }
        apply andb_false_iff in Hbearer as [Hne | Hparts].
        -- apply negb_false_iff, str_eqb_true in Hne. subst a. discriminate.
        -- rewrite (bool_decide_eq_true_2 _ H0), (bool_decide_eq_true_2 _ H1) in Hparts.
           discriminate.
  - rewrite bool_decide_decide. destruct (decide _) as [Hkey | Hkey].
    + split; [by right | done].
    + split; [done |]. by intros [(a' & Ha' & _) | H].
Qed.

Lemma validateAuth_accepts_witness :
  validateAuth (request_with (<[js "authorization" := js "Bearer right and more"]> ∅))
    (env_with_secret (js "right")) = true.
Proof.
  apply (proj1 (validateAuth_accepts
                  (request_with (<[js "authorization" := js "Bearer right and more"]> ∅))
                  (env_with_secret (js "right")))).
  left. exists (js "Bearer right and more"). split; [reflexivity |].
  split; [apply (other_forallb space); reflexivity |].
  exists (js " and more"). split; [reflexivity | right; reflexivity].
Defined.

(** C6 as stated fails: with the secret [my secret] the header
    [Authorization: Bearer my secret] carries the secret in the bearer form
    and is rejected, because the value is cut at every space. *)
Lemma bearer_secret_with_space_rejected :
  ~ (forall (request : Request) (env : Env),
       validateAuth request env = true <->
       headers_get (req_headers request) (js "Authorization")
         = Some (js "Bearer " ++ PROXY_SECRET env) \/
       headers_get (req_headers request) (js "x-api-key") = Some (PROXY_SECRET env)).
Proof.
  intros H.
  destruct (H (request_with (<[js "authorization" := js "Bearer my secret"]> ∅))
              (env_with_secret (js "my secret"))) as [_ Hacc].
  assert (Hrej : validateAuth
                   (request_with (<[js "authorization" := js "Bearer my secret"]> ∅))
                   (env_with_secret (js "my secret")) = false)
    by (vm_compute; reflexivity).
  rewrite Hacc in Hrej; [discriminate |].
  left. vm_compute. reflexivity.
Qed.

(** ** The header builder *)

Lemma filter_all (P : jsstring -> Prop) `{!forall x, Decision (P x)}
    (l : list jsstring) :
  (forall x, x ∈ l -> P x) -> filter P l = l.
Proof.
  induction l as [| x l IH]; intros Hall; [done |].
  rewrite filter_cons_True by (apply Hall; left).
  f_equal. apply IH. intros y Hy. apply Hall. by right.
Qed.

Lemma elem_of_distinct_in_order (xs : list jsstring) (x : jsstring) :
  x ∈ distinct_in_order xs <-> x ∈ xs.
Proof.
  induction xs as [| y xs IH]; cbn [distinct_in_order]; [done |].
  rewrite !elem_of_cons, list_elem_of_filter, IH.
  destruct (decide (x = y)); naive_solver.
Qed.

Lemma NoDup_distinct_in_order (xs : list jsstring) : NoDup (distinct_in_order xs).
Proof.
  induction xs as [| y xs IH]; cbn [distinct_in_order]; constructor.
  - rewrite list_elem_of_filter. by intros [? _].
  - by apply NoDup_filter.
Qed.

(** [Set_of] keeps the first occurrence of each element: adding the elements
    of [xs] to a set that already holds [seen] appends the distinct elements
    of [xs] that are not in [seen]. *)
Lemma fold_Set_add (xs seen : list jsstring) :
  fold_left Set_add xs seen
  = seen ++ filter (fun x => x ∉ seen) (distinct_in_order xs).
Proof.
  revert seen. induction xs as [| x xs IH]; intros seen;
    cbn [fold_left distinct_in_order].
  - by rewrite filter_nil, app_nil_r.
  - rewrite IH. unfold Set_add.
    rewrite filter_cons, list_filter_filter.
    case_bool_decide as Hx.
    + rewrite decide_False by (intros H; by apply H).
      f_equal. apply list_filter_iff. intros y. split; [| by intros [? _]].
      intros Hy. split; [done |]. by intros ->.
    + rewrite decide_True by done.
      rewrite <- app_assoc. cbn. do 2 f_equal.
      apply list_filter_iff. intros y.
      rewrite not_elem_of_app, list_elem_of_singleton. done.
Qed.

Lemma Set_of_distinct (xs : list jsstring) : Set_of xs = distinct_in_order xs.
Proof.
  unfold Set_of. rewrite fold_Set_add, app_nil_l.
  rewrite filter_all; [done |]. intros x _. apply not_elem_of_nil.
Qed.

Lemma distinct_in_order_app (a xs : list jsstring) :
  NoDup a ->
  distinct_in_order (a ++ xs) = a ++ filter (fun x => x ∉ a) (distinct_in_order xs).
Proof.
  intros Ha. rewrite <- Set_of_distinct. unfold Set_of.
  rewrite fold_left_app.
  replace (fold_left Set_add a []) with a; [apply fold_Set_add |].
  rewrite fold_Set_add, app_nil_l.
  rewrite filter_all by (intros x _; apply not_elem_of_nil).
  clear xs. induction Ha as [| x a Hx Ha IH]; cbn [distinct_in_order]; [done |].
  f_equal. rewrite <- IH. symmetry. apply filter_all. by intros y Hy ->.
Qed.

Lemma NoDup_REQUIRED_BETA_FLAGS : NoDup REQUIRED_BETA_FLAGS.
Proof.
  unfold REQUIRED_BETA_FLAGS. apply NoDup_cons. split; [| apply NoDup_singleton].
  intros H. apply list_elem_of_singleton in H. vm_compute in H. discriminate H.
Qed.

Ltac header_keys :=
  repeat (rewrite lookup_insert_ne by (intros Hk; vm_compute in Hk; discriminate Hk)).

(** ** Objects *)

Section Assoc.
Context {V : Type}.
Implicit Types (k : jsstring) (v : V) (l : list (jsstring * V)).

Lemma assoc_get_set_eq k v l : assoc_get k (assoc_set k v l) = Some v.
Proof.
  induction l as [| [k' v'] l IH]; cbn.
  - by rewrite str_eqb_refl.
  - destruct (str_eqb k k') eqn:Hk; cbn; rewrite ?str_eqb_refl, ?Hk; done.
Qed.

Lemma assoc_get_set_ne k k' v l :
  k' <> k -> assoc_get k' (assoc_set k v l) = assoc_get k' l.
Proof.
  intros Hne. apply str_eqb_false in Hne.
  induction l as [| [k0 v0] l IH]; cbn.
  - by rewrite Hne.
  - destruct (str_eqb k k0) eqn:Hk; cbn.
    + apply str_eqb_true in Hk as <-. by rewrite Hne.
    + by rewrite IH.
Qed.

Lemma assoc_set_id k v l : assoc_get k l = Some v -> assoc_set k v l = l.
Proof.
  induction l as [| [k' v'] l IH]; cbn; [done |].
  destruct (str_eqb k k') eqn:Hk.
  - apply str_eqb_true in Hk as <-. by intros [= ->].
  - intros H. by rewrite IH.
Qed.

Lemma assoc_del_absent k l : assoc_get k l = None -> assoc_del k l = l.
Proof.
  induction l as [| [k' v'] l IH]; cbn; [done |].
  destruct (str_eqb k k'); [done |]. intros H. by rewrite IH.
Qed.

(** Storing back what a property read gave changes nothing. *)
Lemma assoc_put_id k l : assoc_put k (assoc_get k l) l = l.
Proof.
  unfold assoc_put. destruct (assoc_get k l) eqn:H.
  - by apply assoc_set_id.
  - by apply assoc_del_absent.
Qed.
End Assoc.

Lemma get_set_prop_eq (b b' x : value) (k : jsstring) :
  set_prop b k x = Ok b' -> get_prop (Some b') k = Ok (Some x).
Proof.
  destruct b; cbn; intros [= <-]; cbn; by rewrite assoc_get_set_eq.
Qed.

Lemma get_set_prop_ne (b b' x : value) (k k' : jsstring) :
  set_prop b k x = Ok b' -> k' <> k -> get_prop (Some b') k' = get_prop (Some b) k'.
Proof.
  destruct b; cbn; intros [= <-] Hne; cbn; by rewrite assoc_get_set_ne.
Qed.

(** ** Identity injection *)

Lemma preamble_has_identity :
  block_has_identity (text_block CLAUDE_CODE_SYSTEM_PROMPT) = Ok true.
Proof. vm_compute. reflexivity. Qed.

(** Once [system] is an array with a block that begins with the identity
    phrase, injection returns the body as it is. *)
Lemma injectSystemPrompt_fixed (body : value) (blocks : list value) extra :
  get_prop (Some body) (js "system") = Ok (Some (VArr blocks extra)) ->
  array_some block_has_identity blocks = Ok true ->
  injectSystemPrompt body = Ok body.
Proof.
  intros Hsys Hsome. unfold injectSystemPrompt.
  rewrite Hsys. cbn. rewrite Hsys. cbn. rewrite Hsys. cbn. by rewrite Hsome.
Qed.

(** The result of injection: [system] is an array with a block beginning
    with the identity phrase, made of the blocks injection started from,
    behind the preamble when none of them begins with the identity phrase. *)
Lemma injectSystemPrompt_result (body b1 : value) :
  injectSystemPrompt body = Ok b1 ->
  exists blocks extra,
    get_prop (Some b1) (js "system") = Ok (Some (VArr blocks extra)) /\
    array_some block_has_identity blocks = Ok true /\
    (blocks = normalized_blocks body /\
     array_some block_has_identity (normalized_blocks body) = Ok true \/
     blocks = text_block CLAUDE_CODE_SYSTEM_PROMPT :: normalized_blocks body /\
     array_some block_has_identity (normalized_blocks body) = Ok false).
Proof.
  unfold injectSystemPrompt, normalized_blocks.
  destruct (get_prop (Some body) (js "system")) as [system0 | e] eqn:H0; cbn; [| done].
  assert (Hfinish : forall body2 blocks extra,
    get_prop (Some body2) (js "system") = Ok (Some (VArr blocks extra)) ->
    (hasIdentity ← array_some block_has_identity blocks;
     if hasIdentity : bool then Ok body2
     else set_prop body2 (js "system")
            (VArr (text_block CLAUDE_CODE_SYSTEM_PROMPT :: blocks) extra)) = Ok b1 ->
    exists blocks1 extra1,
      get_prop (Some b1) (js "system") = Ok (Some (VArr blocks1 extra1)) /\
      array_some block_has_identity blocks1 = Ok true /\
      (blocks1 = blocks /\ array_some block_has_identity blocks = Ok true \/
       blocks1 = text_block CLAUDE_CODE_SYSTEM_PROMPT :: blocks /\
       array_some block_has_identity blocks = Ok false)).
  { intros body2 blocks extra Hsys. cbn.
    destruct (array_some block_has_identity blocks) as [[] | e] eqn:Hsome; cbn; [| | done].
    - intros [= <-]. exists blocks, extra. eauto.
    - intros Hset. apply get_set_prop_eq in Hset.
      eexists _, _. split; [exact Hset |]. split; [| by right].
      cbn [array_some]. by rewrite preamble_has_identity. }
  destruct (truthy system0) eqn:Htruthy; cbn.
  - rewrite H0. cbn.
    destruct system0 as [[| b | z | s | blocks extra | props] |];
      try discriminate Htruthy; cbn; rewrite ?H0; cbn; try done.
    + destruct (set_prop body (js "system") (VArr [text_block s] [])) as [body2 |] eqn:Hset;
        cbn; [| done].
      rewrite (get_set_prop_eq _ _ _ _ Hset). cbn.
      cbn in Htruthy. unfold nonempty. rewrite Htruthy.
      apply (Hfinish body2 _ _ (get_set_prop_eq _ _ _ _ Hset)).
    + apply (Hfinish body _ _ H0).
  - destruct (set_prop body (js "system") (VArr [] [])) as [body1 |] eqn:Hset; cbn; [| done].
    rewrite (get_set_prop_eq _ _ _ _ Hset). cbn.
    rewrite (get_set_prop_eq _ _ _ _ Hset).
    intros H. destruct (Hfinish body1 _ _ (get_set_prop_eq _ _ _ _ Hset) H)
      as (blocks1 & extra1 & ? & ? & Hcase).
    exists blocks1, extra1. split; [done |]. split; [done |].
    assert (Hnorm : match system0 with
                    | Some (VStr s) => if nonempty s then [text_block s] else []
                    | Some (VArr blocks _) => blocks
                    | _ => []
                    end = []).
    { destruct system0 as [[| | | s | |] |]; try done.
      cbn in Htruthy. unfold nonempty. by rewrite Htruthy. }
    by rewrite Hnorm.
Qed.

Lemma preamble_count_cons (block : value) (blocks : list value) :
  preamble_count (block :: blocks)
  = ((if is_preamble_block block then 1 else 0) + preamble_count blocks)%nat.
Proof. unfold preamble_count. simpl. by destruct (is_preamble_block block). Qed.

(** A block that does not begin with the identity phrase is not the
    preamble. *)
Lemma no_identity_no_preamble (blocks : list value) :
  array_some block_has_identity blocks = Ok false -> preamble_count blocks = 0.
Proof.
  unfold preamble_count.
  induction blocks as [| block blocks IH]; simpl; [done |].
  destruct (block_has_identity block) as [[] | e] eqn:Hblock; try done.
  intros Hrest.
  assert (is_preamble_block block = false) as ->; [| by apply IH].
  unfold block_has_identity, is_preamble_block in *.
  destruct (get_prop (Some block) (js "text")) as [[[| | | s | |] |] | e];
    cbn in Hblock |- *; try done.
  injection Hblock as Hblock. apply str_eqb_false. intros ->.
  vm_compute in Hblock. discriminate Hblock.
Qed.

Lemma block_has_identity_true (block : value) :
  block_has_identity block = Ok true <-> begins_with_identity block.
Proof.
  unfold block_has_identity, begins_with_identity.
  destruct (get_prop (Some block) (js "text")) as [[[| | | s | |] |] | e];
    cbn [mbind outcome_bind obind];
    try (split; [discriminate | by intros [rest Hrest]]).
  split.
  - intros H.
    assert (Hs : starts_with IDENTITY_PHRASE s = true) by congruence.
    apply starts_with_spec in Hs as [rest ->]. by exists rest.
  - intros [rest [= ->]]. reflexivity.
Qed.

Lemma array_some_true (blocks : list value) :
  array_some block_has_identity blocks = Ok true ->
  Exists begins_with_identity blocks.
Proof.
  induction blocks as [| block blocks IH]; cbn [array_some]; [done |].
  destruct (block_has_identity block) as [[] | e] eqn:Hblock; [| | done].
  - intros _. left. by apply block_has_identity_true.
  - intros Hrest. right. by apply IH.
Qed.

Lemma array_some_false (blocks : list value) :
  array_some block_has_identity blocks = Ok false ->
  ~ Exists begins_with_identity blocks.
Proof.
  induction blocks as [| block blocks IH]; cbn [array_some].
  - intros _ H. by apply Exists_nil in H.
  - destruct (block_has_identity block) as [[] | e] eqn:Hblock; [done | | done].
    intros Hrest H. apply Exists_cons in H as [H | H].
    + apply block_has_identity_true in H. congruence.
    + by apply IH.
Qed.

Lemma array_some_total (blocks : list value) :
  Forall (object_with (js "text")) blocks ->
  exists b, array_some block_has_identity blocks = Ok b.
Proof.
  induction 1 as [| block blocks Hblock _ [b IH]]; cbn [array_some]; [by eexists |].
  destruct block as [| | | | | props]; try done.
  unfold block_has_identity. cbn in Hblock |- *.
  destruct (assoc_get (js "text") props) as [[] |]; try done; cbn.
  - destruct (starts_with _ _); eauto.
  - eauto.
Qed.

Lemma block_has_identity_text_block (s : jsstring) :
  block_has_identity (text_block s) = Ok (starts_with IDENTITY_PHRASE s).
Proof. reflexivity. Qed.

Lemma injectSystemPrompt_total (body : value) :
  well_formed_body body -> exists b1, injectSystemPrompt body = Ok b1.
Proof.
  destruct body as [| | | | | props]; try done.
  intros [Hsystem _]. unfold injectSystemPrompt. cbn.
  destruct (assoc_get (js "system") props) as [[| | | s | blocks extra |] |] eqn:Hget;
    try done; cbn.
  - destruct (str_eqb s []) eqn:Hempty; cbn;
      repeat (rewrite ?Hget, ?assoc_get_set_eq; cbn); [eauto |].
    rewrite block_has_identity_text_block.
    destruct (starts_with IDENTITY_PHRASE s); cbn; eauto.
  - repeat (rewrite ?Hget; cbn).
    destruct (array_some_total blocks Hsystem) as [[] ->]; cbn; eauto.
  - repeat (rewrite ?assoc_get_set_eq; cbn). eauto.
Qed.

(** C5, as the code has it: injection succeeds on every well-formed body,
    and applying it to its own result returns that result unchanged: the
    second application prepends nothing, because the result holds a block that
    begins with the identity phrase.  When one of the blocks that the
    injection started from begins with the identity phrase, the blocks of
    the result are those blocks, unchanged; when none does, they are the
    preamble followed by those blocks, and exactly one block of the result
    has the preamble as its text. *)
Theorem identity_injection_idempotent (body : value) :
  (well_formed_body body -> exists b1, injectSystemPrompt body = Ok b1) /\
  (forall b1,
     injectSystemPrompt body = Ok b1 ->
     injectSystemPrompt b1 = Ok b1 /\
     exists blocks,
       system_blocks b1 = Some blocks /\
       array_some block_has_identity blocks = Ok true /\
       Exists begins_with_identity blocks /\
       (Exists begins_with_identity (normalized_blocks body) /\
        blocks = normalized_blocks body \/
        ~ Exists begins_with_identity (normalized_blocks body) /\
        blocks = text_block CLAUDE_CODE_SYSTEM_PROMPT :: normalized_blocks body /\
        preamble_count blocks = 1)).
Proof.
  split; [apply injectSystemPrompt_total |].
  intros b1 Hinject.
  destruct (injectSystemPrompt_result body b1 Hinject)
    as (blocks & extra & Hsys & Hsome & Hcase).
  split; [by apply (injectSystemPrompt_fixed b1 blocks extra) |].
  exists blocks. unfold system_blocks. rewrite Hsys.
  split; [done |]. split; [done |]. split; [by apply array_some_true |].
  destruct Hcase as [[-> Hfound] | [-> Hnone]]; [left | right].
  - split; [by apply array_some_true | done].
  - split; [by apply array_some_false |]. split; [done |].
    rewrite preamble_count_cons, (no_identity_no_preamble _ Hnone).
    assert (is_preamble_block (text_block CLAUDE_CODE_SYSTEM_PROMPT) = true) as ->
      by (vm_compute; reflexivity).
    reflexivity.
Qed.

Lemma identity_injection_idempotent_witness :
  exists b1, injectSystemPrompt sample_body = Ok b1 /\ injectSystemPrompt b1 = Ok b1.
Proof.
  destruct (identity_injection_idempotent sample_body) as [Htotal Hagain].
  destruct Htotal as [b1 Hb1].
  { vm_compute. repeat constructor. }
  exists b1. split; [exact Hb1 |]. exact (proj1 (Hagain b1 Hb1)).
Defined.

(** C5 as stated fails: a body whose [system] already holds the preamble
    twice keeps both blocks, so after two applications the blocks whose
    text is the preamble are two, not one. *)
Lemma doubled_identity_stays_doubled :
  ~ (forall body b1 b2 : value,
       injectSystemPrompt body = Ok b1 ->
       injectSystemPrompt b1 = Ok b2 ->
       exists blocks, system_blocks b2 = Some blocks /\ preamble_count blocks = 1).
Proof.
  intros H.
  destruct (H doubled_identity_body doubled_identity_body doubled_identity_body)
    as (blocks & Hblocks & Hcount); [vm_compute; reflexivity | vm_compute; reflexivity |].
  vm_compute in Hblocks. injection Hblocks as <-.
  vm_compute in Hcount. discriminate Hcount.
Qed.

(** ** Mapping a callback that may throw *)

Section MapOutcome.
Context {A B : Type} (f : A -> outcome B).

Lemma map_outcome_lookup (xs : list A) (ys : list B) (i : nat) (x : A) :
  map_outcome f xs = Ok ys -> xs !! i = Some x ->
  exists y, ys !! i = Some y /\ f x = Ok y.
Proof.
  revert ys i. induction xs as [| x0 xs IH]; intros ys i; cbn; [done |].
  destruct (f x0) as [y0 |] eqn:Hx0; [| done].
  destruct (map_outcome f xs) as [ys0 |]; [| done].
  intros [= <-]. destruct i as [| i]; cbn.
  - intros [= <-]. eauto.
  - by apply IH.
Qed.

Lemma map_outcome_total (xs : list A) :
  Forall (fun x => exists y, f x = Ok y) xs -> exists ys, map_outcome f xs = Ok ys.
Proof.
  induction 1 as [| x xs [y Hy] _ [ys IH]]; cbn; [by eexists |].
  rewrite Hy, IH. by eexists.
Qed.
End MapOutcome.

(** ** Tool namespacing *)

Lemma map_array_prop_other (k k' : jsstring) f (b b' : value) :
  map_array_prop k f b = Ok b' -> k' <> k ->
  get_prop (Some b') k' = get_prop (Some b) k'.
Proof.
  unfold map_array_prop. intros H Hne.
  destruct (get_prop (Some b) k) as [[[| | | | items extra |] |] |]; cbn in H;
    try (by injection H as <-); try done.
  destruct (map_outcome f items) as [items' |]; cbn in H; [| done].
  by apply (get_set_prop_ne _ _ _ _ _ H).
Qed.

Lemma map_array_prop_array (k : jsstring) f (b b' : value) items extra :
  map_array_prop k f b = Ok b' ->
  get_prop (Some b) k = Ok (Some (VArr items extra)) ->
  exists items',
    map_outcome f items = Ok items' /\
    get_prop (Some b') k = Ok (Some (VArr items' [])).
Proof.
  unfold map_array_prop. intros H Hget. rewrite Hget in H. cbn in H.
  destruct (map_outcome f items) as [items' |]; cbn in H; [| done].
  exists items'. split; [done |]. by apply (get_set_prop_eq _ _ _ _ H).
Qed.

Lemma sanitizeBody_steps (body body' : value) :
  sanitizeBody body = Ok body' ->
  exists b1 b2,
    map_array_prop (js "system") sanitize_item body = Ok b1 /\
    map_array_prop (js "tools") prefix_tool b1 = Ok b2 /\
    map_array_prop (js "messages") prefix_message b2 = Ok body'.
Proof.
  unfold sanitizeBody. intros H.
  destruct (map_array_prop (js "system") sanitize_item body) as [b1 |] eqn:H1;
    cbn in H; [| done].
  destruct (map_array_prop (js "tools") prefix_tool b1) as [b2 |] eqn:H2;
    cbn in H; [| done].
  destruct (map_array_prop (js "messages") prefix_message b2) as [b3 |] eqn:H3;
    cbn in H; [| done].
  injection H as <-. by exists b1, b2.
Qed.

Ltac names_differ := intros Hk; vm_compute in Hk; discriminate Hk.

(** The tools of the result are the images of the tools of the body. *)
Lemma sanitizeBody_tools (body body' : value) tools extra :
  sanitizeBody body = Ok body' ->
  get_prop (Some body) (js "tools") = Ok (Some (VArr tools extra)) ->
  exists tools',
    map_outcome prefix_tool tools = Ok tools' /\
    get_prop (Some body') (js "tools") = Ok (Some (VArr tools' [])).
Proof.
  intros Hsan Hget.
  destruct (sanitizeBody_steps _ _ Hsan) as (b1 & b2 & H1 & H2 & H3).
  rewrite <- (map_array_prop_other _ (js "tools") _ _ _ H1) in Hget by names_differ.
  destruct (map_array_prop_array _ _ _ _ _ _ H2 Hget) as (tools' & Hmap & Hget2).
  exists tools'. split; [done |].
  by rewrite (map_array_prop_other _ (js "tools") _ _ _ H3) by names_differ.
Qed.

(** The messages of the result are the images of the messages of the body. *)
Lemma sanitizeBody_messages (body body' : value) messages extra :
  sanitizeBody body = Ok body' ->
  get_prop (Some body) (js "messages") = Ok (Some (VArr messages extra)) ->
  exists messages',
    map_outcome prefix_message messages = Ok messages' /\
    get_prop (Some body') (js "messages") = Ok (Some (VArr messages' [])).
Proof.
  intros Hsan Hget.
  destruct (sanitizeBody_steps _ _ Hsan) as (b1 & b2 & H1 & H2 & H3).
  rewrite <- (map_array_prop_other _ (js "messages") _ _ _ H1) in Hget by names_differ.
  rewrite <- (map_array_prop_other _ (js "messages") _ _ _ H2) in Hget by names_differ.
  apply (map_array_prop_array _ _ _ _ _ _ H3 Hget).
Qed.

Lemma truthy_nonempty (n : jsstring) : n <> [] -> truthy (Some (VStr n)) = true.
Proof. intros Hn. cbn. apply negb_true_iff. by apply str_eqb_false. Qed.

Lemma prefix_tool_named (tool : value) (n : jsstring) :
  get_prop (Some tool) (js "name") = Ok (Some (VStr n)) -> n <> [] ->
  exists tool',
    prefix_tool tool = Ok tool' /\
    get_prop (Some tool') (js "name") = Ok (Some (VStr (TOOL_PREFIX ++ n))).
Proof.
  intros Hname Hn. unfold prefix_tool. rewrite Hname. cbn [mbind outcome_bind obind].
  rewrite (truthy_nonempty n Hn). cbn.
  eexists. split; [reflexivity |]. cbn. by rewrite assoc_get_set_eq.
Qed.

(** A tool object whose name is falsy comes out as it went in. *)
Lemma prefix_tool_falsy (props : list (jsstring * value)) :
  truthy (assoc_get (js "name") props) = false ->
  prefix_tool (VObj props) = Ok (VObj props).
Proof.
  intros Hfalsy. unfold prefix_tool. cbn. rewrite Hfalsy.
  by rewrite assoc_put_id.
Qed.

Lemma prefix_block_named (block : value) (n : jsstring) :
  get_prop (Some block) (js "type") = Ok (Some (VStr (js "tool_use"))) ->
  get_prop (Some block) (js "name") = Ok (Some (VStr n)) -> n <> [] ->
  exists block',
    prefix_block block = Ok block' /\
    get_prop (Some block') (js "name") = Ok (Some (VStr (TOOL_PREFIX ++ n))).
Proof.
  intros Htype Hname Hn. unfold prefix_block.
  rewrite Htype, Hname. cbn [mbind outcome_bind obind].
  rewrite (truthy_nonempty n Hn). unfold is_string. rewrite str_eqb_refl. cbn.
  eexists. split; [reflexivity |]. cbn. by rewrite assoc_get_set_eq.
Qed.

Lemma prefix_message_content (msg msg' : value) blocks extra :
  prefix_message msg = Ok msg' ->
  get_prop (Some msg) (js "content") = Ok (Some (VArr blocks extra)) ->
  exists blocks',
    map_outcome prefix_block blocks = Ok blocks' /\
    get_prop (Some msg') (js "content") = Ok (Some (VArr blocks' [])).
Proof.
  unfold prefix_message. intros H Hget. rewrite Hget in H. cbn in H.
  destruct (map_outcome prefix_block blocks) as [blocks' |]; cbn in H; [| done].
  exists blocks'. split; [done |]. by apply (get_set_prop_eq _ _ _ _ H).
Qed.

(** *** The transformer succeeds on well-formed bodies *)

Lemma map_array_prop_total (k : jsstring) f (P : value -> Prop)
    (props : list (jsstring * value)) :
  (forall x, P x -> exists y, f x = Ok y) ->
  array_of P (assoc_get k props) ->
  exists props',
    map_array_prop k f (VObj props) = Ok (VObj props') /\
    forall k', k' <> k -> assoc_get k' props' = assoc_get k' props.
Proof.
  intros Hf Harr. unfold map_array_prop. cbn.
  destruct (assoc_get k props) as [[| | | | items extra |] |]; cbn; eauto.
  destruct (map_outcome_total f items) as [items' ->]; cbn.
  - cbn in Harr. eapply Forall_impl; [exact Harr | exact Hf].
  - eexists. split; [reflexivity |]. intros k' Hk'. by apply assoc_get_set_ne.
Qed.

Lemma sanitize_item_total (item : value) :
  object_with (js "text") item -> exists y, sanitize_item item = Ok y.
Proof.
  destruct item as [| | | | | props]; try done. unfold sanitize_item. cbn.
  destruct (assoc_get (js "text") props) as [[] |]; try done; cbn; intros _.
  - destruct (_ && _); eauto.
  - rewrite andb_false_r. eauto.
Qed.

Lemma prefix_tool_total (tool : value) :
  object_with (js "name") tool -> exists y, prefix_tool tool = Ok y.
Proof.
  destruct tool as [| | | | | props]; try done. unfold prefix_tool. cbn.
  destruct (assoc_get (js "name") props) as [[] |]; try done; cbn; intros _; [| eauto].
  destruct (negb _); cbn; eauto.
Qed.

Lemma prefix_block_total (block : value) :
  object_with (js "name") block -> exists y, prefix_block block = Ok y.
Proof.
  destruct block as [| | | | | props]; try done. unfold prefix_block. cbn.
  destruct (assoc_get (js "name") props) as [[] |]; try done; cbn; intros _.
  - destruct (_ && _); cbn; eauto.
  - rewrite andb_false_r. eauto.
Qed.

Lemma prefix_message_total (msg : value) :
  message_ok msg -> exists y, prefix_message msg = Ok y.
Proof.
  destruct msg as [| | | | | props]; try done. unfold prefix_message. cbn.
  destruct (assoc_get (js "content") props) as [[| | | | blocks extra |] |]; cbn; eauto.
  intros Hblocks.
  destruct (map_outcome_total prefix_block blocks) as [blocks' ->]; cbn; [| eauto].
  eapply Forall_impl; [exact Hblocks | exact prefix_block_total].
Qed.

Lemma sanitizeBody_total (body : value) :
  well_formed_body body -> exists body', sanitizeBody body = Ok body'.
Proof.
  destruct body as [| | | | | props]; try done.
  intros (Hsystem & Htools & Hmessages). unfold sanitizeBody.
  destruct (map_array_prop_total (js "system") sanitize_item (object_with (js "text")) props
              sanitize_item_total) as (props1 & -> & Hsame1).
  { destruct (assoc_get (js "system") props) as [[] |]; done. }
  cbn [mbind outcome_bind obind].
  rewrite <- (Hsame1 (js "tools")) in Htools by names_differ.
  rewrite <- (Hsame1 (js "messages")) in Hmessages by names_differ.
  destruct (map_array_prop_total (js "tools") prefix_tool _ props1
              prefix_tool_total Htools) as (props2 & -> & Hsame2).
  cbn [mbind outcome_bind obind].
  rewrite <- (Hsame2 (js "messages")) in Hmessages by names_differ.
  destruct (map_array_prop_total (js "messages") prefix_message _ props2
              prefix_message_total Hmessages) as (props3 & -> & _).
  cbn. eauto.
Qed.

(** C10: a tool definition (an object) of [tools] whose [name] is missing
    or the empty string comes out of the transformer exactly as it went in;
    a definition that comes out changed had a truthy name. *)
Theorem falsy_tool_name_passes_through (body body' : value)
    (tools : list value) (extra props : list (jsstring * value)) (i : nat) :
  sanitizeBody body = Ok body' ->
  get_prop (Some body) (js "tools") = Ok (Some (VArr tools extra)) ->
  tools !! i = Some (VObj props) ->
  exists tools' tool',
    get_prop (Some body') (js "tools") = Ok (Some (VArr tools' [])) /\
    tools' !! i = Some tool' /\
    (assoc_get (js "name") props = None \/
     assoc_get (js "name") props = Some (VStr []) -> tool' = VObj props) /\
    (tool' <> VObj props -> truthy (assoc_get (js "name") props) = true).
Proof.
  intros Hsan Hget Hi.
  destruct (sanitizeBody_tools _ _ _ _ Hsan Hget) as (tools' & Hmap & Hget').
  destruct (map_outcome_lookup _ _ _ _ _ Hmap Hi) as (tool' & Hi' & Htool).
  exists tools', tool'. split; [done |]. split; [done |].
  assert (Hfalsy : truthy (assoc_get (js "name") props) = false -> tool' = VObj props).
  { intros Hf. rewrite (prefix_tool_falsy props Hf) in Htool. by injection Htool. }
  split.
  - intros [Hname | Hname]; apply Hfalsy; by rewrite Hname.
  - intros Hchanged. destruct (truthy _); [done |]. by destruct Hchanged; apply Hfalsy.
Qed.

Lemma falsy_tool_name_passes_through_witness :
  exists tools' tool',
    get_prop (Some (VObj [(js "tools", VArr [VObj [(js "name", VStr [])]] [])]))
      (js "tools") = Ok (Some (VArr tools' [])) /\
    tools' !! 0%nat = Some tool' /\
    tool' = VObj [(js "name", VStr [])].
Proof.
  destruct (falsy_tool_name_passes_through
              (VObj [(js "tools", VArr [VObj [(js "name", VStr [])]] [])])
              (VObj [(js "tools", VArr [VObj [(js "name", VStr [])]] [])])
              [VObj [(js "name", VStr [])]] [] [(js "name", VStr [])] 0)
    as (tools' & tool' & Hget & Hi & Hsame & _);
    [vm_compute; reflexivity | vm_compute; reflexivity | reflexivity |].
  exists tools', tool'. split; [exact Hget |]. split; [exact Hi |].
  apply Hsame. right. vm_compute. reflexivity.
Defined.

(** ** Global replacement *)

Section Replace.
Variable m : jsstring -> option (jsstring * jsstring).

(** Where no match starts, the text is left as it is. *)
Lemma replace_from_no_match (fuel : nat) (s : jsstring) :
  (forall t, t `suffix_of` s -> m t = None) -> replace_from m fuel s = s.
Proof.
  revert s. induction fuel as [| fuel IH]; intros s Hnone; cbn; [done |].
  destruct s as [| c s]; [done |].
  rewrite (Hnone (c :: s)) by done. f_equal. apply IH.
  intros t Ht. apply Hnone. by apply suffix_cons_r.
Qed.

(** A match at the head is replaced and the scan goes on after it. *)
Lemma replace_all_match (s out rest : jsstring) :
  s <> [] -> m s = Some (out, rest) ->
  replace_all m s = out ++ replace_from m (length s - 1) rest.
Proof.
  intros Hs Hm. unfold replace_all. destruct s as [| c s]; [done |].
  cbn. by rewrite Hm, Nat.sub_0_r.
Qed.
End Replace.

(** ** The text of a JSON string *)

Lemma hex_digit_not_quote (d : N) : (hex_digit d =? dq)%N = false.
Proof.
  unfold hex_digit, dq. destruct (d <? 10)%N; apply N.eqb_neq; lia.
Qed.

Lemma quotes_escaped_app (prev : N) (a b : jsstring) :
  quotes_escaped prev (a ++ b)
  = quotes_escaped prev a && quotes_escaped (fold_left (fun _ c => c) a prev) b.
Proof.
  revert prev. induction a as [| c a IH]; intros prev; [done |].
  cbn [app quotes_escaped fold_left]. by rewrite IH, andb_assoc.
Qed.

(** What [quote_unit] writes for one code unit has no bare quote, whatever
    comes before. *)
Lemma quote_unit_escaped (prev : N) (h : bool) (c : N) (next : option N) :
  quotes_escaped prev (quote_unit h c next) = true /\ quote_unit h c next <> [].
Proof.
  assert (Hhex : forall p, quotes_escaped p ([backslash; 117%N] ++ hex4 c) = true).
  { intros p. cbn. by rewrite !hex_digit_not_quote. }
  assert (Hplain : (c =? dq)%N = false -> quotes_escaped prev [c] = true).
  { intros Hc. cbn. by rewrite Hc. }
  unfold quote_unit.
  repeat match goal with
         | |- context [if ?b then _ else _] =>
             lazymatch b with
             | context [if _ then _ else _] => fail
             | _ => destruct b eqn:?
             end
         | |- context [match ?o with Some _ => _ | None => _ end] => destruct o
         end;
    try (split; [by apply Hhex | done]);
    try (split; [by apply Hplain | done]);
    split; try done; cbn; by rewrite ?orb_true_r.
Qed.

Lemma quote_units_escaped (prev : N) (h : bool) (s : jsstring) :
  quotes_escaped prev (quote_units h s) = true.
Proof.
  revert prev h. induction s as [| c s IH]; intros prev h; [done |].
  cbn [quote_units]. rewrite quotes_escaped_app, IH.
  by rewrite (proj1 (quote_unit_escaped prev h c (head s))).
Qed.

Lemma quote_units_nonempty (h : bool) (s : jsstring) :
  s <> [] -> quote_units h s <> [].
Proof.
  destruct s as [| c s]; [done |]. intros _. cbn [quote_units].
  pose proof (proj2 (quote_unit_escaped 0 h c (head s))).
  by destruct (quote_unit h c (head s)).
Qed.

(** ** The regular expression of the response transform *)

Lemma eat_eqb (lit s rest : jsstring) :
  eat N.eqb lit s = Some rest <-> s = lit ++ rest.
Proof.
  revert s. induction lit as [| a lit IH]; intros s; cbn.
  - split; [by intros [= ->] | by intros ->].
  - destruct s as [| b s]; [done |].
    destruct (N.eqb_spec a b) as [<- | Hne].
    + rewrite IH. split; [by intros -> | by intros [= ->]].
    + split; [done | by intros [= ? _]].
Qed.

(** A match begins with the quoted word [name] and does not end there. *)
Lemma name_field_match_shape (t : jsstring) (x : jsstring * jsstring) :
  name_field_match t = Some x ->
  exists u, t = (dq :: js "name") ++ dq :: u /\ u <> [].
Proof.
  unfold name_field_match.
  destruct (eat N.eqb (dq :: js "name" ++ [dq]) t) as [u |] eqn:Heat; [| done].
  apply eat_eqb in Heat. cbn [mbind option_bind].
  intros H. exists u. split.
  - rewrite Heat. cbn [app]. by rewrite <- app_assoc.
  - intros ->. done.
Qed.

(** Where every quote is escaped, and up to a closing quote, no match of the
    expression begins. *)
Lemma no_match_in_escaped (prev : N) (r t : jsstring) :
  quotes_escaped prev r = true ->
  t `suffix_of` r ++ [dq] ->
  name_field_match t = None.
Proof.
  intros Hesc [pre Hpre].
  destruct (name_field_match t) as [x |] eqn:Hm; [exfalso | done].
  destruct (name_field_match_shape t x Hm) as (u & -> & Hu).
  destruct (exists_last Hu) as (u' & z & ->).
  assert (r = pre ++ (dq :: js "name") ++ dq :: u') as ->.
  { apply (app_inj_tail _ _ dq z).
    rewrite Hpre. by rewrite <- !app_assoc. }
  rewrite app_assoc, quotes_escaped_app in Hesc.
  apply andb_prop in Hesc as [_ Hesc].
  rewrite fold_left_app in Hesc. vm_compute in Hesc. discriminate Hesc.
Qed.

Lemma eat_app (lit rest : jsstring) : eat N.eqb lit (lit ++ rest) = Some rest.
Proof. by apply eat_eqb. Qed.

Lemma take_drop_while_snoc (p : N -> bool) (s : jsstring) (d : N) :
  p d = false ->
  take_while p (s ++ [d]) = take_while p s /\
  drop_while p (s ++ [d]) = drop_while p s ++ [d].
Proof.
  intros Hd. induction s as [| c s [IHt IHd]]; cbn.
  - by rewrite Hd.
  - destruct (p c); [by rewrite IHt, IHd | done].
Qed.

(** The expression applied to a [name] field whose value is the prefix
    followed by a non-empty name: the match covers the field up to the
    first quote after the prefix. *)
Lemma name_field_match_prefixed (q : jsstring) :
  q <> [] -> quotes_escaped dq q = true ->
  exists capture rest,
    name_field_match
      (json_quote (js "name") ++ [colon; space] ++ (dq :: js "mcp_") ++ q ++ [dq])
    = Some (json_quote (js "name") ++ [colon; space] ++ dq :: capture ++ [dq], rest) /\
    capture ++ dq :: rest = q ++ [dq] /\
    forall t, t `suffix_of` rest -> name_field_match t = None.
Proof.
  intros Hq Hesc.
  set (not_quote := fun c : N => negb (c =? dq)%N).
  destruct (take_drop_while_snoc not_quote q dq) as [Htake Hdrop]; [done |].
  pose proof (take_drop_while not_quote q) as Hsplit.
  pose proof (drop_while_head not_quote q) as Hhead.
  assert (Hcapture : take_while not_quote q <> []).
  { destruct q as [| c q]; [done |]. cbn in Hesc |- *.
    rewrite orb_false_r in Hesc. apply andb_prop in Hesc as [Hc _].
    unfold not_quote. by rewrite Hc. }
  assert (Hmatch : forall rest,
    eat N.eqb [dq] (drop_while not_quote q ++ [dq]) = Some rest ->
    name_field_match
      (json_quote (js "name") ++ [colon; space] ++ (dq :: js "mcp_") ++ q ++ [dq])
    = Some (json_quote (js "name") ++ [colon; space]
            ++ dq :: take_while not_quote q ++ [dq], rest)).
  { intros rest Hrest.
    unfold name_field_match, json_quote.
    change (dq :: quote_units false (js "name") ++ [dq])
      with (dq :: js "name" ++ [dq]).
    rewrite eat_app. cbn [mbind option_bind].
    change (drop_while is_js_space ([colon; space] ++ (dq :: js "mcp_") ++ q ++ [dq]))
      with ([colon] ++ space :: (dq :: js "mcp_") ++ q ++ [dq]).
    rewrite eat_app. cbn [mbind option_bind].
    change (drop_while is_js_space (space :: (dq :: js "mcp_") ++ q ++ [dq]))
      with ((dq :: js "mcp_") ++ q ++ [dq]).
    rewrite eat_app. cbn [mbind option_bind].
    fold not_quote. rewrite Htake, Hdrop, Hrest.
    destruct (take_while not_quote q) as [| c capture]; [done |].
    cbn. by rewrite <- app_assoc. }
  remember (take_while not_quote q) as capture eqn:Hc.
  destruct (drop_while not_quote q) as [| d r'] eqn:Hr.
  - exists capture, []. split; [by apply Hmatch |]. split.
    + by rewrite Hsplit, app_nil_r.
    + intros t Ht. by apply suffix_nil_inv in Ht as ->.
  - unfold not_quote in Hhead. apply negb_false_iff, N.eqb_eq in Hhead. subst d.
    exists capture, (r' ++ [dq]). split; [by apply Hmatch |].
    split.
    + by rewrite Hsplit, <- app_assoc.
    + intros t Ht.
      rewrite Hsplit, quotes_escaped_app in Hesc.
      apply andb_prop in Hesc as [_ Hesc]. cbn in Hesc.
      apply andb_prop in Hesc as [_ Hesc].
      by apply (no_match_in_escaped dq r').
Qed.

Lemma json_quote_app_not_nil (a b : jsstring) : json_quote a ++ b <> [].
Proof. done. Qed.

(** The response transform undoes the prefix on the JSON text of a [name]
    field, for every non-empty name. *)
Lemma strip_name_field (n : jsstring) :
  n <> [] -> strip_tool_prefix (name_field (TOOL_PREFIX ++ n)) = name_field n.
Proof.
  intros Hn.
  destruct (name_field_match_prefixed (quote_units false n))
    as (capture & rest & Hmatch & Hsplit & Hnone).
  { by apply quote_units_nonempty. }
  { apply quote_units_escaped. }
  unfold strip_tool_prefix, name_field.
  assert (Hprefixed : json_quote (TOOL_PREFIX ++ n)
                      = (dq :: js "mcp_") ++ quote_units false n ++ [dq])
    by reflexivity.
  rewrite Hprefixed.
  rewrite (replace_all_match name_field_match _ _ _ (json_quote_app_not_nil _ _) Hmatch).
  rewrite (replace_from_no_match _ _ _ Hnone).
  change (json_quote n) with (dq :: quote_units false n ++ [dq]).
  rewrite <- Hsplit, <- !app_assoc. cbn [app]. by rewrite <- !app_assoc.
Qed.

(** ** UTF-8 *)

Ltac Zify.zify_post_hook ::= Z.to_euclidean_division_equations.

(** Decide the comparisons of a goal by arithmetic. *)
Ltac decide_tests :=
  repeat match goal with
         | |- context [(?a <=? ?b)%N] =>
             destruct (N.leb_spec a b); try lia; cbn [andb orb negb]
         | |- context [(?a <? ?b)%N] =>
             destruct (N.ltb_spec a b); try lia; cbn [andb orb negb]
         | |- context [(?a =? ?b)%N] =>
             destruct (N.eqb_spec a b); try lia; cbn [andb orb negb]
         end.

Lemma decode_bytes_app (d : utf8_decoder) (a b : list N) :
  decode_bytes d (a ++ b) =
    let '(d1, out1) := decode_bytes d a in
    let '(d2, out2) := decode_bytes d1 b in
    (d2, out1 ++ out2).
Proof.
  revert d. induction a as [| x a IH]; intros d; cbn [app decode_bytes].
  - by destruct (decode_bytes d b).
  - destruct (decode_byte d x) as [d1 out]. rewrite IH.
    destruct (decode_bytes d1 a) as [d2 out2].
    destruct (decode_bytes d2 b) as [d3 out3]. by rewrite app_assoc.
Qed.

(** The lead bytes of the encodings of two, three and four bytes. *)
Lemma lead_byte_2 (cp : N) :
  (128 <= cp < 2048)%N ->
  lead_byte (192 + cp / 64)
  = ({| code_point := cp / 64; bytes_seen := 0; bytes_needed := 1;
        lower_boundary := 128; upper_boundary := 191 |}, []).
Proof.
  intros Hcp. unfold lead_byte. decide_tests. do 2 f_equal. lia.
Qed.

Lemma lead_byte_3 (cp : N) :
  (2048 <= cp < 65536)%N ->
  lead_byte (224 + cp / 4096)
  = ({| code_point := cp / 4096; bytes_seen := 0; bytes_needed := 2;
        lower_boundary := if (cp <? 4096)%N then 160 else 128;
        upper_boundary := if (53248 <=? cp)%N && (cp <? 57344)%N then 159 else 191 |},
     []).
Proof.
  intros Hcp. unfold lead_byte. decide_tests; do 2 f_equal; lia.
Qed.

Lemma lead_byte_4 (cp : N) :
  (65536 <= cp <= 1114111)%N ->
  lead_byte (240 + cp / 262144)
  = ({| code_point := cp / 262144; bytes_seen := 0; bytes_needed := 3;
        lower_boundary := if (cp <? 262144)%N then 144 else 128;
        upper_boundary := if (1048576 <=? cp)%N then 143 else 191 |}, []).
Proof.
  intros Hcp. unfold lead_byte. decide_tests; do 2 f_equal; lia.
Qed.

(** A byte inside the boundaries of a pending sequence continues it. *)
Lemma continuation_byte (d : utf8_decoder) (b : N) :
  bytes_needed d <> 0%N ->
  (lower_boundary d <= b <= upper_boundary d)%N ->
  decode_byte d b =
    if (bytes_seen d + 1 =? bytes_needed d)%N
    then (idle, [code_point d * 64 + (b - 128)])%N
    else ({| code_point := code_point d * 64 + (b - 128);
             bytes_seen := bytes_seen d + 1; bytes_needed := bytes_needed d;
             lower_boundary := 128; upper_boundary := 191 |}, []).
Proof.
  intros Hneeded Hb. unfold decode_byte.
  destruct (N.eqb_spec (bytes_needed d) 0); [done |].
  destruct (N.leb_spec (lower_boundary d) b); [| lia].
  destruct (N.leb_spec b (upper_boundary d)); [| lia].
  reflexivity.
Qed.

Lemma decode_byte_idle (b : N) : decode_byte idle b = lead_byte b.
Proof. reflexivity. Qed.

(** The decoder walks through the encoding of a scalar value: nothing is
    emitted before the last byte, which emits the value and leaves the
    decoder idle. *)
Lemma decode_chain_2 (cp : N) :
  (128 <= cp < 2048)%N ->
  exists s1,
    decode_byte idle (192 + cp / 64) = (s1, []) /\
    decode_byte s1 (128 + cp mod 64) = (idle, [cp]).
Proof.
  intros Hcp. eexists. rewrite decode_byte_idle, lead_byte_2 by done.
  split; [reflexivity |].
  rewrite continuation_byte by (cbn; lia). cbn. do 2 f_equal. lia.
Qed.

Lemma decode_chain_3 (cp : N) :
  is_scalar cp -> (2048 <= cp < 65536)%N ->
  exists s1 s2,
    decode_byte idle (224 + cp / 4096) = (s1, []) /\
    decode_byte s1 (128 + cp / 64 mod 64) = (s2, []) /\
    decode_byte s2 (128 + cp mod 64) = (idle, [cp]).
Proof.
  intros Hscalar Hcp. unfold is_scalar in Hscalar.
  eexists _, _. rewrite decode_byte_idle, lead_byte_3 by done.
  split; [reflexivity |].
  rewrite continuation_byte by (cbn; decide_tests; lia). cbn.
  split; [reflexivity |].
  rewrite continuation_byte by (cbn; lia). cbn. do 2 f_equal. lia.
Qed.

Lemma decode_chain_4 (cp : N) :
  (65536 <= cp <= 1114111)%N ->
  exists s1 s2 s3,
    decode_byte idle (240 + cp / 262144) = (s1, []) /\
    decode_byte s1 (128 + cp / 4096 mod 64) = (s2, []) /\
    decode_byte s2 (128 + cp / 64 mod 64) = (s3, []) /\
    decode_byte s3 (128 + cp mod 64) = (idle, [cp]).
Proof.
  intros Hcp.
  eexists _, _, _. rewrite decode_byte_idle, lead_byte_4 by done.
  split; [reflexivity |].
  rewrite continuation_byte by (cbn; decide_tests; lia). cbn.
  split; [reflexivity |].
  rewrite continuation_byte by (cbn; lia). cbn.
  split; [reflexivity |].
  rewrite continuation_byte by (cbn; lia). cbn. do 2 f_equal. lia.
Qed.

(** However the encoding of a scalar value beyond ASCII is cut in two, the
    first part leaves the decoder waiting without output and the second part
    completes exactly that value. *)
Lemma decode_split_scalar (cp : N) (b1 b2 : list N) :
  is_scalar cp -> (128 <= cp)%N ->
  encode_scalar cp = b1 ++ b2 -> b2 <> [] ->
  exists mid,
    decode_bytes idle b1 = (mid, []) /\
    decode_bytes mid b2 = (idle, [cp]).
Proof.
  intros Hscalar Hcp Hsplit Hb2. unfold encode_scalar in Hsplit.
  destruct (N.ltb_spec cp 128) as [? | _]; [lia |].
  destruct (N.ltb_spec cp 2048) as [Hlt2 | Hge2];
    [| destruct (N.ltb_spec cp 65536) as [Hlt3 | Hge3]].
  - destruct (decode_chain_2 cp) as (s1 & H1 & H2); [lia |].
    destruct b1 as [| x1 [| x2 [| x3 b1]]]; cbn in Hsplit.
    + subst b2. exists idle. cbn [decode_bytes]. by rewrite H1, H2.
    + injection Hsplit as <- <-. exists s1. cbn [decode_bytes]. by rewrite H1, H2.
    + injection Hsplit as _ _ <-. done.
    + discriminate Hsplit.
  - destruct (decode_chain_3 cp) as (s1 & s2 & H1 & H2 & H3); [done | lia |].
    destruct b1 as [| x1 [| x2 [| x3 [| x4 b1]]]]; cbn in Hsplit.
    + subst b2. exists idle. cbn [decode_bytes]. by rewrite H1, H2, H3.
    + injection Hsplit as <- <-. exists s1. cbn [decode_bytes]. by rewrite H1, H2, H3.
    + injection Hsplit as <- <- <-. exists s2. cbn [decode_bytes]. by rewrite H1, H2, H3.
    + injection Hsplit as _ _ _ <-. done.
    + discriminate Hsplit.
  - assert (Hmax : (cp <= 1114111)%N) by (unfold is_scalar in Hscalar; lia).
    destruct (decode_chain_4 cp) as (s1 & s2 & s3 & H1 & H2 & H3 & H4); [lia |].
    destruct b1 as [| x1 [| x2 [| x3 [| x4 [| x5 b1]]]]]; cbn in Hsplit.
    + subst b2. exists idle. cbn [decode_bytes]. by rewrite H1, H2, H3, H4.
    + injection Hsplit as <- <-. exists s1. cbn [decode_bytes]. by rewrite H1, H2, H3, H4.
    + injection Hsplit as <- <- <-. exists s2. cbn [decode_bytes].
      by rewrite H1, H2, H3, H4.
    + injection Hsplit as <- <- <- <-. exists s3. cbn [decode_bytes].
      by rewrite H1, H2, H3, H4.
    + injection Hsplit as _ _ _ _ <-. done.
    + discriminate Hsplit.
Qed.

(** The encoder reads the UTF-16 form of a scalar value back as that value. *)
Lemma scalar_values_units (cp : N) (t : jsstring) :
  is_scalar cp -> scalar_values (utf16_units cp ++ t) = cp :: scalar_values t.
Proof.
  unfold is_scalar, utf16_units. intros Hcp.
  destruct (N.ltb_spec cp 65536) as [Hbmp | Hastral]; cbn [app scalar_values].
  - unfold is_high_surrogate, is_low_surrogate. decide_tests; reflexivity.
  - unfold is_high_surrogate, is_low_surrogate. decide_tests. f_equal. lia.
Qed.

Lemma encode_units (cp : N) (t : jsstring) :
  is_scalar cp ->
  TextEncoder_encode (utf16_units cp ++ t) = encode_scalar cp ++ TextEncoder_encode t.
Proof.
  intros Hcp. unfold TextEncoder_encode. by rewrite scalar_values_units.
Qed.

(** ** The streaming transformer *)








(** With enough pulls, the consumer obtains one chunk per chunk of the
    upstream body: the decoded text of that chunk, substituted and encoded. *)
Lemma pull_all_decoded (fuel : nat) (d : TextDecoder) (chunks : list (list N)) :
  length chunks < fuel ->
  pull_all fuel {| reader := chunks; decoder := d |}
  = map (fun text => TextEncoder_encode (strip_tool_prefix text)) (decoded_texts d chunks).
Proof.
  revert fuel d. induction chunks as [| chunk chunks IH]; intros fuel d Hfuel;
    (destruct fuel as [| fuel]; [cbn in Hfuel; lia |]);
    cbn [pull_all pull reader decoder decoded_texts]; [done |].
  destruct (decode_stream d chunk) as [d1 t1]. cbn [map]. f_equal.
  apply IH. cbn in Hfuel. lia.
Qed.
















(** The two bytes of U+00E9 cut after bytes that stop inside another
    character: that one is replaced, cut or not, and U+00E9 comes out
    whole. *)
Example split_after_broken_sequence :
  transformStreamingResponse [[226; 130; 195]; [169; 33]]%N
  = [[239; 191; 189]; [195; 169; 33]]%N /\
  transformStreamingResponse [[226; 130; 195; 169; 33]]%N
  = [[239; 191; 189; 195; 169; 33]]%N.
Proof. split; vm_compute; reflexivity. Qed.

(** The byte-order mark at the start of the stream is left out, in one
    chunk or cut in two. *)
Example byte_order_mark_left_out :
  transformStreamingResponse [[239; 187; 191; 33]]%N = [[33]]%N /\
  transformStreamingResponse [[239]; [187; 191; 33]]%N = [[]; [33]]%N /\
  transformStreamingResponse [[33; 239]; [187; 191]]%N = [[33]; [239; 187; 191]]%N.
Proof. repeat split; vm_compute; reflexivity. Qed.

(** ** Scenarios *)

(** Injection touches [system] only: what the transformer does to [tools]
    and [messages] in [handleMessages] is what [sanitizeBody] does to those
    of the incoming body. *)
Lemma injectSystemPrompt_other (body b1 : value) (k : jsstring) :
  injectSystemPrompt body = Ok b1 -> k <> js "system" ->
  get_prop (Some b1) k = get_prop (Some body) k.
Proof.
  unfold injectSystemPrompt. intros H Hk.
  destruct (get_prop (Some body) (js "system")) as [system0 |]; cbn in H; [| done].
  assert (Hstep : exists body1,
            (if negb (truthy system0)
             then set_prop body (js "system") (VArr [] []) else Ok body) = Ok body1 /\
            get_prop (Some body1) k = get_prop (Some body) k).
  { destruct (negb (truthy system0)); [| by eexists].
    destruct (set_prop body (js "system") (VArr [] [])) as [body1 |] eqn:Hset; [| done].
    exists body1. split; [done |]. by apply (get_set_prop_ne _ _ _ _ _ Hset). }
  destruct Hstep as (body1 & Hbody1 & <-). rewrite Hbody1 in H. cbn in H.
  destruct (get_prop (Some body1) (js "system")) as [system1 |]; cbn in H; [| done].
  assert (Hstep : exists body2,
            match system1 with
            | Some (VStr s) => set_prop body1 (js "system") (VArr [text_block s] [])
            | _ => Ok body1
            end = Ok body2 /\
            get_prop (Some body2) k = get_prop (Some body1) k).
  { destruct system1 as [[| | | s | |] |]; try by eexists.
    destruct (set_prop body1 (js "system") (VArr [text_block s] []))
      as [body2 |] eqn:Hset; [| done].
    exists body2. split; [done |]. by apply (get_set_prop_ne _ _ _ _ _ Hset). }
  destruct Hstep as (body2 & Hbody2 & <-). rewrite Hbody2 in H. cbn in H.
  destruct (get_prop (Some body2) (js "system")) as [[[| | | | blocks extra |] |] |];
    cbn in H; try done.
  destruct (array_some block_has_identity blocks) as [[] |]; cbn in H; try done.
  - by injection H as <-.
  - by apply (get_set_prop_ne _ _ _ _ _ H).
Qed.

(** The body [{ system: hi, tools: [{ name: search }] }] of the
    specification gets the preamble in front of its text and the prefix on
    its tool. *)
Example scenario_transform :
  (b ← injectSystemPrompt sample_body; sanitizeBody b)
  = Ok (VObj [(js "system",
               VArr [text_block CLAUDE_CODE_SYSTEM_PROMPT; text_block (js "hi")] []);
              (js "tools", VArr [VObj [(js "name", VStr (js "mcp_search"))]] [])]).
Proof. vm_compute. reflexivity. Qed.

(** A buffered [tool_use] answer loses the prefix; the replacement writes a
    space after the colon. *)
Example scenario_detransform :
  strip_tool_prefix
    (stringify (VObj [(js "type", VStr (js "tool_use"));
                      (js "name", VStr (js "mcp_search"))]))
  = js "{" ++ json_quote (js "type") ++ [colon] ++ json_quote (js "tool_use")
    ++ [comma] ++ name_field (js "search") ++ js "}".
Proof. vm_compute. reflexivity. Qed.

(** The sanitization of a system text. *)
Example scenario_sanitize :
  sanitize_text (js "OpenCode, opencode and OPENCODE") =
  js "Claude Code, Claude and Claude".
Proof. vm_compute. reflexivity. Qed.

(** The message of a refused refresh carries the status and the body. *)
Example scenario_refresh_failure :
  String_of_exn (refresh_failure refused)
  = js "Error: Token refresh failed: 401 invalid_grant".
Proof. vm_compute. reflexivity. Qed.

(** A cached record with ten minutes left is reported by the health check
    without its credentials. *)
Example scenario_health :
  (handleHealth sample_env
     (caching (cached_record "cached-access" "cached-refresh" 1600000))).1
  = Ok {| status := 200; headers := json_headers;
          body := BodyText (stringify
            (VObj [(js "status", VStr (js "ok"));
                   (js "service", VStr (js "claude-max-proxy"));
                   (js "tokenStatus",
                    VStr (js "valid (expires in 10 minutes)"))])) |}.
Proof. vm_compute. reflexivity. Qed.

(** Routing: the health paths reach the health handler. *)
Lemma worker_fetch_health (request : Request) (env : Env) :
  req_method request <> js "OPTIONS" ->
  req_path request = js "/health" \/ req_path request = js "/" ->
  worker_fetch request env = handleHealth env.
Proof.
  intros Hm Hp. unfold worker_fetch.
  apply str_eqb_false in Hm. rewrite Hm.
  destruct Hp as [-> | ->]; reflexivity.
Qed.

(** * Further properties of the worker *)

(** ** The version look-up *)

Lemma getClaudeCodeVersion_run (w : World) :
  getClaudeCodeVersion w =
    (Ok (advertised_version (registry w registry_request)),
     match registry w registry_request with
     | NetworkError e =>
         record (EvLog (js "Failed to fetch Claude Code version: " ++ String_of_exn e))
           (record (EvFetch registry_request) w)
     | Reply r =>
         if status_ok (registry_status r) then
           match registry_json r with
           | None =>
               record (EvLog (js "Failed to fetch Claude Code version: "
                              ++ String_of_exn (Exn (js "SyntaxError")
                                                  (js "Unexpected token in JSON"))))
                 (record (EvFetch registry_request) w)
           | Some data =>
               match get_prop (Some data) (js "dist-tags") with
               | Throw e =>
                   record (EvLog (js "Failed to fetch Claude Code version: "
                                  ++ String_of_exn e))
                     (record (EvFetch registry_request) w)
               | Ok _ => record (EvFetch registry_request) w
               end
           end
         else record (EvFetch registry_request) w
     end).
Proof.
  unfold getClaudeCodeVersion, try_catch, bind, fetch.
  fold registry_request.
  change (registry (record (EvFetch registry_request) w)) with (registry w).
  unfold advertised_version, latest_tag.
  destruct (registry w registry_request) as [e | r]; [reflexivity |].
  destruct (status_ok (registry_status r)); [| reflexivity].
  destruct (registry_json r) as [data |]; [| reflexivity].
  unfold lift, ret, console_log.
  destruct (get_prop (Some data) (js "dist-tags")) as [[tags |] | e]; try reflexivity.
  destruct tags as [| b | z | s | elems extra | props]; try reflexivity.
  - cbn. by destruct (assoc_get (js "latest") extra) as [v |]; [destruct (truthy (Some v)) |].
  - cbn. by destruct (assoc_get (js "latest") props) as [v |]; [destruct (truthy (Some v)) |].
Qed.

Lemma advertised_version_truthy (reply : fetch_reply RegistryReply) :
  truthy (Some (advertised_version reply)) = true.
Proof.
  unfold advertised_version. destruct reply as [e | r]; [reflexivity |].
  destruct (status_ok (registry_status r)); [| reflexivity]. cbn [andb].
  destruct (latest_tag r) as [v |] eqn:Hv; [| reflexivity].
  by destruct (truthy (Some v)) eqn:Ht.
Qed.

(** X1: the version look-up never throws.  Whatever the registry does
    (network failure, an error status, a body that is not JSON, a document
    without a usable [dist-tags.latest]), the look-up returns a truthy
    value: the registry's [latest] tag when the answer is a success carrying
    a truthy one, and the built-in version otherwise.  It sends exactly one
    request, to the registry, logs at most failures, and leaves the store
    alone. *)
Theorem getClaudeCodeVersion_never_throws (w : World) :
  exists w',
    getClaudeCodeVersion w
    = (Ok (advertised_version (registry w registry_request)), w') /\
    truthy (Some (advertised_version (registry w registry_request))) = true /\
    kv w' = kv w /\
    exists logs,
      trace w' = trace w ++ EvFetch registry_request :: logs /\
      Forall is_log logs /\ length logs <= 1.
Proof.
  rewrite getClaudeCodeVersion_run. eexists. split; [reflexivity |].
  split; [apply advertised_version_truthy |].
  assert (Hquiet : exists logs,
            trace (record (EvFetch registry_request) w)
            = trace w ++ EvFetch registry_request :: logs /\
            Forall is_log logs /\ length logs <= 1).
  { exists []. cbn. split; [done |]. split; [constructor | lia]. }
  assert (Hlogged : forall msg, exists logs,
            trace (record (EvLog msg) (record (EvFetch registry_request) w))
            = trace w ++ EvFetch registry_request :: logs /\
            Forall is_log logs /\ length logs <= 1).
  { intros msg. exists [EvLog msg]. cbn. rewrite <- app_assoc.
    split; [done |]. split; [by repeat constructor | lia]. }
  destruct (registry w registry_request) as [e | r]; [split; [done | apply Hlogged] |].
  destruct (status_ok (registry_status r)); [| split; [done | apply Hquiet]].
  destruct (registry_json r) as [data |]; [| split; [done | apply Hlogged]].
  destruct (get_prop (Some data) (js "dist-tags")) as [? | e];
    split; first [done | apply Hquiet | apply Hlogged].
Qed.

(** ** The token lifecycle *)

(** What [getValidToken] does when the cached record, if any, is not fresh
    enough: the refresh exchange, and the store write if it is granted. *)
Lemma getValidToken_due (env : Env) (w : World) :
  kv_fault w = None ->
  (forall c, kv w !! TOKENS_KEY = Some c ->
             (expiresAt c <= clock w (ticks w) + 60000)%Z) ->
  getValidToken env w =
    (let! _ := console_log (js "Refreshing access token...") in
     let! newTokens :=
       refreshAccessToken (refresh_credential env (kv w !! TOKENS_KEY))
         (CLAUDE_OAUTH_CLIENT_ID env) in
     let! _ := TOKEN_STORE_put TOKENS_KEY newTokens 86400 in
     ret (accessToken newTokens))
      (match kv w !! TOKENS_KEY with
       | Some _ => tick (record (EvKvGet TOKENS_KEY) w)
       | None => record (EvKvGet TOKENS_KEY) w
       end).
Proof.
  intros Hfault Hstale.
  unfold getValidToken at 1. unfold bind at 1. unfold TOKEN_STORE_get at 1.
  cbn [kv_fault record kv]. rewrite Hfault.
  destruct (kv w !! TOKENS_KEY) as [c |] eqn:Hkv.
  - unfold bind at 1. unfold bind at 1. unfold Date_now at 1. cbn [clock ticks record].
    unfold ret at 1.
    destruct (Z.gtb_spec (expiresAt c) (clock w (ticks w) + 60000)) as [Hgt | _].
    + specialize (Hstale c eq_refl). lia.
    + reflexivity.
  - reflexivity.
Qed.

Lemma getValidToken_granted (env : Env) (w : World) (r : TokenReply)
    (data : TokenPayload) :
  kv_fault w = None ->
  (forall c, kv w !! TOKENS_KEY = Some c ->
             (expiresAt c <= clock w (ticks w) + 60000)%Z) ->
  token_endpoint w (due_request env w) = Reply r ->
  status_ok (token_status r) = true ->
  token_json r = Some data ->
  exists w',
    getValidToken env w = (Ok (access_token data), w') /\
    kv w' = <[TOKENS_KEY := fresh_record (refresh_time w) data]> (kv w) /\
    kv_fault w' = None /\
    trace w' = trace w ++
      [EvKvGet TOKENS_KEY; EvLog (js "Refreshing access token...");
       EvFetch (due_request env w);
       EvKvPut TOKENS_KEY (fresh_record (refresh_time w) data) 86400].
Proof.
  intros Hfault Hstale Hreply Hok Hjson.
  rewrite (getValidToken_due env w Hfault Hstale).
  unfold due_request in *. unfold refresh_time.
  unfold bind, console_log, refreshAccessToken, bind, fetch, TOKEN_STORE_put, Date_now, ret.
  destruct (kv w !! TOKENS_KEY) as [c |] eqn:Hkv;
    cbn [token_endpoint record tick kv_fault clock ticks kv store trace];
    rewrite Hreply, Hok; cbn [negb]; rewrite Hjson;
    cbn [token_endpoint record tick kv_fault clock ticks kv store trace accessToken];
    rewrite Hfault; cbn [store kv trace kv_fault fresh_record accessToken];
    (eexists; split; [reflexivity |]; split; [reflexivity |]; split; [done |]);
    cbn [trace record tick store]; rewrite <- ?app_assoc; reflexivity.
Qed.

(** The refresh exchange followed by the store write: the store is written
    only when both succeed, and then with the record returned. *)
Lemma refresh_and_store (rt cid : jsstring) (w0 : World) :
  let c :=
    (let! _ := console_log (js "Refreshing access token...") in
     let! newTokens := refreshAccessToken rt cid in
     let! _ := TOKEN_STORE_put TOKENS_KEY newTokens 86400 in
     ret (accessToken newTokens)) in
  kv_fault (c w0).2 = kv_fault w0 /\
  match (c w0).1 with
  | Ok tok =>
      kv_fault w0 = None /\
      exists r, kv (c w0).2 = <[TOKENS_KEY := r]> (kv w0) /\ accessToken r = tok
  | Throw _ => kv (c w0).2 = kv w0
  end.
Proof.
  cbn zeta.
  unfold bind, console_log, refreshAccessToken, bind, fetch, TOKEN_STORE_put,
    Date_now, ret, throw.
  cbn [token_endpoint record].
  destruct (token_endpoint w0 (refresh_request rt cid)) as [e | a]; [done |].
  destruct (negb (status_ok (token_status a))); [done |].
  destruct (token_json a) as [data |]; [| done].
  cbn [kv_fault record tick].
  destruct (kv_fault w0) as [e |] eqn:Hfault; cbn; [done |].
  split; [done |]. split; [done |]. eexists. split; reflexivity.
Qed.

(** The store after [getValidToken]: untouched when it throws; holding a
    record with the returned credential when it returns. *)
Lemma getValidToken_store (env : Env) (w : World) :
  kv_fault (getValidToken env w).2 = kv_fault w /\
  match (getValidToken env w).1 with
  | Ok tok =>
      kv_fault w = None /\
      exists c, kv (getValidToken env w).2 !! TOKENS_KEY = Some c /\
                accessToken c = tok /\
                (kv (getValidToken env w).2 = kv w \/
                 kv (getValidToken env w).2 = <[TOKENS_KEY := c]> (kv w))
  | Throw _ => kv (getValidToken env w).2 = kv w
  end.
Proof.
  destruct (kv_fault w) as [e |] eqn:Hfault.
  { unfold getValidToken, bind, TOKEN_STORE_get. cbn [kv_fault record].
    rewrite Hfault. cbn. done. }
  assert (Hdue : (forall c, kv w !! TOKENS_KEY = Some c ->
                            (expiresAt c <= clock w (ticks w) + 60000)%Z) ->
    kv_fault (getValidToken env w).2 = None /\
    match (getValidToken env w).1 with
    | Ok tok =>
        None = None (A:=exn) /\
        exists c, kv (getValidToken env w).2 !! TOKENS_KEY = Some c /\
                  accessToken c = tok /\
                  (kv (getValidToken env w).2 = kv w \/
                   kv (getValidToken env w).2 = <[TOKENS_KEY := c]> (kv w))
    | Throw _ => kv (getValidToken env w).2 = kv w
    end).
  { intros Hstale. rewrite (getValidToken_due env w Hfault Hstale).
    set (w0 := match kv w !! TOKENS_KEY with
               | Some _ => tick (record (EvKvGet TOKENS_KEY) w)
               | None => record (EvKvGet TOKENS_KEY) w
               end).
    assert (Hw0 : kv w0 = kv w /\ kv_fault w0 = None).
    { unfold w0. by destruct (kv w !! TOKENS_KEY). }
    destruct Hw0 as [Hkv0 Hf0].
    pose proof (refresh_and_store (refresh_credential env (kv w !! TOKENS_KEY))
                  (CLAUDE_OAUTH_CLIENT_ID env) w0) as Hrs.
    cbn zeta in Hrs. destruct Hrs as [Hf Hrs]. rewrite Hf0 in Hf.
    split; [exact Hf |].
    match goal with |- match ?o with _ => _ end => destruct o as [tok | e] end.
    - destruct Hrs as [_ (r & Hkv & Hacc)]. split; [done |].
      exists r. rewrite Hkv, lookup_insert_eq, Hkv0. auto.
    - by rewrite Hrs. }
  destruct (kv w !! TOKENS_KEY) as [c |] eqn:Hkv; [| by apply Hdue].
  destruct (Z.le_gt_cases (expiresAt c) (clock w (ticks w) + 60000)) as [Hle | Hgt].
  - apply Hdue. by intros c' [= <-].
  - rewrite (getValidToken_cached env w c Hfault Hkv) by lia. cbn.
    split; [done |]. split; [done |]. exists c. auto.
Qed.

(** X2: the refresh path of [getValidToken].  With a readable store whose
    record is absent or expires within 60 seconds, and a token endpoint that
    grants the exchange, the new access credential is returned and the store
    then holds the new record under [tokens], written once with a
    time-to-live of 86400 seconds; its expiry is the clock reading plus
    [expires_in] seconds.  The refresh credential sent is the one of the
    cached record unless that is absent or empty, in which case it is the
    provisioned [CLAUDE_REFRESH_TOKEN]. *)
Theorem getValidToken_refreshes (env : Env) (w : World) (r : TokenReply)
    (data : TokenPayload) :
  kv_fault w = None ->
  (forall c, kv w !! TOKENS_KEY = Some c ->
             (expiresAt c <= clock w (ticks w) + 60000)%Z) ->
  token_endpoint w (due_request env w) = Reply r ->
  status_ok (token_status r) = true ->
  token_json r = Some data ->
  exists w',
    getValidToken env w = (Ok (access_token data), w') /\
    kv w' = <[TOKENS_KEY := fresh_record (refresh_time w) data]> (kv w) /\
    trace w' = trace w ++
      [EvKvGet TOKENS_KEY; EvLog (js "Refreshing access token...");
       EvFetch (due_request env w);
       EvKvPut TOKENS_KEY (fresh_record (refresh_time w) data) 86400] /\
    fetch_body (due_request env w)
    = Some (stringify
              (VObj [(js "grant_type", VStr (js "refresh_token"));
                     (js "refresh_token",
                      VStr (refresh_credential env (kv w !! TOKENS_KEY)));
                     (js "client_id", VStr (CLAUDE_OAUTH_CLIENT_ID env))])).
Proof.
  intros Hfault Hstale Hreply Hok Hjson.
  destruct (getValidToken_granted env w r data Hfault Hstale Hreply Hok Hjson)
    as (w' & Hrun & Hkv & _ & Htrace).
  exists w'. done.
Qed.

Lemma getValidToken_refreshes_witness :
  exists w',
    getValidToken sample_env
      (caching (cached_record "old-access" "old-refresh" 1050000))
    = (Ok (js "fresh-access"), w') /\
    kv w' !! TOKENS_KEY
    = Some {| accessToken := js "fresh-access"; refreshToken := js "fresh-refresh";
              expiresAt := 4600000 |}.
Proof.
  destruct (getValidToken_refreshes sample_env
              (caching (cached_record "old-access" "old-refresh" 1050000))
              {| token_status := 200; token_text := [];
                 token_json := Some {| access_token := js "fresh-access";
                                       refresh_token := js "fresh-refresh";
                                       expires_in := 3600 |} |}
              {| access_token := js "fresh-access";
                 refresh_token := js "fresh-refresh";
                 expires_in := 3600 |})
    as (w' & Hrun & Hkv & _);
    [reflexivity | intros c [= <-]; vm_compute; discriminate | reflexivity
    | reflexivity | reflexivity |].
  exists w'. split; [exact Hrun |]. rewrite Hkv. apply lookup_insert_eq.
Defined.

(** X3: a refresh is followed by reuse.  Whenever [getValidToken] returns
    a credential, the store afterwards holds a record with that credential;
    and if that record expires more than 60 seconds after the next clock
    reading, calling [getValidToken] again returns the same credential and
    only reads the store. *)
Theorem getValidToken_then_reuse (env : Env) (w w1 : World) (tok : jsstring) :
  getValidToken env w = (Ok tok, w1) ->
  exists c,
    kv w1 !! TOKENS_KEY = Some c /\ accessToken c = tok /\
    ((expiresAt c > clock w1 (ticks w1) + 60000)%Z ->
     exists w2,
       getValidToken env w1 = (Ok tok, w2) /\
       trace w2 = trace w1 ++ [EvKvGet TOKENS_KEY] /\
       kv w2 = kv w1).
Proof.
  intros Hrun. destruct (getValidToken_store env w) as [Hf Hstore].
  rewrite Hrun in Hf, Hstore. cbn [fst snd] in Hf, Hstore.
  destruct Hstore as (Hfault & c & Hkv & Hacc & _).
  exists c. split; [done |]. split; [done |]. intros Hfresh.
  rewrite Hfault in Hf.
  rewrite (getValidToken_cached env w1 c Hf Hkv Hfresh), Hacc.
  eexists. split; [reflexivity |]. by split.
Qed.

Lemma getValidToken_then_reuse_witness :
  exists c,
    kv (getValidToken sample_env (sample_world 1000000 ∅ granted)).2 !! TOKENS_KEY
    = Some c /\
    accessToken c = js "fresh-access".
Proof.
  destruct (getValidToken_then_reuse sample_env (sample_world 1000000 ∅ granted)
              (getValidToken sample_env (sample_world 1000000 ∅ granted)).2
              (js "fresh-access"))
    as (c & Hkv & Hacc & _); [vm_compute; reflexivity |].
  exists c. split; [exact Hkv | exact Hacc].
Defined.

(** X4: [getValidToken] writes the store at most under the key [tokens],
    never changes whether the store works, and leaves the store exactly as
    it was whenever it throws: a refused or failed refresh does not remove
    or alter the cached record. *)
Theorem getValidToken_store_frame (env : Env) (w : World) :
  (forall k, k <> TOKENS_KEY ->
             kv (getValidToken env w).2 !! k = kv w !! k) /\
  kv_fault (getValidToken env w).2 = kv_fault w /\
  (forall e, (getValidToken env w).1 = Throw e ->
             kv (getValidToken env w).2 = kv w).
Proof.
  destruct (getValidToken_store env w) as [Hf Hstore].
  split; [| split; [done |]].
  - intros k Hk. destruct (getValidToken env w).1 as [tok | e].
    + destruct Hstore as (_ & c & _ & _ & [-> | ->]); [done |].
      by rewrite lookup_insert_ne.
    + by rewrite Hstore.
  - intros e He. by rewrite He in Hstore.
Qed.

(** ** The health check *)

(** X5: the health check always answers 200 with a JSON body, also when the
    store fails (the failure becomes the status line).  It reads the store
    once, sends no request, logs nothing and writes nothing.  The status
    line says [valid] exactly when a record is cached whose expiry is after
    the current time, with the minutes left rounded to the nearest. *)
Theorem handleHealth_always_answers (env : Env) (w : World) :
  exists w',
    handleHealth env w
    = (Ok (health_response
             (token_status_line (kv_fault w) (expiresAt <$> kv w !! TOKENS_KEY)
                (clock w (ticks w)))), w') /\
    trace w' = trace w ++ [EvKvGet TOKENS_KEY] /\
    kv w' = kv w.
Proof.
  assert (Hdone : forall (line : jsstring) (w0 : World),
            trace w0 = trace w ++ [EvKvGet TOKENS_KEY] -> kv w0 = kv w ->
            exists w',
              lift (new_Response
                      (BodyText (stringify
                         (VObj [(js "status", VStr (js "ok"));
                                (js "service", VStr (js "claude-max-proxy"));
                                (js "tokenStatus", VStr line)])))
                      200 json_headers) w0
              = (Ok (health_response line), w') /\
              trace w' = trace w ++ [EvKvGet TOKENS_KEY] /\ kv w' = kv w).
  { intros line w0 Htr Hkv. exists w0. split; [reflexivity | by split]. }
  unfold handleHealth, bind, try_catch, TOKEN_STORE_get, Date_now, ret.
  cbn [kv_fault record kv clock ticks].
  destruct (kv_fault w) as [e |]; [by apply Hdone |].
  destruct (kv w !! TOKENS_KEY) as [c |];
    cbn [fmap option_fmap option_map token_status_line]; [| by apply Hdone].
  change (clock (record (EvKvGet TOKENS_KEY) w) (ticks (record (EvKvGet TOKENS_KEY) w)))
    with (clock w (ticks w)).
  destruct (expiresAt c - clock w (ticks w) >? 0)%Z; by apply Hdone.
Qed.

(** ** Routing *)

(** X6: requests that do not reach the credentials have no effect.  A
    preflight (whatever its path, authorised or not), a request to a
    messages path that is not a POST or not authorised, a request for the
    model list and a request to an unknown path are all answered without
    touching the world: no store access, no log line, no request sent.
    The status is 200 for a preflight and for the model list, 405 for a
    wrong method on a messages path (also when unauthorised), 401 for an
    unauthorised POST, and 404 for an unknown path. *)
Theorem worker_fetch_without_effect (request : Request) (env : Env) (w : World) :
  reaches_credentials request env = false ->
  exists resp,
    worker_fetch request env w = (Ok resp, w) /\
    status resp = early_status request.
Proof.
  unfold reaches_credentials, early_status, worker_fetch, messages_path,
    models_path, health_path.
  destruct (str_eqb (req_method request) (js "OPTIONS")); cbn [negb andb].
  { intros _. by eexists. }
  destruct (str_eqb (req_path request) (js "/v1/messages")
            || str_eqb (req_path request) (js "/anthropic/v1/messages")).
  - unfold handleMessages.
    destruct (str_eqb (req_method request) (js "POST")); cbn [negb andb].
    + intros ->. by eexists.
    + intros _. by eexists.
  - destruct (str_eqb (req_path request) (js "/v1/models")
              || str_eqb (req_path request) (js "/anthropic/v1/models")); cbn [negb andb].
    + intros _. by eexists.
    + intros ->. by eexists.
Qed.

Lemma worker_fetch_without_effect_witness :
  exists resp,
    worker_fetch wrong_bearer_post sample_env (sample_world 1000000 ∅ granted)
    = (Ok resp, sample_world 1000000 ∅ granted) /\
    status resp = 401%Z.
Proof.
  refine (worker_fetch_without_effect wrong_bearer_post sample_env
            (sample_world 1000000 ∅ granted) _).
  vm_compute. reflexivity.
Defined.

(** ** What the worker does to the outside *)

Lemma Headers_set_Ok (name value : jsstring) (h h' : gmap jsstring jsstring) :
  Headers_set name value h = Ok h' ->
  h' = <[header_name name := normalize_value value]> h /\
  header_value_ok (normalize_value value) = true.
Proof.
  unfold Headers_set. cbn zeta.
  destruct (header_value_ok (normalize_value value)); [| done]. by intros [= <-].
Qed.

(** The five entries of the headers built, when they are built. *)
Lemma buildHeaders_built (accessToken : jsstring) (version : value)
    (incomingBeta : option jsstring) (built : gmap jsstring jsstring) :
  buildHeaders accessToken version incomingBeta = Ok built ->
  exists text,
    to_js_string version = Ok text /\
    built =
      <[js "user-agent" :=
          normalize_value (js "claude-cli/" ++ text ++ js " (external, cli)")]>
        (<[js "anthropic-beta" :=
             normalize_value
               (join [comma]
                  (Set_of (REQUIRED_BETA_FLAGS ++ incomingBetasList incomingBeta)))]>
           (<[js "anthropic-version" := ANTHROPIC_API_VERSION]>
              (<[js "content-type" := js "application/json"]>
                 (<[js "authorization" :=
                      normalize_value (js "Bearer " ++ accessToken)]> ∅)))).
Proof.
  unfold buildHeaders. cbn zeta. intros H.
  destruct (Headers_set (js "Authorization") _ _) as [h1 |] eqn:H1; [| done].
  cbn [mbind outcome_bind obind] in H.
  destruct (Headers_set (js "Content-Type") _ _) as [h2 |] eqn:H2; [| done].
  cbn [mbind outcome_bind obind] in H.
  destruct (Headers_set (js "anthropic-version") _ _) as [h3 |] eqn:H3; [| done].
  cbn [mbind outcome_bind obind] in H.
  destruct (Headers_set (js "anthropic-beta") _ _) as [h4 |] eqn:H4; [| done].
  cbn [mbind outcome_bind obind] in H.
  destruct (to_js_string version) as [text |]; [| done].
  cbn [mbind outcome_bind obind] in H.
  destruct (Headers_set (js "User-Agent") _ _) as [h5 |] eqn:H5; [| done].
  cbn [mbind outcome_bind obind] in H. injection H as <-.
  apply Headers_set_Ok in H1 as [-> _], H2 as [-> _], H3 as [-> _],
      H4 as [-> _], H5 as [-> _].
  exists text. split; reflexivity.
Qed.

Lemma buildHeaders_names (accessToken : jsstring) (version : value)
    (incomingBeta : option jsstring) (built : gmap jsstring jsstring) :
  buildHeaders accessToken version incomingBeta = Ok built ->
  dom built = forwarded_header_names.
Proof.
  intros H. destruct (buildHeaders_built _ _ _ _ H) as (text & _ & ->).
  unfold forwarded_header_names.
  rewrite !dom_insert_L, dom_empty_L.
  set_solver.
Qed.

Lemma emits_bind_lift {A B} (P : event -> Prop) (o : outcome A) (k : A -> M B) :
  (forall a, o = Ok a -> emits (k a) P) -> emits (bind (lift o) k) P.
Proof.
  intros Hk w. unfold bind, lift. destruct o as [a | e].
  - by apply Hk.
  - exists []. by rewrite app_nil_r.
Qed.

Ltac worker_step :=
  first
    [ apply emits_bind; [| intros ?]
    | apply emits_try_catch; [| intros ?]
    | apply emits_ret | apply emits_throw | apply emits_lift
    | apply emits_Date_now
    | apply emits_console_log; exact I
    | apply emits_TOKEN_STORE_get; reflexivity
    | apply emits_TOKEN_STORE_put; split; reflexivity
    | apply emits_fetch; left; reflexivity
    | apply emits_fetch; right; left; split; reflexivity ].

Lemma refreshAccessToken_worker_events rt cid :
  emits (refreshAccessToken rt cid) worker_event.
Proof.
  unfold refreshAccessToken. worker_step; [worker_step |].
  destruct (negb _); [worker_step |].
  destruct (token_json a); repeat worker_step.
Qed.

Lemma getValidToken_worker_events env : emits (getValidToken env) worker_event.
Proof.
  unfold getValidToken. worker_step; [worker_step |].
  worker_step.
  { destruct a; repeat worker_step. }
  assert (Hrefresh : forall rt,
    emits (let! _ := console_log (js "Refreshing access token...") in
           let! newTokens := refreshAccessToken rt (CLAUDE_OAUTH_CLIENT_ID env) in
           let! _ := TOKEN_STORE_put TOKENS_KEY newTokens 86400 in
           ret (accessToken newTokens)) worker_event).
  { intros rt. worker_step; [worker_step |].
    worker_step; [apply refreshAccessToken_worker_events |]. repeat worker_step. }
  destruct a as [c|], a0; first [apply Hrefresh | worker_step].
Qed.

Lemma getClaudeCodeVersion_worker_events : emits getClaudeCodeVersion worker_event.
Proof.
  unfold getClaudeCodeVersion. worker_step; [| repeat worker_step].
  worker_step; [worker_step |].
  destruct (status_ok _); [| worker_step].
  destruct (registry_json a) as [data |]; [| worker_step].
  worker_step; [worker_step |].
  worker_step.
  - destruct a0 as [[] |]; worker_step.
  - destruct a1; [destruct (truthy _) |]; worker_step.
Qed.

Lemma handleMessages_worker_events request env :
  emits (handleMessages request env) worker_event.
Proof.
  unfold handleMessages.
  destruct (negb _); [worker_step |].
  destruct (negb _); [worker_step |].
  worker_step.
  { worker_step.
    - worker_step; [apply getValidToken_worker_events | worker_step].
    - repeat worker_step. }
  destruct a as [accessToken | r]; [| worker_step].
  destruct (req_json request) as [body |]; [| worker_step].
  worker_step; [worker_step |].
  worker_step; [worker_step |].
  worker_step; [apply getClaudeCodeVersion_worker_events |].
  apply emits_bind_lift. intros built Hbuilt.
  worker_step.
  { apply emits_fetch. right. right.
    split; [reflexivity |]. split; [reflexivity |].
    split; [by apply buildHeaders_names in Hbuilt | by eexists]. }
  worker_step; [worker_step |].
  match goal with |- context [truthy ?s] => destruct (truthy s) end;
    try match goal with |- context [upstream_body ?r] => destruct (upstream_body r) end;
    worker_step.
Qed.

Lemma handleHealth_worker_events env : emits (handleHealth env) worker_event.
Proof.
  unfold handleHealth. worker_step; [| worker_step].
  worker_step; [| worker_step].
  worker_step; [worker_step |].
  destruct a; [| worker_step].
  worker_step; [worker_step |].
  destruct (_ >? _)%Z; worker_step.
Qed.

(** X7: the effects of the worker, whatever the request, the configuration
    and the world.  It reads and writes the store only under the key
    [tokens], and writes with a time-to-live of 86400 seconds; it sends
    requests only to the registry (the fixed version look-up), to the token
    endpoint (by POST) and to the messages endpoint; and a request to the
    messages endpoint is a POST with a body that carries exactly the five
    headers of [buildHeaders]: no other header of the client's request is
    forwarded. *)
Theorem worker_fetch_events (request : Request) (env : Env) :
  emits (worker_fetch request env) worker_event.
Proof.
  unfold worker_fetch.
  destruct (str_eqb _ _); [worker_step |].
  destruct (_ || _); [apply handleMessages_worker_events |].
  destruct (_ || _); [unfold handleModels; worker_step |].
  destruct (_ || _); [apply handleHealth_worker_events | worker_step].
Qed.

(** ** Forwarding *)

(** The result of the transformer is an object or an array, and its
    properties other than [system], [tools] and [messages] are those of the
    body. *)
Lemma sanitizeBody_other (body body' : value) (k : jsstring) :
  sanitizeBody body = Ok body' ->
  k <> js "system" -> k <> js "tools" -> k <> js "messages" ->
  get_prop (Some body') k = get_prop (Some body) k.
Proof.
  intros Hsan Hs Ht Hm.
  destruct (sanitizeBody_steps _ _ Hsan) as (b1 & b2 & H1 & H2 & H3).
  rewrite (map_array_prop_other _ k _ _ _ H3 Hm).
  rewrite (map_array_prop_other _ k _ _ _ H2 Ht).
  by rewrite (map_array_prop_other _ k _ _ _ H1 Hs).
Qed.

Lemma injectSystemPrompt_readable (body b1 : value) (k : jsstring) :
  injectSystemPrompt body = Ok b1 -> exists ov, get_prop (Some b1) k = Ok ov.
Proof.
  intros H. destruct (injectSystemPrompt_result body b1 H) as (blocks & extra & Hsys & _).
  destruct b1; try discriminate Hsys; cbn; eauto.
Qed.

Lemma transformed_stream_flag (body b1 b2 : value) :
  injectSystemPrompt body = Ok b1 -> sanitizeBody b1 = Ok b2 ->
  get_prop (Some b2) (js "stream") = get_prop (Some body) (js "stream") /\
  exists s, get_prop (Some b2) (js "stream") = Ok s.
Proof.
  intros Hi Hs.
  rewrite (sanitizeBody_other _ _ (js "stream") Hs) by names_differ.
  destruct (injectSystemPrompt_readable body b1 (js "stream") Hi) as [s Hs1].
  rewrite <- (injectSystemPrompt_other body b1 (js "stream") Hi) by names_differ.
  eauto.
Qed.

Lemma incoming_flags_spec (request : Request) :
  or_undefined (headers_get (req_headers request) (js "anthropic-beta"))
  = incoming_flags request.
Proof.
  unfold incoming_flags, or_undefined.
  destruct (headers_get _ _) as [[| c s] |]; reflexivity.
Qed.

Lemma handleMessages_forward (request : Request) (env : Env) (w w1 : World)
    (tok : jsstring) (body b1 b2 : value) :
  req_method request = js "POST" ->
  validateAuth request env = true ->
  getValidToken env w = (Ok tok, w1) ->
  req_json request = Some body ->
  injectSystemPrompt body = Ok b1 ->
  sanitizeBody b1 = Ok b2 ->
  let version := advertised_version (registry w1 registry_request) in
  let w2 := (getClaudeCodeVersion w1).2 in
  handleMessages request env w =
    match buildHeaders tok version (incoming_flags request) with
    | Throw e => (Throw e, w2)
    | Ok built =>
        (match upstream w2 (forwarded_request built b2) with
         | NetworkError e => Throw e
         | Reply r => relayed_response (wants_stream body) r
         end, record (EvFetch (forwarded_request built b2)) w2)
    end.
Proof.
  intros Hm Ha Hget Hj Hi Hs version w2.
  destruct (transformed_stream_flag body b1 b2 Hi Hs) as [Hflag [s Hstream]].
  unfold handleMessages. rewrite Hm, str_eqb_refl, Ha, Hj. cbn [negb].
  unfold bind at 1. unfold try_catch, bind at 1. rewrite Hget. unfold ret at 1.
  unfold bind at 1. unfold lift at 1. rewrite Hi.
  unfold bind at 1. unfold lift at 1. rewrite Hs.
  unfold bind at 1. subst w2. rewrite getClaudeCodeVersion_run. cbn [snd].
  set (w2 := match registry w1 registry_request with
             | NetworkError e => _
             | Reply r => _
             end).
  fold version. rewrite incoming_flags_spec.
  unfold bind at 1. unfold lift at 1.
  destruct (buildHeaders tok version (incoming_flags request)) as [built | e];
    [| reflexivity].
  change {| fetch_url := UPSTREAM_URL; fetch_method := js "POST";
            fetch_headers := built; fetch_body := Some (stringify b2) |}
    with (forwarded_request built b2).
  unfold bind at 1. unfold fetch at 1.
  change (upstream (record (EvFetch (forwarded_request built b2)) w2))
    with (upstream w2).
  destruct (upstream w2 (forwarded_request built b2)) as [e | r]; [reflexivity |].
  unfold bind, lift. rewrite Hstream.
  unfold wants_stream, relayed_response. rewrite <- Hflag, Hstream.
  by destruct (truthy s), (upstream_body r) as [chunks |].
Qed.

(** X8: the forwarding path of the messages handler.  For an authorised
    POST whose body the transformer accepts, once a credential is obtained
    the version is looked up and the headers are built from the credential,
    that version and the client's [anthropic-beta] value (an empty one
    counts as none).  If building them throws, the handler throws the same
    error and nothing more is sent.  Otherwise exactly one more request is
    sent: a POST to the messages URL (with [beta=true]) with the headers
    built and the JSON text of the transformed body.  If that request fails
    the handler throws its error.  Otherwise the handler builds its answer
    from the reply, the transformed stream when the client's [stream]
    property is truthy and the upstream body is not null, and the
    prefix-stripped text of the body otherwise; an answer built carries the
    upstream's status; one is built for every status from 200 to 599 other
    than 204, 205 and 304, and for these three when the upstream sent no
    body, the answer then having none. *)
Theorem handleMessages_forwards (request : Request) (env : Env) (w w1 : World)
    (tok : jsstring) (posted b1 b2 : value) :
  req_method request = js "POST" ->
  validateAuth request env = true ->
  getValidToken env w = (Ok tok, w1) ->
  req_json request = Some posted ->
  injectSystemPrompt posted = Ok b1 ->
  sanitizeBody b1 = Ok b2 ->
  let version := advertised_version (registry w1 registry_request) in
  let w2 := (getClaudeCodeVersion w1).2 in
  (forall e, buildHeaders tok version (incoming_flags request) = Throw e ->
     handleMessages request env w = (Throw e, w2)) /\
  (forall built, buildHeaders tok version (incoming_flags request) = Ok built ->
     let sent := forwarded_request built b2 in
     exists o,
       handleMessages request env w = (o, record (EvFetch sent) w2) /\
       match upstream w2 sent with
       | NetworkError e => o = Throw e
       | Reply r =>
           let s := upstream_status r in
           o = relayed_response (wants_stream posted) r /\
           (forall resp, o = Ok resp -> status resp = s) /\
           ((200 <= s <= 599)%Z -> s <> 204%Z -> s <> 205%Z -> s <> 304%Z ->
            exists resp, o = Ok resp /\ status resp = s) /\
           (s = 204%Z \/ s = 205%Z \/ s = 304%Z -> upstream_body r = None ->
            exists resp, o = Ok resp /\ status resp = s /\ body resp = BodyNull)
       end).
Proof.
  intros Hm Ha Hget Hj Hi Hs version w2.
  pose proof (handleMessages_forward request env w w1 tok posted b1 b2
                Hm Ha Hget Hj Hi Hs) as Hrun.
  cbn zeta in Hrun. fold version w2 in Hrun.
  split.
  - intros e He. by rewrite Hrun, He.
  - intros built Hbuilt sent. rewrite Hrun, Hbuilt. fold sent.
    eexists. split; [reflexivity |].
    destruct (upstream w2 sent) as [e | r]; [done |]. cbn zeta.
    split; [done |]. split; [| split].
    + intros resp. unfold relayed_response, new_Response.
      destruct (wants_stream posted), (upstream_body r);
        repeat match goal with
               | |- context [if ?b then _ else _] => destruct b
               | |- context [match ?o with Some _ => _ | None => _ end] => destruct o
               | |- context [match ?t with [] => _ | _ :: _ => _ end] => destruct t
               end; by intros [= <-].
    + intros Hrange H204 H205 H304.
      assert (Hin : negb ((200 <=? upstream_status r) && (upstream_status r <=? 599))%Z
                    = false).
      { apply negb_false_iff, andb_true_iff. split; apply Z.leb_le; lia. }
      assert (Hnull : null_body_status (upstream_status r) = false).
      { unfold null_body_status.
        repeat (apply orb_false_iff; split); apply Z.eqb_neq; lia. }
      unfold relayed_response, new_Response. rewrite Hin, Hnull.
      destruct (wants_stream posted), (upstream_body r);
        repeat match goal with
               | |- context [match ?o with Some _ => _ | None => _ end] => destruct o
               end; by eexists.
    + intros Hs3 Hnone.
      assert (Hin : negb ((200 <=? upstream_status r) && (upstream_status r <=? 599))%Z
                    = false).
      { apply negb_false_iff, andb_true_iff. split; apply Z.leb_le; lia. }
      assert (Hnull : null_body_status (upstream_status r) = true).
      { unfold null_body_status. destruct Hs3 as [-> | [-> | ->]]; reflexivity. }
      assert (Htext : strip_tool_prefix (upstream_text r) = []).
      { unfold upstream_text. rewrite Hnone. reflexivity. }
      unfold relayed_response, new_Response. rewrite Hin, Hnull, Hnone, Htext.
      destruct (wants_stream posted); by eexists.
Qed.

Lemma handleMessages_forwards_witness :
  exists built o w3,
    buildHeaders (js "cached-access") (VStr (js "2.1.2")) None = Ok built /\
    handleMessages (sample_post (Some sample_body)) sample_env overloaded_world
    = (o, w3) /\
    o = relayed_response false
          {| upstream_status := 429; upstream_content_type := None;
             upstream_body := Some [js "{}"] |}.
Proof.
  destruct (buildHeaders (js "cached-access") (VStr (js "2.1.2")) None)
    as [built |] eqn:Hbuilt; [| vm_compute in Hbuilt; discriminate Hbuilt].
  destruct (handleMessages_forwards (sample_post (Some sample_body)) sample_env
              overloaded_world (getValidToken sample_env overloaded_world).2
              (js "cached-access") sample_body
              (VObj [(js "system",
                      VArr [text_block CLAUDE_CODE_SYSTEM_PROMPT; text_block (js "hi")] []);
                     (js "tools", VArr [VObj [(js "name", VStr (js "search"))]] [])])
              (VObj [(js "system",
                      VArr [text_block CLAUDE_CODE_SYSTEM_PROMPT; text_block (js "hi")] []);
                     (js "tools", VArr [VObj [(js "name", VStr (js "mcp_search"))]] [])]))
    as [_ Hsent];
    [reflexivity | vm_compute; reflexivity | vm_compute; reflexivity | reflexivity
    | vm_compute; reflexivity | vm_compute; reflexivity |].
  destruct (Hsent built) as (o & Hrun & Hrelay); [exact Hbuilt |].
  exists built, o. eexists. split; [reflexivity |]. split; [exact Hrun |].
  exact (proj1 Hrelay).
Defined.

(** ** Bodies that are not objects *)

Lemma injectSystemPrompt_primitive (body : value) :
  is_primitive body = true -> exists e, injectSystemPrompt body = Throw e.
Proof.
  destruct body; try discriminate; intros _; unfold injectSystemPrompt; cbn; eauto.
Qed.

(** X9: a body that parses but is not an object.  Identity injection
    throws on [null] and on every primitive value (a number, a string, a
    boolean): module code is strict, so the assignment to [body.system]
    throws.  The messages handler does not catch this: for an authorised
    POST with such a body it throws, after the credential has been obtained
    and without sending anything upstream or looking the version up.  The
    answer 400 is given only to a body that does not parse. *)
Theorem handleMessages_primitive_body_throws (request : Request) (env : Env)
    (w w1 : World) (tok : jsstring) (body : value) :
  req_method request = js "POST" ->
  validateAuth request env = true ->
  getValidToken env w = (Ok tok, w1) ->
  req_json request = Some body ->
  is_primitive body = true ->
  exists e,
    injectSystemPrompt body = Throw e /\
    handleMessages request env w = (Throw e, w1).
Proof.
  intros Hm Ha Hget Hj Hprim.
  destruct (injectSystemPrompt_primitive body Hprim) as [e He].
  exists e. split; [done |].
  unfold handleMessages. rewrite Hm, str_eqb_refl, Ha, Hj. cbn [negb].
  unfold bind at 1. unfold try_catch, bind at 1. rewrite Hget. unfold ret at 1.
  unfold bind at 1. unfold lift at 1. by rewrite He.
Qed.

Lemma handleMessages_primitive_body_throws_witness :
  exists e,
    handleMessages (sample_post (Some (VNum (js "7")))) sample_env overloaded_world
    = (Throw e, (getValidToken sample_env overloaded_world).2).
Proof.
  destruct (handleMessages_primitive_body_throws (sample_post (Some (VNum (js "7"))))
              sample_env overloaded_world
              (getValidToken sample_env overloaded_world).2
              (js "cached-access") (VNum (js "7")))
    as (e & _ & Hrun);
    [reflexivity | vm_compute; reflexivity | vm_compute; reflexivity | reflexivity
    | reflexivity |].
  exists e. exact Hrun.
Defined.

(** ** Sanitization *)

Lemma suffix_cons_cases {A} (t l : list A) (y : A) :
  t `suffix_of` y :: l -> t = y :: l \/ t `suffix_of` l.
Proof.
  intros [[| z k] Hk]; [by left | right].
  injection Hk as _ ->. by exists k.
Qed.

Lemma suffix_app_cases {A} (t a b : list A) :
  t `suffix_of` a ++ b ->
  t `suffix_of` b \/ exists x a', x :: a' `suffix_of` a /\ t = x :: a' ++ b.
Proof.
  induction a as [| x a IH]; cbn; [by left |].
  intros Ht. apply suffix_cons_cases in Ht as [-> | Ht].
  - right. by exists x, a.
  - destruct (IH Ht) as [? | (y & a' & Ha' & ->)]; [by left | right].
    exists y, a'. split; [by apply suffix_cons_r | done].
Qed.

Lemma eat_length (eqc : N -> N -> bool) (lit s rest : jsstring) :
  eat eqc lit s = Some rest -> length s = length lit + length rest.
Proof.
  revert s. induction lit as [| a lit IH]; intros s; cbn.
  - by intros [= ->].
  - destruct s as [| b s]; [done |]. destruct (eqc a b); [| done].
    intros H. cbn. by rewrite (IH s H).
Qed.

Lemma mismatch_eat (eqc : N -> N -> bool) (lit out x : jsstring) :
  mismatch eqc lit out = true -> eat eqc lit (out ++ x) = None.
Proof.
  revert out. induction lit as [| a lit IH]; intros out; cbn; [done |].
  destruct out as [| c out]; [done |]. cbn.
  destruct (eqc a c); [apply IH | done].
Qed.

(** Replacing every occurrence of a literal leaves no occurrence behind,
    provided the text put in its place cannot take part in one: no
    occurrence begins inside it, and none that began before runs into it. *)
Section ReplaceLiteral.
Variable eqc : N -> N -> bool.
Variables (a0 : N) (l0 out : jsstring).
Hypothesis Hstart : Forall (fun c => eqc a0 c = false) out.
Hypothesis Htail :
  forall lit', lit' <> [] -> lit' `suffix_of` l0 -> mismatch eqc lit' out = true.

Let m := literal_match eqc (a0 :: l0) out.

(** The rest of an occurrence, read in the result, was in the text. *)
Lemma replaced_tail_was_there (lit' : jsstring) (fuel : nat) (s r : jsstring) :
  lit' `suffix_of` l0 ->
  eat eqc lit' (replace_from m fuel s) = Some r ->
  exists r', eat eqc lit' s = Some r'.
Proof using Htail.
  revert fuel s. induction lit' as [| a l IH]; intros fuel s Hsuf; [by eexists |].
  destruct fuel as [| fuel]; [by eexists |].
  destruct s as [| c s]; [done |]. cbn [replace_from].
  destruct (m (c :: s)) as [[o rest] |] eqn:Hm.
  - unfold m, literal_match in Hm.
    destruct (eat eqc (a0 :: l0) (c :: s)); [| done]. injection Hm as <- <-.
    rewrite (mismatch_eat eqc (a :: l) out) by (by apply Htail). done.
  - cbn [eat]. destruct (eqc a c); [| done].
    apply IH. by apply suffix_cons_l with a.
Qed.

Lemma replace_from_clean (fuel : nat) (s t : jsstring) :
  length s <= fuel ->
  t `suffix_of` replace_from m fuel s ->
  eat eqc (a0 :: l0) t = None.
Proof using Hstart Htail.
  revert s t. induction fuel as [| fuel IH]; intros s t Hlen.
  { destruct s; [| cbn in Hlen; lia]. cbn. intros Ht.
    by apply suffix_nil_inv in Ht as ->. }
  destruct s as [| c s]; cbn [replace_from].
  { intros Ht. by apply suffix_nil_inv in Ht as ->. }
  cbn in Hlen.
  destruct (m (c :: s)) as [[o rest] |] eqn:Hm.
  - unfold m, literal_match in Hm.
    destruct (eat eqc (a0 :: l0) (c :: s)) as [rest' |] eqn:Heat; [| done].
    injection Hm as <- <-. apply eat_length in Heat. cbn in Heat.
    intros Ht. apply suffix_app_cases in Ht as [Ht | (x & o' & Ho & ->)].
    + apply (IH rest' t); [lia | done].
    + cbn [app eat].
      assert (Hx : eqc a0 x = false); [| by rewrite Hx].
      destruct Ho as [k ->]. rewrite Forall_app, Forall_cons in Hstart. tauto.
  - intros Ht. apply suffix_cons_cases in Ht as [-> | Ht]; [| apply (IH s t); [lia | done]].
    cbn [eat]. destruct (eqc a0 c) eqn:Hc; [| done].
    destruct (eat eqc l0 (replace_from m fuel s)) as [r |] eqn:Hr; [| done].
    destruct (replaced_tail_was_there l0 fuel s r) as [r' Hr']; [done | done |].
    unfold m, literal_match in Hm. cbn [eat] in Hm. by rewrite Hc, Hr' in Hm.
Qed.
End ReplaceLiteral.

Lemma eat_exact_ignore_case (t rest : jsstring) :
  eat N.eqb (js "OpenCode") t = Some rest ->
  eat eq_ignore_case (js "opencode") t = Some rest.
Proof. intros H. apply eat_eqb in H as ->. reflexivity. Qed.

Lemma sanitize_text_clean (text t : jsstring) :
  t `suffix_of` sanitize_text text ->
  eat eq_ignore_case (js "opencode") t = None.
Proof.
  unfold sanitize_text, replace_all at 1.
  apply (replace_from_clean eq_ignore_case 111%N (js "pencode") (js "Claude")).
  - repeat constructor.
  - intros lit' Hne Hsuf.
    repeat (apply suffix_cons_cases in Hsuf as [-> | Hsuf]; [reflexivity |]).
    by apply suffix_nil_inv in Hsuf.
  - done.
Qed.

(** X10: the sanitized text never holds the blocked word.  Whatever the
    text, at no position of [sanitize_text text] can one read [opencode] in
    any mixture of letter cases, and so in particular not [OpenCode]: the
    second replacement removes every occurrence, and the word [Claude] it
    writes cannot be part of a new one. *)
Theorem sanitize_text_removes_opencode (text t : jsstring) :
  t `suffix_of` sanitize_text text ->
  eat eq_ignore_case (js "opencode") t = None /\
  eat N.eqb (js "OpenCode") t = None.
Proof.
  intros Ht. pose proof (sanitize_text_clean text t Ht) as Hclean.
  split; [done |].
  destruct (eat N.eqb (js "OpenCode") t) as [rest |] eqn:Hexact; [| done].
  apply eat_exact_ignore_case in Hexact. congruence.
Qed.

Lemma sanitize_text_removes_opencode_witness :
  eat eq_ignore_case (js "opencode") (js "Claudecode") = None /\
  eat N.eqb (js "OpenCode") (js "Claudecode") = None.
Proof.
  refine (sanitize_text_removes_opencode (js "an openOPENCODEcode") (js "Claudecode") _).
  exists (js "an open"). vm_compute. reflexivity.
Defined.

(** ** What the transformer keeps *)

Lemma map_outcome_length {A B} (f : A -> outcome B) (xs : list A) (ys : list B) :
  map_outcome f xs = Ok ys -> length ys = length xs.
Proof.
  revert ys. induction xs as [| x xs IH]; intros ys; cbn; [by intros [= <-] |].
  destruct (f x); [| done]. destruct (map_outcome f xs) as [ys' |]; [| done].
  intros [= <-]. cbn. by rewrite (IH ys').
Qed.

(** The system blocks of the result are the images of those of the body. *)
Lemma sanitizeBody_system (body body' : value) items extra :
  sanitizeBody body = Ok body' ->
  get_prop (Some body) (js "system") = Ok (Some (VArr items extra)) ->
  exists items',
    map_outcome sanitize_item items = Ok items' /\
    get_prop (Some body') (js "system") = Ok (Some (VArr items' [])).
Proof.
  intros Hsan Hget.
  destruct (sanitizeBody_steps _ _ Hsan) as (b1 & b2 & H1 & H2 & H3).
  destruct (map_array_prop_array _ _ _ _ _ _ H1 Hget) as (items' & Hmap & Hget1).
  exists items'. split; [done |].
  rewrite (map_array_prop_other _ (js "system") _ _ _ H3) by names_differ.
  by rewrite (map_array_prop_other _ (js "system") _ _ _ H2) by names_differ.
Qed.

Lemma sanitize_item_text (props : list (jsstring * value)) (s : jsstring) :
  assoc_get (js "type") props = Some (VStr (js "text")) ->
  assoc_get (js "text") props = Some (VStr s) -> s <> [] ->
  sanitize_item (VObj props)
  = Ok (VObj (assoc_set (js "text") (VStr (sanitize_text s)) props)).
Proof.
  intros Htype Htext Hs. unfold sanitize_item. cbn. rewrite Htype, Htext. cbn.
  rewrite str_eqb_refl. apply str_eqb_false in Hs. by rewrite Hs.
Qed.

Lemma sanitize_item_other (item item' : value) :
  sanitize_item item = Ok item' ->
  get_prop (Some item) (js "type") <> Ok (Some (VStr (js "text"))) \/
  (exists text, get_prop (Some item) (js "text") = Ok text /\ truthy text = false) ->
  item' = item.
Proof.
  unfold sanitize_item. intros H Hcase.
  destruct (get_prop (Some item) (js "type")) as [type |]; cbn in H; [| done].
  destruct (get_prop (Some item) (js "text")) as [text |]; cbn in H; [| done].
  destruct (is_string (js "text") type && truthy text) eqn:Hc; [| by injection H].
  apply andb_prop in Hc as [Htype Htruthy]. exfalso.
  destruct Hcase as [Hne | (text' & [= <-] & Hf)]; [| congruence].
  apply Hne. destruct type as [[] |]; try discriminate Htype. cbn in Htype.
  apply str_eqb_true in Htype. by subst.
Qed.

(** X11: what the transformer does to the blocks of an array [system].
    The result has as many blocks, in the same order.  A block that is an
    object of type [text] with a non-empty string [text] gets the sanitized
    text (which holds no [opencode] in any letter case) and keeps all its
    other properties.  A block of another type, or whose [text] is missing
    or empty, comes out as it went in, whatever it holds. *)
Theorem sanitizeBody_system_blocks (body body' : value) (items : list value)
    (extra : list (jsstring * value)) (i : nat) (item : value) :
  sanitizeBody body = Ok body' ->
  get_prop (Some body) (js "system") = Ok (Some (VArr items extra)) ->
  items !! i = Some item ->
  exists items' item',
    get_prop (Some body') (js "system") = Ok (Some (VArr items' [])) /\
    length items' = length items /\
    items' !! i = Some item' /\
    (forall props s,
       item = VObj props ->
       assoc_get (js "type") props = Some (VStr (js "text")) ->
       assoc_get (js "text") props = Some (VStr s) -> s <> [] ->
       get_prop (Some item') (js "text") = Ok (Some (VStr (sanitize_text s))) /\
       (forall t, t `suffix_of` sanitize_text s ->
                  eat eq_ignore_case (js "opencode") t = None) /\
       forall k, k <> js "text" -> get_prop (Some item') k = get_prop (Some item) k) /\
    (get_prop (Some item) (js "type") <> Ok (Some (VStr (js "text"))) \/
     (exists text, get_prop (Some item) (js "text") = Ok text /\ truthy text = false) ->
     item' = item).
Proof.
  intros Hsan Hget Hi.
  destruct (sanitizeBody_system _ _ _ _ Hsan Hget) as (items' & Hmap & Hget').
  destruct (map_outcome_lookup _ _ _ _ _ Hmap Hi) as (item' & Hi' & Hitem).
  exists items', item'. split; [done |].
  split; [by apply (map_outcome_length sanitize_item) |]. split; [done |].
  split; [| by apply sanitize_item_other].
  intros props s -> Htype Htext Hs.
  rewrite (sanitize_item_text props s Htype Htext Hs) in Hitem. injection Hitem as <-.
  cbn. rewrite assoc_get_set_eq. split; [done |].
  split; [apply sanitize_text_clean |].
  intros k Hk. by rewrite assoc_get_set_ne.
Qed.

Lemma sanitizeBody_system_blocks_witness :
  exists body' items' item',
    sanitizeBody rich_body = Ok body' /\
    get_prop (Some body') (js "system") = Ok (Some (VArr items' [])) /\
    items' !! 1%nat = Some item' /\
    item' = cached_block.
Proof.
  destruct (sanitizeBody rich_body) as [body' |] eqn:Hsan;
    [| vm_compute in Hsan; discriminate Hsan].
  destruct (sanitizeBody_system_blocks rich_body body'
              [text_block (js "Built on OpenCode"); cached_block] [] 1 cached_block Hsan)
    as (items' & item' & Hget & _ & Hi & _ & Hsame);
    [vm_compute; reflexivity | reflexivity |].
  exists body', items', item'. split; [reflexivity |]. split; [exact Hget |].
  split; [exact Hi |]. apply Hsame. left. vm_compute. discriminate.
Defined.

Lemma prefix_tool_other (props : list (jsstring * value)) (tool' : value)
    (k : jsstring) :
  prefix_tool (VObj props) = Ok tool' -> k <> js "name" ->
  get_prop (Some tool') k = Ok (assoc_get k props).
Proof.
  unfold prefix_tool. cbn. intros H Hk.
  destruct (truthy (assoc_get (js "name") props)).
  - destruct (template (assoc_get (js "name") props)) as [s |]; cbn in H; [| done].
    injection H as <-. cbn. by rewrite assoc_get_set_ne.
  - injection H as <-. by rewrite assoc_put_id.
Qed.

Lemma prefix_block_other (block block' : value) :
  prefix_block block = Ok block' ->
  get_prop (Some block) (js "type") <> Ok (Some (VStr (js "tool_use"))) \/
  (exists name, get_prop (Some block) (js "name") = Ok name /\ truthy name = false) ->
  block' = block.
Proof.
  unfold prefix_block. intros H Hcase.
  destruct (get_prop (Some block) (js "type")) as [type |]; cbn in H; [| done].
  destruct (get_prop (Some block) (js "name")) as [name |]; cbn in H; [| done].
  destruct (is_string (js "tool_use") type && truthy name) eqn:Hc; [| by injection H].
  apply andb_prop in Hc as [Htype Htruthy]. exfalso.
  destruct Hcase as [Hne | (name' & [= <-] & Hf)]; [| congruence].
  apply Hne. destruct type as [[] |]; try discriminate Htype. cbn in Htype.
  apply str_eqb_true in Htype. by subst.
Qed.

Lemma prefix_message_other (mprops : list (jsstring * value)) (msg' : value) :
  prefix_message (VObj mprops) = Ok msg' ->
  (forall k, k <> js "content" -> get_prop (Some msg') k = Ok (assoc_get k mprops)) /\
  ((forall blocks bextra, assoc_get (js "content") mprops <> Some (VArr blocks bextra)) ->
   msg' = VObj mprops).
Proof.
  unfold prefix_message. cbn. intros H.
  destruct (assoc_get (js "content") mprops) as [[| | | | blocks bextra |] |];
    try (injection H as <-; by split).
  destruct (map_outcome prefix_block blocks) as [blocks' |]; cbn in H; [| done].
  injection H as <-. split.
  - intros k Hk. cbn. by rewrite assoc_get_set_ne.
  - intros Hnot. by destruct (Hnot blocks bextra).
Qed.

(** X12: what tool namespacing leaves alone.  In the result, [tools] and
    [messages] have as many elements as before, in the same order.  A tool
    definition keeps every property other than [name] (its description and
    its schema, for instance).  A message keeps every property other than
    [content] (its role), and a message whose [content] is not an array
    comes out as it went in.  In an array [content], a block that is not of
    type [tool_use], or whose [name] is missing or empty, comes out as it
    went in: a [name] outside a [tool_use] block is never prefixed. *)
Theorem sanitizeBody_keeps_rest (body body' : value) :
  sanitizeBody body = Ok body' ->
  (forall tools extra i props,
     get_prop (Some body) (js "tools") = Ok (Some (VArr tools extra)) ->
     tools !! i = Some (VObj props) ->
     exists tools' tool',
       get_prop (Some body') (js "tools") = Ok (Some (VArr tools' [])) /\
       length tools' = length tools /\
       tools' !! i = Some tool' /\
       forall k, k <> js "name" -> get_prop (Some tool') k = Ok (assoc_get k props)) /\
  (forall messages extra j mprops,
     get_prop (Some body) (js "messages") = Ok (Some (VArr messages extra)) ->
     messages !! j = Some (VObj mprops) ->
     exists messages' msg',
       get_prop (Some body') (js "messages") = Ok (Some (VArr messages' [])) /\
       length messages' = length messages /\
       messages' !! j = Some msg' /\
       (forall k, k <> js "content" ->
                  get_prop (Some msg') k = Ok (assoc_get k mprops)) /\
       ((forall blocks bextra,
           assoc_get (js "content") mprops <> Some (VArr blocks bextra)) ->
        msg' = VObj mprops) /\
       (forall blocks bextra n block,
          assoc_get (js "content") mprops = Some (VArr blocks bextra) ->
          blocks !! n = Some block ->
          exists blocks' block',
            get_prop (Some msg') (js "content") = Ok (Some (VArr blocks' [])) /\
            length blocks' = length blocks /\
            blocks' !! n = Some block' /\
            (get_prop (Some block) (js "type") <> Ok (Some (VStr (js "tool_use"))) \/
             (exists name, get_prop (Some block) (js "name") = Ok name /\
                           truthy name = false) ->
             block' = block))).
Proof.
  intros Hsan. split.
  - intros tools extra i props Hget Hi.
    destruct (sanitizeBody_tools _ _ _ _ Hsan Hget) as (tools' & Hmap & Hget').
    destruct (map_outcome_lookup _ _ _ _ _ Hmap Hi) as (tool' & Hi' & Htool).
    exists tools', tool'. split; [done |].
    split; [by apply (map_outcome_length prefix_tool) |]. split; [done |].
    intros k Hk. by apply prefix_tool_other.
  - intros messages extra j mprops Hget Hj.
    destruct (sanitizeBody_messages _ _ _ _ Hsan Hget) as (messages' & Hmap & Hget').
    destruct (map_outcome_lookup _ _ _ _ _ Hmap Hj) as (msg' & Hj' & Hmsg).
    exists messages', msg'. split; [done |].
    split; [by apply (map_outcome_length prefix_message) |]. split; [done |].
    destruct (prefix_message_other mprops msg' Hmsg) as [Hother Hsame].
    split; [done |]. split; [done |].
    intros blocks bextra n block Hcontent Hn.
    destruct (prefix_message_content (VObj mprops) msg' blocks bextra Hmsg)
      as (blocks' & Hmapb & Hcontent'); [by cbn; rewrite Hcontent |].
    destruct (map_outcome_lookup _ _ _ _ _ Hmapb Hn) as (block' & Hn' & Hblock).
    exists blocks', block'. split; [done |].
    split; [by apply (map_outcome_length prefix_block) |]. split; [done |].
    by apply prefix_block_other.
Qed.

Lemma sanitizeBody_keeps_rest_witness :
  exists body' tools' tool',
    sanitizeBody rich_body = Ok body' /\
    get_prop (Some body') (js "tools") = Ok (Some (VArr tools' [])) /\
    tools' !! 0%nat = Some tool' /\
    get_prop (Some tool') (js "description") = Ok (Some (VStr (js "Searches"))).
Proof.
  destruct (sanitizeBody rich_body) as [body' |] eqn:Hsan;
    [| vm_compute in Hsan; discriminate Hsan].
  destruct (proj1 (sanitizeBody_keeps_rest rich_body body' Hsan)
              [described_tool] [] 0
              [(js "name", VStr (js "search"));
               (js "description", VStr (js "Searches"))])
    as (tools' & tool' & Hget & _ & Hi & Hkeep);
    [vm_compute; reflexivity | reflexivity |].
  exists body', tools', tool'. split; [reflexivity |]. split; [exact Hget |].
  split; [exact Hi |]. apply (Hkeep (js "description")). vm_compute. discriminate.
Defined.

(** X13: the request transformer as a whole ([injectSystemPrompt] followed
    by [sanitizeBody]) changes no property of the body other than [system],
    [tools] and [messages]: the model, the sampling parameters, [stream]
    and [tool_choice] reach the upstream as the client sent them.  In
    particular the tool named by [tool_choice] is not prefixed, although
    the tools themselves are. *)
Theorem transformer_keeps_other_properties (body b1 b2 : value) (k : jsstring) :
  injectSystemPrompt body = Ok b1 ->
  sanitizeBody b1 = Ok b2 ->
  k <> js "system" -> k <> js "tools" -> k <> js "messages" ->
  get_prop (Some b2) k = get_prop (Some body) k.
Proof.
  intros Hi Hs Hk1 Hk2 Hk3.
  rewrite (sanitizeBody_other b1 b2 k Hs Hk1 Hk2 Hk3).
  by apply injectSystemPrompt_other.
Qed.

Lemma transformer_keeps_other_properties_witness :
  exists b1 b2,
    injectSystemPrompt rich_body = Ok b1 /\ sanitizeBody b1 = Ok b2 /\
    get_prop (Some b2) (js "tool_choice")
    = Ok (Some (VObj [(js "type", VStr (js "tool"));
                      (js "name", VStr (js "search"))])).
Proof.
  destruct (injectSystemPrompt rich_body) as [b1 |] eqn:Hi;
    [| vm_compute in Hi; discriminate Hi].
  destruct (sanitizeBody b1) as [b2 |] eqn:Hs.
  - exists b1, b2. split; [reflexivity |]. split; [exact Hs |].
    rewrite (transformer_keeps_other_properties rich_body b1 b2 (js "tool_choice") Hi Hs);
      [reflexivity | | |]; vm_compute; discriminate.
  - exfalso. vm_compute in Hi. injection Hi as <-. vm_compute in Hs. discriminate Hs.
Defined.

(** ** Texts without the prefix *)

Lemma starts_with_app (p t b : jsstring) :
  starts_with p t = true -> starts_with p (t ++ b) = true.
Proof.
  revert t. induction p as [| a p IH]; intros t; [done |].
  destruct t as [| c t]; [done |]. cbn.
  intros H. apply andb_prop in H as [-> H]. by apply IH.
Qed.

Lemma starts_with_refl (p b : jsstring) : starts_with p (p ++ b) = true.
Proof. induction p as [| a p IH]; [done |]. cbn. by rewrite N.eqb_refl. Qed.

Lemma occurs_unfold (needle s : jsstring) :
  occurs needle s =
    starts_with needle s || match s with [] => false | _ :: s' => occurs needle s' end.
Proof. by destruct s. Qed.

Lemma occurs_app_l (needle a t : jsstring) :
  occurs needle t = true -> occurs needle (a ++ t) = true.
Proof.
  intros H. induction a as [| x a IH]; [done |].
  cbn [app]. rewrite occurs_unfold, IH. apply orb_true_r.
Qed.

Lemma occurs_app_r (needle t b : jsstring) :
  occurs needle t = true -> occurs needle (t ++ b) = true.
Proof.
  induction t as [| x t IH]; rewrite (occurs_unfold needle).
  - rewrite orb_false_r. intros H. destruct needle; [by destruct b | done].
  - intros H. apply orb_prop in H as [H | H];
      rewrite (occurs_unfold needle ((x :: t) ++ b)).
    + by rewrite (starts_with_app needle (x :: t) b H).
    + cbn [app]. rewrite (IH H). apply orb_true_r.
Qed.

Lemma occurs_intro (needle pre post : jsstring) :
  occurs needle (pre ++ needle ++ post) = true.
Proof.
  apply occurs_app_l. rewrite occurs_unfold. by rewrite starts_with_refl.
Qed.

Lemma occurs_suffix (needle t s : jsstring) :
  t `suffix_of` s -> occurs needle t = true -> occurs needle s = true.
Proof. intros [k ->]. apply occurs_app_l. Qed.

(** A match of the expression holds the prefix. *)
Lemma name_field_match_occurs (t : jsstring) (x : jsstring * jsstring) :
  name_field_match t = Some x -> occurs TOOL_PREFIX t = true.
Proof.
  unfold name_field_match.
  destruct (eat N.eqb (dq :: js "name" ++ [dq]) t) as [s1 |] eqn:H1; [| done].
  cbn [mbind option_bind].
  destruct (eat N.eqb [colon] (drop_while is_js_space s1)) as [s2 |] eqn:H2; [| done].
  cbn [mbind option_bind].
  destruct (eat N.eqb (dq :: js "mcp_") (drop_while is_js_space s2)) as [s3 |] eqn:H3;
    [| done].
  intros _. apply eat_eqb in H1, H2, H3.
  pose proof (take_drop_while is_js_space s1) as Hs1.
  pose proof (take_drop_while is_js_space s2) as Hs2.
  rewrite H2 in Hs1. rewrite H3 in Hs2.
  revert Hs1 Hs2. generalize (take_while is_js_space s1) (take_while is_js_space s2).
  intros tw1 tw2 Hs1 Hs2.
  replace t with (((dq :: js "name" ++ [dq]) ++ tw1 ++ [colon] ++ tw2 ++ [dq])
                  ++ TOOL_PREFIX ++ s3); [apply occurs_intro |].
  rewrite H1, Hs1, Hs2. unfold TOOL_PREFIX.
  rewrite <- !app_assoc. cbn [app]. reflexivity.
Qed.

Lemma strip_without_prefix (text : jsstring) :
  occurs TOOL_PREFIX text = false -> strip_tool_prefix text = text.
Proof.
  intros Hno. unfold strip_tool_prefix, replace_all.
  apply replace_from_no_match. intros t Ht.
  destruct (name_field_match t) as [x |] eqn:Hm; [| done].
  rewrite (occurs_suffix _ t text Ht) in Hno; [done |].
  by apply (name_field_match_occurs t x).
Qed.

(** X14: a text in which the prefix [mcp_] does not occur is left as it is
    by the response transform: without a prefixed tool name the buffered
    answer is relayed character for character. *)
Theorem strip_tool_prefix_without_prefix (text : jsstring) :
  occurs TOOL_PREFIX text = false -> strip_tool_prefix text = text.
Proof. apply strip_without_prefix. Qed.

Lemma strip_tool_prefix_without_prefix_witness :
  strip_tool_prefix (stringify (VObj [(js "name", VStr (js "search"))]))
  = stringify (VObj [(js "name", VStr (js "search"))]).
Proof.
  refine (strip_tool_prefix_without_prefix
            (stringify (VObj [(js "name", VStr (js "search"))])) _).
  vm_compute. reflexivity.
Defined.

(** ** A name field inside a text *)

Section Scan.
Variable m : jsstring -> option (jsstring * jsstring).
Hypothesis m_shorter :
  forall s out rest, m s = Some (out, rest) -> length rest < length s.

(** More fuel than the length of the text changes nothing. *)
Lemma replace_from_fuel (fuel : nat) (s : jsstring) :
  length s <= fuel -> replace_from m fuel s = replace_all m s.
Proof using m_shorter.
  unfold replace_all. revert s.
  induction fuel as [fuel IH] using lt_wf_ind. intros s Hlen.
  destruct s as [| c s]; [by destruct fuel |].
  destruct fuel as [| fuel]; [cbn in Hlen; lia |].
  cbn [length replace_from] in *.
  destruct (m (c :: s)) as [[out rest] |] eqn:Hm.
  - apply m_shorter in Hm. cbn [length] in Hm. f_equal.
    rewrite (IH fuel) by lia. rewrite (IH (length s)) by lia. done.
  - f_equal. apply IH; lia.
Qed.
End Scan.

(** The parts of a match: the quoted word [name], blanks, a colon, blanks,
    a quote and the prefix, the characters of a name up to the next quote,
    and that quote. *)
Lemma name_field_match_parts (t out rest : jsstring) :
  name_field_match t = Some (out, rest) ->
  exists ws1 ws2 capture,
    t = (dq :: js "name" ++ [dq]) ++ ws1 ++ [colon] ++ ws2 ++ (dq :: js "mcp_")
        ++ capture ++ dq :: rest /\
    forallb is_js_space ws1 = true /\ forallb is_js_space ws2 = true /\
    capture <> [] /\ (dq ∉ capture) /\
    out = dq :: js "name" ++ [dq; colon; space; dq] ++ capture ++ [dq].
Proof.
  unfold name_field_match.
  destruct (eat N.eqb (dq :: js "name" ++ [dq]) t) as [s1 |] eqn:H1; [| done].
  cbn [mbind option_bind].
  destruct (eat N.eqb [colon] (drop_while is_js_space s1)) as [s2 |] eqn:H2; [| done].
  cbn [mbind option_bind].
  destruct (eat N.eqb (dq :: js "mcp_") (drop_while is_js_space s2)) as [s3 |] eqn:H3;
    [| done].
  cbn [mbind option_bind].
  set (not_quote := fun c : N => negb (c =? dq)%N).
  pose proof (take_drop_while not_quote s3) as Hs3.
  pose proof (take_while_all not_quote s3) as Hall.
  destruct (take_while not_quote s3) as [| c capture] eqn:Hcap; [done |].
  destruct (eat N.eqb [dq] (drop_while not_quote s3)) as [s4 |] eqn:H4; [| done].
  cbn [mbind option_bind]. intros [= <- <-].
  apply eat_eqb in H1, H2, H3, H4.
  pose proof (take_drop_while is_js_space s1) as Hs1.
  pose proof (take_drop_while is_js_space s2) as Hs2.
  exists (take_while is_js_space s1), (take_while is_js_space s2), (c :: capture).
  split; [| split; [apply take_while_all | split; [apply take_while_all |]]].
  - rewrite H1. f_equal. rewrite Hs1 at 1. f_equal. rewrite H2. f_equal.
    rewrite Hs2 at 1. f_equal. rewrite H3. f_equal. rewrite Hs3 at 1. by rewrite H4.
  - split; [done |]. split; [by apply (other_forallb dq) | done].
Qed.

Lemma name_field_match_shorter (s out rest : jsstring) :
  name_field_match s = Some (out, rest) -> length rest < length s.
Proof.
  intros H. destruct (name_field_match_parts s out rest H)
    as (ws1 & ws2 & capture & -> & _).
  rewrite !length_app. cbn [length]. rewrite !length_app. cbn [length]. lia.
Qed.

(** Conversely, a text made of these parts is matched, whatever follows. *)
Lemma name_field_match_build (ws1 ws2 capture rest : jsstring) :
  forallb is_js_space ws1 = true -> forallb is_js_space ws2 = true ->
  capture <> [] -> dq ∉ capture ->
  name_field_match
    ((dq :: js "name" ++ [dq]) ++ ws1 ++ [colon] ++ ws2 ++ (dq :: js "mcp_")
     ++ capture ++ dq :: rest)
  = Some (dq :: js "name" ++ [dq; colon; space; dq] ++ capture ++ [dq], rest).
Proof.
  intros Hws1 Hws2 Hcap Hquote.
  set (not_quote := fun c : N => negb (c =? dq)%N).
  apply (other_forallb dq) in Hquote.
  destruct (take_while_app is_js_space ws1
              ([colon] ++ ws2 ++ (dq :: js "mcp_") ++ capture ++ dq :: rest) Hws1)
    as [_ Hd1]; [reflexivity |].
  destruct (take_while_app is_js_space ws2
              ((dq :: js "mcp_") ++ capture ++ dq :: rest) Hws2)
    as [_ Hd2]; [reflexivity |].
  destruct (take_while_app not_quote capture (dq :: rest) Hquote) as [Ht3 Hd3];
    [reflexivity |].
  unfold name_field_match.
  rewrite eat_app. cbn [mbind option_bind].
  rewrite Hd1, eat_app. cbn [mbind option_bind].
  rewrite Hd2, eat_app. cbn [mbind option_bind].
  fold not_quote. rewrite Ht3, Hd3.
  destruct capture as [| c capture]; [done |]. reflexivity.
Qed.

(** A match inside a text is a match in every longer text. *)
Lemma name_field_match_extends (s out rest more : jsstring) :
  name_field_match s = Some (out, rest) ->
  name_field_match (s ++ more) = Some (out, rest ++ more).
Proof.
  intros H. destruct (name_field_match_parts s out rest H)
    as (ws1 & ws2 & capture & -> & Hws1 & Hws2 & Hcap & Hquote & ->).
  rewrite <- !app_assoc. cbn [app]. rewrite <- !app_assoc.
  by apply (name_field_match_build ws1 ws2 capture (rest ++ more)).
Qed.

Lemma name_field_match_suffix (s out rest : jsstring) :
  name_field_match s = Some (out, rest) -> exists front, s = front ++ rest.
Proof.
  intros H. destruct (name_field_match_parts s out rest H)
    as (ws1 & ws2 & capture & -> & _).
  exists ((dq :: js "name" ++ [dq]) ++ ws1 ++ [colon] ++ ws2 ++ (dq :: js "mcp_")
          ++ capture ++ [dq]).
  rewrite <- !app_assoc. cbn [app]. by rewrite <- !app_assoc.
Qed.

Lemma occurs_false_app_r (needle a t : jsstring) :
  occurs needle (a ++ t) = false -> occurs needle t = false.
Proof.
  intros H. destruct (occurs needle t) eqn:Ht; [| done].
  by rewrite (occurs_app_l needle a t Ht) in H.
Qed.

Lemma js_space_not_quote (ws : jsstring) :
  forallb is_js_space ws = true -> dq ∉ ws.
Proof.
  intros H Hin. rewrite forallb_forall in H.
  apply list_elem_of_In in Hin. by apply H in Hin.
Qed.

(** A match that begins before a [name] field has found its prefix before
    the field: the beginning of the expression cannot end in the field,
    which begins with a quote and the letter n. *)
Lemma match_head_before_field (p2 after ws1 ws2 tail : jsstring) :
  p2 <> [] ->
  forallb is_js_space ws1 = true -> forallb is_js_space ws2 = true ->
  p2 ++ dq :: 110%N :: after
  = (dq :: js "name" ++ [dq]) ++ ws1 ++ [colon] ++ ws2 ++ (dq :: js "mcp_") ++ tail ->
  exists l,
    p2 = (dq :: js "name" ++ [dq]) ++ ws1 ++ [colon] ++ ws2 ++ (dq :: js "mcp_") ++ l /\
    tail = l ++ dq :: 110%N :: after.
Proof.
  intros Hp2 Hws1 Hws2 Ht.
  assert (Hblank : forall w, ws1 ++ [colon] ++ w <> 110%N :: after).
  { intros w. destruct ws1 as [| c ws1]; [done |].
    cbn in Hws1. apply andb_prop in Hws1 as [Hc _]. intros [= -> _]. done. }
  assert (Hquote : dq ∉ ws1 ++ [colon] ++ ws2).
  { rewrite !not_elem_of_app. split; [by apply js_space_not_quote |].
    split; [| by apply js_space_not_quote].
    intros H. by apply list_elem_of_singleton in H. }
  change (js "name") with [110; 97; 109; 101]%N in Ht |- *.
  change (js "mcp_") with [109; 99; 112; 95]%N in Ht |- *.
  cbn [app] in Ht |- *.
  destruct p2 as [| x1 p2]; [done |]. injection Ht as -> Ht.
  destruct p2 as [| x2 p2]; [discriminate Ht |]. injection Ht as -> Ht.
  destruct p2 as [| x3 p2]; [discriminate Ht |]. injection Ht as -> Ht.
  destruct p2 as [| x4 p2]; [discriminate Ht |]. injection Ht as -> Ht.
  destruct p2 as [| x5 p2]; [discriminate Ht |]. injection Ht as -> Ht.
  destruct p2 as [| x6 p2].
  { injection Ht as Ht. symmetry in Ht. by apply Hblank in Ht. }
  injection Ht as -> Ht.
  set (found := dq :: 109%N :: 99%N :: 112%N :: 95%N :: tail) in Ht.
  assert (Ht' : p2 ++ dq :: 110%N :: after = (ws1 ++ [colon] ++ ws2) ++ found).
  { rewrite Ht. by rewrite <- !app_assoc. }
  clear Ht. apply app_eq_app in Ht' as [l [[Hp Hl] | [Hw Hl]]].
  - subst found.
    destruct l as [| y1 [| y2 [| y3 [| y4 [| y5 l]]]]]; try discriminate Hl.
    injection Hl as <- <- <- <- <- Hl.
    exists l. split; [| done]. rewrite Hp. do 6 f_equal.
    by rewrite <- !app_assoc.
  - destruct l as [| y l]; [subst found; discriminate Hl |].
    injection Hl as <- _. exfalso. apply Hquote. rewrite Hw.
    apply elem_of_app. right. left.
Qed.

Lemma prefix_after_head (ws1 ws2 l : jsstring) :
  occurs TOOL_PREFIX
    ((dq :: js "name" ++ [dq]) ++ ws1 ++ [colon] ++ ws2 ++ (dq :: js "mcp_") ++ l)
  = true.
Proof.
  assert (Heq : ((dq :: js "name" ++ [dq]) ++ ws1 ++ [colon] ++ ws2 ++ [dq])
                ++ TOOL_PREFIX ++ l
                = (dq :: js "name" ++ [dq]) ++ ws1 ++ [colon] ++ ws2
                  ++ (dq :: js "mcp_") ++ l).
  { rewrite <- !app_assoc. reflexivity. }
  rewrite <- Heq. apply occurs_intro.
Qed.

(** No match begins before a [name] field in a text without the prefix. *)
Lemma no_match_before_field (p2 after : jsstring) :
  p2 <> [] -> occurs TOOL_PREFIX p2 = false ->
  name_field_match (p2 ++ dq :: 110%N :: after) = None.
Proof.
  intros Hp2 Hno.
  destruct (name_field_match (p2 ++ dq :: 110%N :: after)) as [[out rest] |] eqn:Hm;
    [exfalso | done].
  destruct (name_field_match_parts _ _ _ Hm)
    as (ws1 & ws2 & capture & Ht & Hws1 & Hws2 & _).
  destruct (match_head_before_field p2 after ws1 ws2 _ Hp2 Hws1 Hws2 Ht) as (l & -> & _).
  by rewrite prefix_after_head in Hno.
Qed.

(** A match that begins before a [name] field ends before the field,
    unless the text before the field is an unfinished field. *)
Lemma name_field_match_local (p2 after out rest : jsstring) :
  p2 <> [] -> ~ unfinished_field p2 ->
  name_field_match (p2 ++ dq :: 110%N :: after) = Some (out, rest) ->
  exists rest',
    rest = rest' ++ dq :: 110%N :: after /\ name_field_match p2 = Some (out, rest').
Proof.
  intros Hp2 Hfinished Hm.
  destruct (name_field_match_parts _ _ _ Hm)
    as (ws1 & ws2 & capture & Ht & Hws1 & Hws2 & Hcap & Hquote & ->).
  destruct (match_head_before_field p2 after ws1 ws2 _ Hp2 Hws1 Hws2 Ht) as (l & -> & Hl).
  assert (Hunfinished : forall cap, cap = capture ->
            ~ unfinished_field
                ((dq :: js "name" ++ [dq]) ++ ws1 ++ [colon] ++ ws2
                 ++ (dq :: js "mcp_") ++ cap) -> False).
  { intros cap -> H. apply H. by exists ws1, ws2, capture. }
  apply app_eq_app in Hl as [k [[Hc Hk] | [Hl Hk]]].
  - (* the field begins inside the name found *)
    destruct k as [| y k].
    + rewrite app_nil_r in Hc. subst l. by destruct (Hunfinished capture eq_refl).
    + injection Hk as <- _. exfalso. apply Hquote. rewrite Hc.
      apply elem_of_app. right. left.
  - destruct k as [| y k].
    + rewrite app_nil_r in Hl. subst l. by destruct (Hunfinished capture eq_refl).
    + injection Hk as <- ->. exists k. split; [done |]. subst l.
      by apply name_field_match_build.
Qed.

Lemma ends_finished_app (a b : jsstring) : ends_finished (a ++ b) -> ends_finished b.
Proof. intros H p1 p2 ->. apply (H (a ++ p1) p2). by rewrite <- app_assoc. Qed.

(** The scan of a text before a [name] field is the scan of that text
    alone, followed by the scan from the field on. *)
Lemma strip_before_field (pre after : jsstring) :
  ends_finished pre ->
  strip_tool_prefix (pre ++ dq :: 110%N :: after)
  = strip_tool_prefix pre ++ strip_tool_prefix (dq :: 110%N :: after).
Proof.
  unfold strip_tool_prefix.
  remember (length pre) as k eqn:Hk. revert pre Hk.
  induction k as [k IH] using lt_wf_ind. intros pre -> Hfin.
  destruct pre as [| c pre]; [done |].
  destruct (name_field_match ((c :: pre) ++ dq :: 110%N :: after))
    as [[out rest] |] eqn:Hm.
  - destruct (name_field_match_local (c :: pre) after out rest) as (rest' & -> & Hm');
      [done | apply (Hfin [] (c :: pre) eq_refl) | exact Hm |].
    rewrite (replace_all_match name_field_match
               ((c :: pre) ++ dq :: 110%N :: after) _ _ ltac:(done) Hm).
    rewrite (replace_all_match name_field_match (c :: pre) _ _ ltac:(done) Hm').
    pose proof (name_field_match_shorter _ _ _ Hm) as Hlen.
    pose proof (name_field_match_shorter _ _ _ Hm') as Hlen'.
    rewrite !(replace_from_fuel _ name_field_match_shorter) by lia.
    destruct (name_field_match_suffix _ _ _ Hm') as [front Hfront].
    rewrite (IH (length rest') Hlen' rest' eq_refl).
    + by rewrite app_assoc.
    + rewrite Hfront in Hfin. by apply ends_finished_app in Hfin.
  - assert (Hm' : name_field_match (c :: pre) = None).
    { destruct (name_field_match (c :: pre)) as [[out rest] |] eqn:Hm'; [| done].
      by rewrite (name_field_match_extends _ _ _ _ Hm') in Hm. }
    unfold replace_all at 1 2. cbn [app length replace_from].
    cbn [app] in Hm. rewrite Hm, Hm'. cbn [app]. f_equal.
    apply (IH (length pre)); [cbn; lia | done |].
    by apply (ends_finished_app [c]).
Qed.

(** A text without the prefix does not end with an unfinished field. *)
Lemma no_prefix_ends_finished (pre : jsstring) :
  occurs TOOL_PREFIX pre = false -> ends_finished pre.
Proof.
  intros Hno p1 p2 -> (ws1 & ws2 & capture & -> & _).
  apply occurs_false_app_r in Hno.
  by rewrite prefix_after_head in Hno.
Qed.

Lemma take_drop_while_stop (p : N -> bool) (s : jsstring) (d : N) (tail : jsstring) :
  p d = false ->
  take_while p (s ++ d :: tail) = take_while p s /\
  drop_while p (s ++ d :: tail) = drop_while p s ++ d :: tail.
Proof.
  intros Hd. induction s as [| c s [IHt IHd]]; cbn.
  - by rewrite Hd.
  - destruct (p c); [by rewrite IHt, IHd | done].
Qed.

(** The expression applied to a [name] field with the prefix, whatever
    follows the field: the match covers the field up to the first quote
    after the prefix, which closes the name or is one that the name
    holds. *)
Lemma name_field_match_field (q post : jsstring) :
  q <> [] -> quotes_escaped dq q = true ->
  exists capture rest,
    name_field_match
      (json_quote (js "name") ++ [colon; space] ++ (dq :: js "mcp_") ++ q ++ dq :: post)
    = Some (json_quote (js "name") ++ [colon; space] ++ dq :: capture ++ [dq], rest) /\
    (capture = q /\ rest = post \/
     exists r', q = capture ++ dq :: r' /\ rest = r' ++ dq :: post /\
                quotes_escaped dq r' = true).
Proof.
  intros Hq Hesc.
  set (not_quote := fun c : N => negb (c =? dq)%N).
  destruct (take_drop_while_stop not_quote q dq post) as [Htake Hdrop]; [done |].
  pose proof (take_drop_while not_quote q) as Hsplit.
  pose proof (drop_while_head not_quote q) as Hhead.
  assert (Hcapture : take_while not_quote q <> []).
  { destruct q as [| c q]; [done |]. cbn in Hesc |- *.
    rewrite orb_false_r in Hesc. apply andb_prop in Hesc as [Hc _].
    unfold not_quote. by rewrite Hc. }
  assert (Hmatch : forall rest,
    eat N.eqb [dq] (drop_while not_quote q ++ dq :: post) = Some rest ->
    name_field_match
      (json_quote (js "name") ++ [colon; space] ++ (dq :: js "mcp_") ++ q ++ dq :: post)
    = Some (json_quote (js "name") ++ [colon; space]
            ++ dq :: take_while not_quote q ++ [dq], rest)).
  { intros rest Hrest.
    unfold name_field_match, json_quote.
    change (dq :: quote_units false (js "name") ++ [dq])
      with (dq :: js "name" ++ [dq]).
    rewrite eat_app. cbn [mbind option_bind].
    change (drop_while is_js_space ([colon; space] ++ (dq :: js "mcp_") ++ q ++ dq :: post))
      with ([colon] ++ space :: (dq :: js "mcp_") ++ q ++ dq :: post).
    rewrite eat_app. cbn [mbind option_bind].
    change (drop_while is_js_space (space :: (dq :: js "mcp_") ++ q ++ dq :: post))
      with ((dq :: js "mcp_") ++ q ++ dq :: post).
    rewrite eat_app. cbn [mbind option_bind].
    fold not_quote. rewrite Htake, Hdrop, Hrest.
    destruct (take_while not_quote q) as [| c capture]; [done |].
    cbn. by rewrite <- app_assoc. }
  remember (take_while not_quote q) as capture eqn:Hc.
  destruct (drop_while not_quote q) as [| d r'] eqn:Hr.
  - exists capture, post. split; [by apply Hmatch |]. left.
    split; [by rewrite Hsplit, app_nil_r | done].
  - unfold not_quote in Hhead. apply negb_false_iff, N.eqb_eq in Hhead. subst d.
    exists capture, (r' ++ dq :: post). split; [by apply Hmatch |].
    right. exists r'. split; [done |]. split; [done |].
    rewrite Hsplit, quotes_escaped_app in Hesc.
    apply andb_prop in Hesc as [_ Hesc]. cbn in Hesc.
    by apply andb_prop in Hesc as [_ Hesc].
Qed.

(** What follows the first quote of a name, up to the quote that closes
    it, stays as it is: there every quote is escaped, and a match can only
    begin at the escaped quote of a name that ends with that quote and the
    word [name], in which case the match is replaced by a text that begins
    with the same characters. *)
Lemma scan_escaped (prev : N) (r post : jsstring) (fuel : nat) :
  quotes_escaped prev r = true ->
  length (r ++ dq :: post) <= fuel ->
  exists tail,
    replace_from name_field_match fuel (r ++ dq :: post) = r ++ dq :: tail.
Proof.
  revert prev fuel. induction r as [| c r IH]; intros prev fuel Hesc Hlen;
    (destruct fuel as [| fuel]; [cbn in Hlen; lia |]); cbn [app replace_from].
  - destruct (name_field_match (dq :: post)) as [[out rest] |] eqn:Hm; [| by eexists].
    destruct (name_field_match_parts _ _ _ Hm)
      as (ws1 & ws2 & capture & _ & _ & _ & _ & _ & ->).
    by eexists.
  - cbn [quotes_escaped] in Hesc. apply andb_prop in Hesc as [Hc Hesc].
    destruct (name_field_match (c :: r ++ dq :: post)) as [[out rest] |] eqn:Hm.
    + destruct (name_field_match_parts _ _ _ Hm)
        as (ws1 & ws2 & capture & Ht & _ & _ & _ & _ & ->).
      change (js "name") with [110; 97; 109; 101]%N in Ht |- *.
      cbn [app] in Ht. injection Ht as -> Ht.
      destruct r as [| y1 r]; [discriminate Ht |]. injection Ht as -> Ht.
      destruct r as [| y2 r]; [discriminate Ht |]. injection Ht as -> Ht.
      destruct r as [| y3 r]; [discriminate Ht |]. injection Ht as -> Ht.
      destruct r as [| y4 r]; [discriminate Ht |]. injection Ht as -> Ht.
      destruct r as [| y5 r]; [cbn [app]; by eexists |].
      injection Ht as -> _. cbn in Hesc. discriminate Hesc.
    + destruct (IH c fuel Hesc) as [tail ->]; [cbn in Hlen; lia |]. by eexists.
Qed.

Lemma quote_unit_no_quote (h : bool) (c : N) (next : option N) :
  c <> dq -> dq ∉ quote_unit h c next.
Proof.
  intros Hc.
  assert (Hhex : dq ∉ [backslash; 117%N] ++ hex4 c).
  { assert (Hb : forallb (fun x => negb (x =? dq)%N) ([backslash; 117%N] ++ hex4 c)
                 = true) by (cbn; by rewrite !hex_digit_not_quote).
    intros H. apply list_elem_of_In in H. rewrite forallb_forall in Hb.
    apply Hb in H. by rewrite N.eqb_refl in H. }
  assert (Hplain : dq ∉ [c]).
  { intros H. apply list_elem_of_singleton in H. by symmetry in H. }
  assert (Hesc : forall x : N, x <> dq -> dq ∉ [backslash; x]).
  { intros x Hx H. apply elem_of_cons in H as [H | H]; [discriminate H |].
    apply list_elem_of_singleton in H. by symmetry in H. }
  unfold quote_unit.
  destruct (N.eqb_spec c dq); [done |].
  repeat match goal with
         | |- context [if ?b then _ else _] =>
             lazymatch b with
             | context [if _ then _ else _] => fail
             | _ => destruct b
             end
         | |- context [match ?o with Some _ => _ | None => _ end] => destruct o
         end; try done; by apply Hesc.
Qed.

Lemma quote_units_no_quote (h : bool) (s : jsstring) :
  dq ∉ s -> dq ∉ quote_units h s.
Proof.
  revert h. induction s as [| c s IH]; intros h Hs; cbn [quote_units].
  - apply not_elem_of_nil.
  - apply not_elem_of_cons in Hs as [Hc Hs].
    rewrite not_elem_of_app. split; [apply quote_unit_no_quote; congruence | by apply IH].
Qed.

(** The response transform on a text that begins with a [name] field with
    the prefix: the field loses the prefix, and the scan goes on behind
    the field. *)
Lemma strip_field_first (post n : jsstring) :
  n <> [] ->
  exists tail,
    strip_tool_prefix (name_field (TOOL_PREFIX ++ n) ++ post) = name_field n ++ tail /\
    (dq ∉ n -> tail = strip_tool_prefix post).
Proof.
  intros Hn.
  set (q := quote_units false n).
  set (NP := json_quote (js "name") ++ [colon; space]).
  assert (Hfield : name_field (TOOL_PREFIX ++ n) ++ post
                   = NP ++ (dq :: js "mcp_") ++ q ++ dq :: post).
  { unfold name_field, NP.
    change (json_quote (TOOL_PREFIX ++ n)) with ((dq :: js "mcp_") ++ q ++ [dq]).
    rewrite <- !app_assoc. reflexivity. }
  assert (Hname : forall tail, name_field n ++ tail = NP ++ dq :: q ++ dq :: tail).
  { intros tail. unfold name_field, NP, json_quote. fold q.
    rewrite <- !app_assoc. cbn [app]. by rewrite <- !app_assoc. }
  rewrite Hfield.
  destruct (name_field_match_field q post) as (capture & rest & Hmatch & Hcase).
  { by apply quote_units_nonempty. }
  { apply quote_units_escaped. }
  unfold strip_tool_prefix at 1.
  assert (Hne : NP ++ (dq :: js "mcp_") ++ q ++ dq :: post <> []) by done.
  rewrite (replace_all_match name_field_match _ _ _ Hne Hmatch).
  set (fuel := length (NP ++ (dq :: js "mcp_") ++ q ++ dq :: post) - 1).
  assert (Hfuel : length rest <= fuel).
  { apply name_field_match_shorter in Hmatch.
    change (length rest < length (NP ++ (dq :: js "mcp_") ++ q ++ dq :: post)) in Hmatch.
    subst fuel. lia. }
  destruct Hcase as [[-> ->] | (r' & Hq & -> & Hesc)].
  - exists (strip_tool_prefix post). split; [| done].
    rewrite (replace_from_fuel _ name_field_match_shorter) by done.
    transitivity (NP ++ dq :: q ++ dq :: strip_tool_prefix post);
      [| exact (eq_sym (Hname _))].
    unfold NP. rewrite <- !app_assoc. cbn [app]. by rewrite <- !app_assoc.
  - destruct (scan_escaped dq r' post fuel Hesc Hfuel) as [tail ->].
    exists tail. split.
    + transitivity (NP ++ dq :: q ++ dq :: tail); [| exact (eq_sym (Hname _))].
      unfold NP. rewrite Hq, <- !app_assoc. cbn [app]. by rewrite <- !app_assoc.
    + intros Hquote. exfalso.
      apply (quote_units_no_quote false) in Hquote. fold q in Hquote.
      apply Hquote. rewrite Hq. apply elem_of_app. right. left.
Qed.

(** The same inside a text: what precedes the field is transformed as it
    is alone, provided it does not end with an unfinished field. *)
Lemma strip_field_in_text (pre post n : jsstring) :
  n <> [] -> ends_finished pre ->
  exists tail,
    strip_tool_prefix (pre ++ name_field (TOOL_PREFIX ++ n) ++ post)
    = strip_tool_prefix pre ++ name_field n ++ tail /\
    (dq ∉ n -> tail = strip_tool_prefix post).
Proof.
  intros Hn Hpre.
  destruct (strip_field_first post n Hn) as (tail & Hfirst & Htail).
  exists tail. split; [| done].
  rewrite <- Hfirst.
  apply (strip_before_field pre
           (js "ame" ++ [dq; colon; space] ++ json_quote (TOOL_PREFIX ++ n) ++ post)
           Hpre).
Qed.

Lemma strip_fields_text (segments : list (jsstring * jsstring)) (last : jsstring) :
  Forall (fun segment =>
            ends_finished segment.1 /\ segment.2 <> [] /\ (dq ∉ segment.2))
         segments ->
  strip_tool_prefix (fields_text TOOL_PREFIX segments last)
  = fields_text []
      (map (fun segment => (strip_tool_prefix segment.1, segment.2)) segments)
      (strip_tool_prefix last).
Proof.
  intros Hall. induction Hall as [| [before n] segments (Hb & Hn & Hq) _ IH];
    cbn [fields_text fst snd map] in *; [done |].
  destruct (strip_field_in_text before (fields_text TOOL_PREFIX segments last) n Hn Hb)
    as (tail & -> & Htail).
  by rewrite (Htail Hq), IH.
Qed.

(** C2, as the code has it: the transformer succeeds on well-formed bodies;
    every non-empty tool name [n] found as the [name] of an element of
    [tools], or of a [tool_use] block of a message's [content], comes out as
    the prefix followed by [n]; and the buffered response transform turns
    the JSON text of the field [name] holding the prefix followed by [n]
    back into the text of the field holding [n].  It does so wherever the
    field stands in a text, provided the text before the field does not
    end with an unfinished field (the word [name] in quotes, a colon, a
    quote, the prefix and some characters without a closing quote): what
    precedes the field is transformed as it is alone, the field is
    replaced by the field holding [n], and when [n] holds no double quote
    what follows is transformed as it is alone.  A text in which the
    prefix does not occur is such a text before the field, and stays as it
    is.  So in a text with any number of such fields every field loses its
    prefix. *)
Theorem tool_names_round_trip :
  (forall body, well_formed_body body -> exists body', sanitizeBody body = Ok body') /\
  (forall body body' tools extra i tool n,
     sanitizeBody body = Ok body' ->
     get_prop (Some body) (js "tools") = Ok (Some (VArr tools extra)) ->
     tools !! i = Some tool ->
     get_prop (Some tool) (js "name") = Ok (Some (VStr n)) ->
     n <> [] ->
     exists tools' tool',
       get_prop (Some body') (js "tools") = Ok (Some (VArr tools' [])) /\
       tools' !! i = Some tool' /\
       get_prop (Some tool') (js "name") = Ok (Some (VStr (TOOL_PREFIX ++ n)))) /\
  (forall body body' messages extra j msg blocks bextra k block n,
     sanitizeBody body = Ok body' ->
     get_prop (Some body) (js "messages") = Ok (Some (VArr messages extra)) ->
     messages !! j = Some msg ->
     get_prop (Some msg) (js "content") = Ok (Some (VArr blocks bextra)) ->
     blocks !! k = Some block ->
     get_prop (Some block) (js "type") = Ok (Some (VStr (js "tool_use"))) ->
     get_prop (Some block) (js "name") = Ok (Some (VStr n)) ->
     n <> [] ->
     exists messages' msg' blocks' block',
       get_prop (Some body') (js "messages") = Ok (Some (VArr messages' [])) /\
       messages' !! j = Some msg' /\
       get_prop (Some msg') (js "content") = Ok (Some (VArr blocks' [])) /\
       blocks' !! k = Some block' /\
       get_prop (Some block') (js "name") = Ok (Some (VStr (TOOL_PREFIX ++ n)))) /\
  (forall n, n <> [] ->
     strip_tool_prefix (name_field (TOOL_PREFIX ++ n)) = name_field n) /\
  (forall pre post n,
     n <> [] -> ends_finished pre ->
     exists tail,
       strip_tool_prefix (pre ++ name_field (TOOL_PREFIX ++ n) ++ post)
       = strip_tool_prefix pre ++ name_field n ++ tail /\
       (dq ∉ n -> tail = strip_tool_prefix post)) /\
  (forall pre,
     occurs TOOL_PREFIX pre = false ->
     ends_finished pre /\ strip_tool_prefix pre = pre) /\
  (forall segments last,
     Forall (fun segment =>
               ends_finished segment.1 /\ segment.2 <> [] /\ (dq ∉ segment.2))
            segments ->
     strip_tool_prefix (fields_text TOOL_PREFIX segments last)
     = fields_text []
         (map (fun segment => (strip_tool_prefix segment.1, segment.2)) segments)
         (strip_tool_prefix last)).
Proof.
  split; [exact sanitizeBody_total |].
  split; [| split; [| split; [exact strip_name_field |
                              split; [exact strip_field_in_text |
                                      split; [| exact strip_fields_text]]]]].
  3: { intros pre Hpre.
       split; [by apply no_prefix_ends_finished | by apply strip_without_prefix]. }
  - intros body body' tools extra i tool n Hsan Hget Hi Hname Hn.
    destruct (sanitizeBody_tools _ _ _ _ Hsan Hget) as (tools' & Hmap & Hget').
    destruct (map_outcome_lookup _ _ _ _ _ Hmap Hi) as (tool' & Hi' & Htool).
    destruct (prefix_tool_named tool n Hname Hn) as (tool'' & Htool'' & Hname').
    rewrite Htool in Htool''. injection Htool'' as <-.
    by exists tools', tool'.
  - intros body body' messages extra j msg blocks bextra k block n
      Hsan Hget Hj Hcontent Hk Htype Hname Hn.
    destruct (sanitizeBody_messages _ _ _ _ Hsan Hget) as (messages' & Hmap & Hget').
    destruct (map_outcome_lookup _ _ _ _ _ Hmap Hj) as (msg' & Hj' & Hmsg).
    destruct (prefix_message_content _ _ _ _ Hmsg Hcontent)
      as (blocks' & Hmapb & Hcontent').
    destruct (map_outcome_lookup _ _ _ _ _ Hmapb Hk) as (block' & Hk' & Hblock).
    destruct (prefix_block_named block n Htype Hname Hn) as (block'' & Hblock'' & Hname').
    rewrite Hblock in Hblock''. injection Hblock'' as <-.
    by exists messages', msg', blocks', block'.
Qed.

(** The scenario of the specification, and an answer that names two
    tools: both names lose the prefix. *)
Lemma tool_names_round_trip_witness :
  (exists (tools' : list value) (tool' : value),
     tools' !! 0%nat = Some tool' /\
     get_prop (Some tool') (js "name") = Ok (Some (VStr (TOOL_PREFIX ++ js "search")))) /\
  strip_tool_prefix (name_field (TOOL_PREFIX ++ js "search")) = name_field (js "search") /\
  strip_tool_prefix
    (js "[{" ++ name_field (js "mcp_search") ++ js "},{"
     ++ name_field (js "mcp_read") ++ js "}]")
  = js "[{" ++ name_field (js "search") ++ js "},{" ++ name_field (js "read") ++ js "}]".
Proof.
  destruct tool_names_round_trip
    as (Htotal & Htools & _ & Hstrip & _ & Hplain & Hfields).
  destruct (Htotal sample_body) as [body' Hbody'].
  { vm_compute. repeat constructor. }
  split; [| split].
  - destruct (Htools sample_body body' [VObj [(js "name", VStr (js "search"))]] []
                0%nat (VObj [(js "name", VStr (js "search"))]) (js "search") Hbody')
      as (tools' & tool' & _ & Hi & Hname);
      [vm_compute; reflexivity | reflexivity | vm_compute; reflexivity | discriminate |].
    exists tools', tool'. split; [exact Hi | exact Hname].
  - apply Hstrip. discriminate.
  - refine (eq_trans
              (Hfields [(js "[{", js "search"); (js "},{", js "read")] (js "}]") _) _).
    + repeat constructor; try discriminate;
        first [ apply Hplain; reflexivity | apply (other_forallb dq); reflexivity ].
    + vm_compute. reflexivity.
Defined.

(** C2 as stated fails in two ways.  A tool whose [name] is the empty
    string is a tool name occurring in [tools], and it comes out as the
    empty string, not as the prefix.  And a text may contain the field
    with the prefix and yet keep it: after an unfinished field with the
    prefix, the match that begins there ends at the first quote of the
    field, and the field is read no more. *)
Lemma tool_names_round_trip_fails :
  ~ (forall body body' tools extra i tool n,
       sanitizeBody body = Ok body' ->
       get_prop (Some body) (js "tools") = Ok (Some (VArr tools extra)) ->
       tools !! i = Some tool ->
       get_prop (Some tool) (js "name") = Ok (Some (VStr n)) ->
       exists tools' tool',
         get_prop (Some body') (js "tools") = Ok (Some (VArr tools' [])) /\
         tools' !! i = Some tool' /\
         get_prop (Some tool') (js "name") = Ok (Some (VStr (TOOL_PREFIX ++ n)))) /\
  ~ (forall pre post n,
       n <> [] ->
       occurs (name_field n)
         (strip_tool_prefix (pre ++ name_field (TOOL_PREFIX ++ n) ++ post)) = true).
Proof.
  split.
  - intros H.
    destruct (H (VObj [(js "tools", VArr [VObj [(js "name", VStr [])]] [])])
                (VObj [(js "tools", VArr [VObj [(js "name", VStr [])]] [])])
                [VObj [(js "name", VStr [])]] [] 0%nat
                (VObj [(js "name", VStr [])]) [])
      as (tools' & tool' & Hget & Hi & Hname);
      [vm_compute; reflexivity | vm_compute; reflexivity | reflexivity
      | vm_compute; reflexivity |].
    vm_compute in Hget. injection Hget as <-.
    vm_compute in Hi. injection Hi as <-.
    vm_compute in Hname. discriminate Hname.
  - intros H.
    specialize (H (json_quote (js "name") ++ js ": " ++ [dq] ++ js "mcp_x") []
                  (js "search") ltac:(discriminate)).
    vm_compute in H. discriminate H.
Qed.


(** ** Streams without the prefix *)

Lemma decoded_points_concat (u : utf8_decoder) (chunks : list (list N)) :
  concat (decoded_points u chunks) = (decode_bytes u (concat chunks)).2.
Proof.
  revert u. induction chunks as [| chunk chunks IH]; intros u; [done |].
  cbn [concat decoded_points]. rewrite decode_bytes_app.
  destruct (decode_bytes u chunk) as [u1 cps1]. cbn [concat]. rewrite IH.
  by destruct (decode_bytes u1 (concat chunks)).
Qed.

(** Unless the stream begins with a byte-order mark, the texts of the
    chunks are the code points of the chunks written in UTF-16. *)
Lemma decoded_texts_points (u : utf8_decoder) (seen : bool) (chunks : list (list N)) :
  seen = true \/ head (concat (decoded_points u chunks)) <> Some BOM ->
  decoded_texts {| utf8 := u; bom_seen := seen |} chunks
  = map (flat_map utf16_units) (decoded_points u chunks).
Proof.
  revert u seen. induction chunks as [| chunk chunks IH]; intros u seen Hbom; [done |].
  cbn [decoded_texts decoded_points] in *. unfold decode_stream. cbn [utf8 bom_seen].
  destruct (decode_bytes u chunk) as [u1 cps1]. cbn [concat map] in *.
  destruct cps1 as [| cp cps1]; cbn [drop_bom].
  - f_equal. by apply IH.
  - destruct seen.
    + f_equal. apply IH. by left.
    + destruct Hbom as [? | Hbom]; [done |]. cbn in Hbom.
      destruct (N.eqb_spec cp BOM) as [-> | _]; [done |].
      f_equal. apply IH. by left.
Qed.

Lemma encode_scalars (pts : list N) :
  Forall is_scalar pts ->
  TextEncoder_encode (flat_map utf16_units pts) = flat_map encode_scalar pts.
Proof.
  induction 1 as [| cp pts Hcp _ IH]; [done |].
  cbn [flat_map]. by rewrite encode_units, IH.
Qed.

(** Chunk by chunk, code points without the prefix in them go through the
    substitution and the encoder as their UTF-8 encoding. *)
Lemma relay_points (points : list (list N)) :
  Forall is_scalar (concat points) ->
  occurs TOOL_PREFIX (flat_map utf16_units (concat points)) = false ->
  concat (map (fun text => TextEncoder_encode (strip_tool_prefix text))
            (map (flat_map utf16_units) points))
  = flat_map encode_scalar (concat points).
Proof.
  induction points as [| pts points IH]; [done |].
  cbn [concat map]. rewrite Forall_app, !flat_map_app. intros [Hpts Hrest] Hno.
  assert (Hhere : occurs TOOL_PREFIX (flat_map utf16_units pts) = false).
  { destruct (occurs TOOL_PREFIX (flat_map utf16_units pts)) eqn:Ho; [| done].
    by rewrite (occurs_app_r _ _ _ Ho) in Hno. }
  assert (Hlater : occurs TOOL_PREFIX (flat_map utf16_units (concat points)) = false).
  { destruct (occurs TOOL_PREFIX (flat_map utf16_units (concat points))) eqn:Ho; [| done].
    by rewrite (occurs_app_l _ _ _ Ho) in Hno. }
  by rewrite (strip_without_prefix _ Hhere), (encode_scalars pts Hpts), IH.
Qed.

(** The transformed stream of a body whose decoding holds neither a leading
    byte-order mark nor the prefix: the encoding of the decoded code points,
    however the body is cut into chunks. *)
Lemma stream_relay (chunks : list (list N)) (cps : list N) :
  (decode_bytes idle (concat chunks)).2 = cps ->
  Forall is_scalar cps ->
  head cps <> Some BOM ->
  occurs TOOL_PREFIX (flat_map utf16_units cps) = false ->
  concat (transformStreamingResponse chunks) = flat_map encode_scalar cps.
Proof.
  intros Hdec Hscalar Hbom Hno.
  rewrite <- decoded_points_concat in Hdec. subst cps.
  unfold transformStreamingResponse. rewrite pull_all_decoded by lia.
  unfold new_TextDecoder. rewrite decoded_texts_points by (by right).
  by apply relay_points.
Qed.

(** The decoder reads the encoding of scalar values back. *)
Lemma decode_encoded (cps : list N) :
  Forall is_scalar cps ->
  decode_bytes idle (flat_map encode_scalar cps) = (idle, cps).
Proof.
  induction 1 as [| cp cps Hcp _ IH]; [done |].
  cbn [flat_map]. rewrite decode_bytes_app.
  assert (Hone : decode_bytes idle (encode_scalar cp) = (idle, [cp])).
  { destruct (N.lt_ge_cases cp 128) as [Hlt | Hge].
    - unfold encode_scalar. destruct (N.ltb_spec cp 128); [| lia].
      cbn [decode_bytes]. rewrite decode_byte_idle. unfold lead_byte.
      destruct (N.leb_spec cp 127); [done | lia].
    - destruct (decode_split_scalar cp [] (encode_scalar cp) Hcp Hge eq_refl)
        as (mid & Hmid & Hrest).
      + unfold encode_scalar. by repeat destruct (_ <? _)%N.
      + cbn in Hmid. by injection Hmid as <-. }
  by rewrite Hone, IH.
Qed.

(** X15: a stream without the prefix passes through unchanged.  If the
    body is the UTF-8 encoding of scalar values that do not begin with
    U+FEFF and whose text does not hold [mcp_], then, however the body is
    cut into chunks (also in the middle of a character), the output chunks
    put together are the body, byte for byte. *)
Theorem stream_without_prefix_unchanged (cps : list N) (chunks : list (list N)) :
  Forall is_scalar cps ->
  head cps <> Some BOM ->
  occurs TOOL_PREFIX (flat_map utf16_units cps) = false ->
  concat chunks = flat_map encode_scalar cps ->
  concat (transformStreamingResponse chunks) = concat chunks.
Proof.
  intros Hscalar Hbom Hno Hbody. rewrite Hbody.
  apply stream_relay; [| done | done | done].
  by rewrite Hbody, decode_encoded.
Qed.

(** The letter n, an e with acute accent, a space and the euro sign, cut
    inside both characters beyond ASCII. *)
Lemma stream_without_prefix_unchanged_witness :
  concat (transformStreamingResponse [[110; 195]; [169; 32; 226; 130]; [172]]%N)
  = [110; 195; 169; 32; 226; 130; 172]%N.
Proof.
  refine (stream_without_prefix_unchanged [110; 233; 32; 8364]%N
            [[110; 195]; [169; 32; 226; 130]; [172]]%N _ _ _ _);
    [repeat constructor; vm_compute; tauto | discriminate
    | vm_compute; reflexivity | vm_compute; reflexivity].
Defined.

(** One more byte of a sequence that it does not complete. *)
Ltac continue_sequence :=
  rewrite continuation_byte by (cbn; decide_tests; lia);
  cbn [bytes_seen bytes_needed code_point lower_boundary upper_boundary];
  match goal with
  | |- context [(?a + 1 =? ?b)%N] => change (a + 1 =? b)%N with false
  end;
  cbv beta iota.

(** A proper, non-empty beginning of the encoding of a scalar value leaves
    the decoder waiting, without output. *)
Lemma decode_proper_prefix (cp : N) (b1 b2 : list N) :
  is_scalar cp -> (128 <= cp)%N ->
  encode_scalar cp = b1 ++ b2 -> b1 <> [] -> b2 <> [] ->
  exists mid, decode_bytes idle b1 = (mid, []) /\ bytes_needed mid <> 0%N.
Proof.
  intros Hscalar Hcp Hsplit Hb1 Hb2. unfold encode_scalar in Hsplit.
  destruct (N.ltb_spec cp 128) as [? | _]; [lia |].
  destruct (N.ltb_spec cp 2048) as [Hlt2 | Hge2];
    [| destruct (N.ltb_spec cp 65536) as [Hlt3 | Hge3]].
  - destruct b1 as [| x1 [| x2 [| x3 b1]]]; cbn in Hsplit; try done.
    + injection Hsplit as <- <-. cbn [decode_bytes].
      rewrite decode_byte_idle, lead_byte_2 by lia. eexists. split; [reflexivity | done].
    + injection Hsplit as _ _ <-. done.
  - unfold is_scalar in Hscalar.
    destruct b1 as [| x1 [| x2 [| x3 [| x4 b1]]]]; cbn in Hsplit; try done.
    + injection Hsplit as <- <-. cbn [decode_bytes].
      rewrite decode_byte_idle, lead_byte_3 by lia. eexists. split; [reflexivity | done].
    + injection Hsplit as <- <- <-. cbn [decode_bytes].
      rewrite decode_byte_idle, lead_byte_3 by lia. cbv beta iota.
      continue_sequence. eexists. split; [reflexivity | done].
    + injection Hsplit as _ _ _ <-. done.
  - assert (Hmax : (cp <= 1114111)%N) by (unfold is_scalar in Hscalar; lia).
    destruct b1 as [| x1 [| x2 [| x3 [| x4 [| x5 b1]]]]]; cbn in Hsplit; try done.
    + injection Hsplit as <- <-. cbn [decode_bytes].
      rewrite decode_byte_idle, lead_byte_4 by lia. eexists. split; [reflexivity | done].
    + injection Hsplit as <- <- <-. cbn [decode_bytes].
      rewrite decode_byte_idle, lead_byte_4 by lia. cbv beta iota.
      continue_sequence. eexists. split; [reflexivity | done].
    + injection Hsplit as <- <- <- <-. cbn [decode_bytes].
      rewrite decode_byte_idle, lead_byte_4 by lia. cbv beta iota.
      continue_sequence. continue_sequence.
      eexists. split; [reflexivity | done].
    + injection Hsplit as _ _ _ _ <-. done.
Qed.

(** X16: a body that ends in the middle of a character.  If the body is
    the encoding of scalar values (without a leading U+FEFF and without the
    prefix) followed by a proper beginning of the encoding of one more
    character, the transformed stream delivers the complete characters and
    nothing for the cut one, however the body is chunked: the pending bytes
    are never flushed.  The buffered path, which decodes the whole body at
    once, ends the text with U+FFFD instead. *)
Theorem truncated_body_tail (cps : list N) (chunks : list (list N))
    (cp : N) (b1 b2 : list N) :
  Forall is_scalar cps ->
  head cps <> Some BOM ->
  occurs TOOL_PREFIX (flat_map utf16_units cps) = false ->
  is_scalar cp -> (128 <= cp)%N ->
  encode_scalar cp = b1 ++ b2 -> b1 <> [] -> b2 <> [] ->
  concat chunks = flat_map encode_scalar cps ++ b1 ->
  concat (transformStreamingResponse chunks) = flat_map encode_scalar cps /\
  decode_all (concat chunks) = flat_map utf16_units cps ++ [REPLACEMENT].
Proof.
  intros Hscalar Hbom Hno Hcp Hge Hsplit Hb1 Hb2 Hbody.
  destruct (decode_proper_prefix cp b1 b2 Hcp Hge Hsplit Hb1 Hb2) as (mid & Hmid & Hpending).
  assert (Hdec : decode_bytes idle (concat chunks) = (mid, cps)).
  { by rewrite Hbody, decode_bytes_app, decode_encoded, Hmid, app_nil_r. }
  split.
  - apply stream_relay; [by rewrite Hdec | done | done | done].
  - unfold decode_all. rewrite Hdec.
    apply N.eqb_neq in Hpending. rewrite Hpending.
    assert (Hkeep : drop_bom false (cps ++ [REPLACEMENT]) = (true, cps ++ [REPLACEMENT])).
    { destruct cps as [| c cps']; [reflexivity |]. cbn.
      destruct (N.eqb_spec c BOM) as [-> | _]; [by destruct Hbom | done]. }
    rewrite Hkeep. cbn [snd]. by rewrite flat_map_app.
Qed.

(** The bytes of [ok] followed by the first two of the three bytes of the
    euro sign. *)
Lemma truncated_body_tail_witness :
  concat (transformStreamingResponse [[111]; [107; 226; 130]]%N) = [111; 107]%N /\
  decode_all [111; 107; 226; 130]%N = [111; 107; 65533]%N.
Proof.
  refine (truncated_body_tail [111; 107]%N [[111]; [107; 226; 130]]%N 8364%N
            [226; 130]%N [172]%N _ _ _ _ _ _ _ _ _);
    [repeat constructor; vm_compute; tauto | discriminate | vm_compute; reflexivity
    | vm_compute; tauto | vm_compute; discriminate | vm_compute; reflexivity
    | discriminate | discriminate | vm_compute; reflexivity].
Defined.

(** ** Credential failures and the provisioned access token *)

(** X17: every failure of [getValidToken] becomes a 500 answer.  For an
    authorised POST, whatever made [getValidToken] throw (a failing store,
    an unreachable token endpoint, a refused exchange, an answer that is not
    JSON), the handler logs the failure and answers 500 with the JSON
    payload carrying the text of the error; the body of the request is not
    read, so this also holds for a body that does not parse, and nothing
    more is sent. *)
Theorem token_failure_is_server_error (request : Request) (env : Env)
    (w w1 : World) (e : exn) :
  req_method request = js "POST" ->
  validateAuth request env = true ->
  getValidToken env w = (Throw e, w1) ->
  handleMessages request env w =
    (Ok (token_error_response e),
     record (EvLog (js "Failed to get access token: " ++ String_of_exn e)) w1) /\
  status (token_error_response e) = 500%Z /\
  body (token_error_response e)
  = BodyText (stringify (VObj [(js "error", VStr (js "Token error"));
                               (js "message", VStr (String_of_exn e))])).
Proof.
  intros Hm Ha Hget. split; [| done].
  unfold handleMessages. rewrite Hm, str_eqb_refl, Ha. cbn [negb].
  unfold bind at 1. unfold try_catch, bind at 1. rewrite Hget.
  unfold bind, lift, ret, console_log.
  by rewrite new_Response_token_error.
Qed.

Lemma token_failure_is_server_error_witness :
  handleMessages (sample_post None) sample_env failing_store_world
  = (Ok (token_error_response (Error (js "KV GET failed: 500"))),
     record (EvLog (js "Failed to get access token: "
                    ++ String_of_exn (Error (js "KV GET failed: 500"))))
       (record (EvKvGet TOKENS_KEY) failing_store_world)).
Proof.
  refine (proj1 (token_failure_is_server_error (sample_post None) sample_env
                   failing_store_world (record (EvKvGet TOKENS_KEY) failing_store_world)
                   (Error (js "KV GET failed: 500")) _ _ _));
    [reflexivity | vm_compute; reflexivity | reflexivity].
Defined.

(** With nothing cached the refresh exchange is attempted, with the
    provisioned refresh token. *)
Lemma getValidToken_first_request (env : Env) (w : World) :
  kv_fault w = None ->
  kv w !! TOKENS_KEY = None ->
  exists evs,
    trace (getValidToken env w).2
    = trace w ++ [EvKvGet TOKENS_KEY; EvLog (js "Refreshing access token...");
                  EvFetch (fallback_request env)] ++ evs.
Proof.
  intros Hfault Hkv.
  rewrite (getValidToken_due env w Hfault) by (intros c Hc; congruence).
  rewrite Hkv. cbn [refresh_credential].
  unfold bind, console_log, refreshAccessToken, bind, fetch, TOKEN_STORE_put,
    Date_now, ret, throw.
  cbn [token_endpoint record].
  change (refresh_request (CLAUDE_REFRESH_TOKEN env) (CLAUDE_OAUTH_CLIENT_ID env))
    with (fallback_request env).
  assert (Hev : forall w0 evs,
            trace w0 = trace w ++ [EvKvGet TOKENS_KEY;
                                   EvLog (js "Refreshing access token...");
                                   EvFetch (fallback_request env)] ++ evs ->
            exists evs',
              trace w0 = trace w ++ [EvKvGet TOKENS_KEY;
                                     EvLog (js "Refreshing access token...");
                                     EvFetch (fallback_request env)] ++ evs')
    by eauto.
  assert (Hthree : trace (record (EvFetch (fallback_request env))
                            (record (EvLog (js "Refreshing access token..."))
                               (record (EvKvGet TOKENS_KEY) w)))
                   = trace w ++ [EvKvGet TOKENS_KEY;
                                 EvLog (js "Refreshing access token...");
                                 EvFetch (fallback_request env)]).
  { cbn. by rewrite <- !app_assoc. }
  destruct (token_endpoint w (fallback_request env)) as [e | a].
  { apply (Hev _ []). cbn [snd]. by rewrite Hthree, app_nil_r. }
  destruct (negb (status_ok (token_status a))).
  { apply (Hev _ []). cbn [snd]. by rewrite Hthree, app_nil_r. }
  destruct (token_json a) as [data |].
  - cbn [kv_fault record tick]. rewrite Hfault.
    eapply (Hev _ [_]). cbn [snd store trace tick record].
    rewrite <- !app_assoc. reflexivity.
  - apply (Hev _ []). cbn [snd]. by rewrite Hthree, app_nil_r.
Qed.

(** X18: the provisioned access token is never used.  Replacing
    [CLAUDE_ACCESS_TOKEN] in the configuration by any other value changes
    neither the answer of the worker nor its effects, whatever the request
    and the world: credentials only come from the store or from a refresh
    exchange.  With a readable store that holds no record, [getValidToken]
    always starts a refresh exchange, carrying [CLAUDE_REFRESH_TOKEN]. *)
Theorem access_token_secret_unused (request : Request) (env : Env)
    (token : jsstring) (w : World) :
  worker_fetch request (with_access_token env token) w = worker_fetch request env w /\
  (kv_fault w = None -> kv w !! TOKENS_KEY = None ->
   exists evs,
     trace (getValidToken env w).2
     = trace w ++ [EvKvGet TOKENS_KEY; EvLog (js "Refreshing access token...");
                   EvFetch (fallback_request env)] ++ evs).
Proof. split; [reflexivity | apply getValidToken_first_request]. Qed.

Lemma access_token_secret_unused_witness :
  exists evs,
    trace (getValidToken sample_env (sample_world 1000000 ∅ granted)).2
    = [EvKvGet TOKENS_KEY; EvLog (js "Refreshing access token...");
       EvFetch (fallback_request sample_env)] ++ evs.
Proof.
  refine (proj2 (access_token_secret_unused (sample_post None) sample_env []
                   (sample_world 1000000 ∅ granted)) _ _); reflexivity.
Defined.

(** ** The capability flags *)

Lemma split_pieces (sep : N) (s : jsstring) :
  Forall (fun p => sep ∉ p) (split sep s).
Proof.
  induction s as [| c s IH]; cbn.
  - repeat constructor. apply not_elem_of_nil.
  - destruct (N.eqb_spec c sep) as [-> | Hne].
    + constructor; [apply not_elem_of_nil | done].
    + destruct (split sep s) as [| h t]; [repeat constructor |].
      * rewrite not_elem_of_cons. split; [done | apply not_elem_of_nil].
      * inversion IH as [| ? ? Hh Ht]; subst. constructor; [| done].
        rewrite not_elem_of_cons. by split.
Qed.

Lemma elem_of_drop_while (p : N -> bool) (s : jsstring) (x : N) :
  x ∈ drop_while p s -> x ∈ s.
Proof.
  induction s as [| c s IH]; cbn; [done |].
  destruct (p c); [| done]. intros H. right. by apply IH.
Qed.

Lemma elem_of_rev (s : jsstring) (x : N) : x ∈ rev s <-> x ∈ s.
Proof. by rewrite !list_elem_of_In, <- in_rev. Qed.

Lemma elem_of_trim (s : jsstring) (x : N) : x ∈ trim s -> x ∈ s.
Proof.
  unfold trim. rewrite elem_of_rev. intros H.
  apply elem_of_drop_while in H. rewrite elem_of_rev in H.
  by apply elem_of_drop_while in H.
Qed.

Lemma drop_while_fixed (p : N -> bool) (s : jsstring) :
  match s with [] => True | c :: _ => p c = false end -> drop_while p s = s.
Proof. destruct s as [| c s]; [done |]. cbn. by intros ->. Qed.

(** Trimming a trimmed text changes nothing. *)
Lemma trim_idem (s : jsstring) : trim (trim s) = trim s.
Proof.
  unfold trim.
  set (u := drop_while is_js_space s).
  set (v := drop_while is_js_space (rev u)).
  assert (Hu : match u with [] => True | c :: _ => is_js_space c = false end)
    by apply drop_while_head.
  assert (Hv : match v with [] => True | c :: _ => is_js_space c = false end)
    by apply drop_while_head.
  assert (Hhead : drop_while is_js_space (rev v) = rev v).
  { apply drop_while_fixed.
    pose proof (take_drop_while is_js_space (rev u)) as Hsplit. fold v in Hsplit.
    apply (f_equal (@rev N)) in Hsplit. rewrite rev_involutive, rev_app_distr in Hsplit.
    destruct (rev v) as [| c r] eqn:Hr; [done |].
    rewrite Hsplit in Hu. done. }
  rewrite Hhead, rev_involutive. f_equal. by apply drop_while_fixed.
Qed.

Lemma split_join (sep : N) (parts : list jsstring) :
  parts <> [] -> Forall (fun p => sep ∉ p) parts ->
  split sep (join [sep] parts) = parts.
Proof.
  intros Hne Hall. induction Hall as [| p parts Hp Hparts IH]; [done |].
  assert (Hother : forallb (fun c => negb (c =? sep)%N) p = true)
    by (by apply other_forallb).
  destruct parts as [| q parts].
  - cbn [join]. rewrite split_unfold.
    destruct (take_while_app (fun c => negb (c =? sep)%N) p [] Hother I) as [Ht Hd].
    rewrite app_nil_r in Ht, Hd. by rewrite Ht, Hd.
  - change (join [sep] (p :: q :: parts)) with (p ++ [sep] ++ join [sep] (q :: parts)).
    rewrite split_unfold.
    destruct (take_while_app (fun c => negb (c =? sep)%N) p ([sep] ++ join [sep] (q :: parts))
                Hother) as [Ht Hd].
    { cbn. by rewrite N.eqb_refl. }
    rewrite Ht, Hd. cbn [app]. f_equal. by apply IH.
Qed.

Lemma incomingBetasList_ok (incomingBeta : option jsstring) :
  Forall flag_ok (incomingBetasList incomingBeta).
Proof.
  unfold incomingBetasList. destruct incomingBeta as [s |]; [| constructor].
  destruct (nonempty s); [| constructor].
  pose proof (split_pieces comma s) as Hpieces.
  induction Hpieces as [| p ps Hp _ IH]; cbn; [constructor |].
  destruct (nonempty (trim p)) eqn:Hne; [| done].
  constructor; [| done]. split; [| split].
  - unfold nonempty in Hne. apply negb_true_iff in Hne. by apply str_eqb_false.
  - intros Hin. by apply elem_of_trim in Hin.
  - apply trim_idem.
Qed.

Lemma REQUIRED_BETA_FLAGS_ok : Forall flag_ok REQUIRED_BETA_FLAGS.
Proof.
  unfold REQUIRED_BETA_FLAGS.
  constructor; [| constructor; [| constructor]];
    (split; [discriminate | split; [apply (other_forallb comma) |]]); reflexivity.
Qed.

Lemma merged_flags_ok (incomingBeta : option jsstring) :
  Forall flag_ok (merged_flags incomingBeta).
Proof.
  unfold merged_flags. apply Forall_app. split; [apply REQUIRED_BETA_FLAGS_ok |].
  apply Forall_forall. intros f Hf.
  apply list_elem_of_filter in Hf as [_ Hf].
  rewrite elem_of_distinct_in_order in Hf.
  pose proof (incomingBetasList_ok incomingBeta) as Hall.
  rewrite Forall_forall in Hall. by apply Hall.
Qed.

(** Reading back a joined list of flags gives the list. *)
Lemma incomingBetasList_join (flags : list jsstring) :
  flags <> [] -> Forall flag_ok flags ->
  incomingBetasList (Some (join [comma] flags)) = flags.
Proof.
  intros Hne Hok. unfold incomingBetasList.
  assert (Hjoin : nonempty (join [comma] flags) = true).
  { destruct Hok as [| f fs (Hf & _) _]; [done |].
    destruct f as [| c f]; [done |]. by destruct fs. }
  rewrite Hjoin, split_join; [| done |].
  - clear Hne Hjoin. induction Hok as [| f fs (Hf & _ & Htrim) _ IH]; [done |].
    cbn. rewrite Htrim. unfold nonempty at 1.
    apply str_eqb_false in Hf. rewrite Hf. cbn. by rewrite IH.
  - eapply Forall_impl; [exact Hok |]. by intros f (_ & ? & _).
Qed.

Lemma filter_none (P : jsstring -> Prop) `{!forall x, Decision (P x)}
    (l : list jsstring) :
  (forall x, x ∈ l -> ~ P x) -> filter P l = [].
Proof.
  induction l as [| x l IH]; intros Hnone; [done |].
  rewrite filter_cons_False by (apply Hnone; left).
  apply IH. intros y Hy. apply Hnone. by right.
Qed.

Lemma distinct_in_order_NoDup (xs : list jsstring) :
  NoDup xs -> distinct_in_order xs = xs.
Proof.
  induction 1 as [| x xs Hx _ IH]; [done |].
  cbn [distinct_in_order]. rewrite IH. f_equal.
  apply filter_all. by intros y Hy ->.
Qed.

Lemma NoDup_merged_flags (incomingBeta : option jsstring) :
  NoDup (merged_flags incomingBeta).
Proof.
  unfold merged_flags.
  rewrite <- (distinct_in_order_app _ _ NoDup_REQUIRED_BETA_FLAGS).
  apply NoDup_distinct_in_order.
Qed.

Lemma merged_flags_join (incomingBeta : option jsstring) :
  merged_flags (Some (join [comma] (merged_flags incomingBeta)))
  = merged_flags incomingBeta.
Proof.
  unfold merged_flags at 1.
  rewrite incomingBetasList_join; [| done | apply merged_flags_ok].
  rewrite distinct_in_order_NoDup by apply NoDup_merged_flags.
  unfold merged_flags. f_equal.
  rewrite filter_app.
  assert (Hnone : filter (fun f => f ∉ REQUIRED_BETA_FLAGS) REQUIRED_BETA_FLAGS = []).
  { apply filter_none. intros f Hf Hnot. by apply Hnot. }
  rewrite Hnone, app_nil_l.
  apply filter_all. intros f Hf. by apply list_elem_of_filter in Hf as [? _].
Qed.

Lemma join_comma_separated (pieces : list jsstring) :
  join [comma] pieces = comma_separated pieces.
Proof.
  induction pieces as [| p rest IH]; [done |].
  destruct rest as [| q r]; [done |].
  change (p ++ [comma] ++ join [comma] (q :: r)
          = p ++ [comma] ++ comma_separated (q :: r)).
  by rewrite IH.
Qed.

Lemma split_not_nil (sep : N) (s : jsstring) : split sep s <> [].
Proof.
  destruct s as [| c s]; cbn; [done |].
  destruct (c =? sep)%N; [done |]. by destruct (split sep s).
Qed.

(** Joining the pieces of a text gives the text. *)
Lemma join_split (sep : N) (s : jsstring) : join [sep] (split sep s) = s.
Proof.
  induction s as [| c s IH]; [done |]. cbn [split].
  pose proof (split_not_nil sep s) as Hne.
  destruct (split sep s) as [| h t]; [done |].
  destruct (N.eqb_spec c sep) as [-> | _].
  - change (join [sep] ([] :: h :: t)) with ([] ++ [sep] ++ join [sep] (h :: t)).
    by rewrite IH.
  - destruct t as [| q r].
    + cbn [join] in *. by rewrite IH.
    + change (join [sep] ((c :: h) :: q :: r))
        with ((c :: h) ++ [sep] ++ join [sep] (q :: r)).
      change (join [sep] (h :: q :: r))
        with (h ++ [sep] ++ join [sep] (q :: r)) in IH.
      by rewrite <- IH.
Qed.

Lemma elem_of_split (sep : N) (s p : jsstring) (x : N) :
  p ∈ split sep s -> x ∈ p -> x ∈ s.
Proof.
  revert p. induction s as [| c s IH]; intros p; cbn [split].
  - rewrite list_elem_of_singleton. by intros ->.
  - pose proof (split_not_nil sep s) as Hne.
    destruct (split sep s) as [| h t]; [done |].
    destruct (c =? sep)%N.
    + rewrite elem_of_cons. intros [-> | Hp] Hx; [by apply elem_of_nil in Hx |].
      right. by apply (IH p).
    + rewrite elem_of_cons. intros [-> | Hp] Hx.
      * apply elem_of_cons in Hx as [-> | Hx]; [left |].
        right. apply (IH h); [left | done].
      * right. apply (IH p); [by right | done].
Qed.

Lemma filter_nonempty (l : list jsstring) :
  List.filter nonempty l = filter (fun f => f <> []) l.
Proof.
  induction l as [| x l IH]; [done |]. cbn [List.filter].
  destruct x as [| c x].
  - rewrite filter_cons_False by (intros H; by apply H). exact IH.
  - rewrite filter_cons_True by done.
    unfold nonempty at 1, str_eqb. rewrite bool_decide_eq_false_2 by done.
    cbn [negb]. by rewrite IH.
Qed.

(** The flags that the code reads in a comma-separated value are the
    supplied flags of its pieces. *)
Lemma incomingBetasList_pieces (pieces : list jsstring) :
  Forall (fun p => comma ∉ p) pieces ->
  incomingBetasList (Some (comma_separated pieces)) = supplied_flags pieces.
Proof.
  intros Hall. rewrite <- join_comma_separated.
  unfold incomingBetasList, supplied_flags.
  destruct (nonempty (join [comma] pieces)) eqn:Hne.
  - destruct pieces as [| p ps]; [discriminate Hne |].
    rewrite split_join by done. apply filter_nonempty.
  - assert (Hj : join [comma] pieces = []).
    { unfold nonempty in Hne. apply negb_false_iff in Hne. by apply str_eqb_true. }
    destruct pieces as [| p [| q r]]; [done | |].
    + cbn [join] in Hj. subst p. reflexivity.
    + change (p ++ [comma] ++ join [comma] (q :: r) = []) in Hj.
      by destruct p.
Qed.

Lemma merged_flags_union (pieces : list jsstring) :
  Forall (fun p => comma ∉ p) pieces ->
  merged_flags (Some (comma_separated pieces)) = flag_union (supplied_flags pieces).
Proof.
  intros Hall. unfold merged_flags, flag_union.
  rewrite (incomingBetasList_pieces _ Hall).
  symmetry. apply distinct_in_order_app, NoDup_REQUIRED_BETA_FLAGS.
Qed.

Lemma Set_of_merged (incomingBeta : option jsstring) :
  Set_of (REQUIRED_BETA_FLAGS ++ incomingBetasList incomingBeta)
  = merged_flags incomingBeta.
Proof.
  rewrite Set_of_distinct. unfold merged_flags.
  apply distinct_in_order_app, NoDup_REQUIRED_BETA_FLAGS.
Qed.

(** *** Header values *)

Lemma http_whitespace_js_space (c : N) :
  is_js_space c = false -> is_http_whitespace c = false.
Proof.
  intros Hc. destruct (is_http_whitespace c) eqn:Hw; [| done].
  unfold is_http_whitespace in Hw. rewrite !orb_true_iff, !N.eqb_eq in Hw.
  by destruct Hw as [[[-> | ->] | ->] | ->].
Qed.

Lemma normalize_value_fixed (v : jsstring) :
  match v with [] => True | c :: _ => is_http_whitespace c = false end ->
  match rev v with [] => True | c :: _ => is_http_whitespace c = false end ->
  normalize_value v = v.
Proof.
  intros Hh Hl. unfold normalize_value.
  rewrite (drop_while_fixed _ v Hh), (drop_while_fixed _ (rev v) Hl).
  apply rev_involutive.
Qed.

Lemma elem_of_normalize_value (v : jsstring) (x : N) :
  x ∈ normalize_value v -> x ∈ v.
Proof.
  unfold normalize_value. rewrite elem_of_rev. intros H.
  apply elem_of_drop_while in H. rewrite elem_of_rev in H.
  by apply elem_of_drop_while in H.
Qed.

(** A trimmed flag ends with a character that is no white space. *)
Lemma flag_last (f : jsstring) :
  flag_ok f -> exists front c, f = front ++ [c] /\ is_js_space c = false.
Proof.
  intros (Hne & _ & Htrim). unfold trim in Htrim.
  pose proof (drop_while_head is_js_space (rev (drop_while is_js_space f))) as Hhead.
  destruct (drop_while is_js_space (rev (drop_while is_js_space f))) as [| c t].
  - by subst f.
  - exists (rev t), c. split; [| done]. by rewrite <- Htrim.
Qed.

Lemma join_last (flags : list jsstring) :
  flags <> [] -> Forall flag_ok flags ->
  exists front c, join [comma] flags = front ++ [c] /\ is_js_space c = false.
Proof.
  intros Hne Hall. induction Hall as [| f fs Hf Hfs IH]; [done |].
  destruct fs as [| q r]; [by apply flag_last |].
  destruct IH as (front & c & Hj & Hc); [done |].
  exists (f ++ [comma] ++ front), c. split; [| done].
  change (join [comma] (f :: q :: r)) with (f ++ [comma] ++ join [comma] (q :: r)).
  rewrite Hj. by rewrite <- !app_assoc.
Qed.

(** The joined flags are a normal header value. *)
Lemma merged_value_normal (incomingBeta : option jsstring) :
  normalize_value (join [comma] (merged_flags incomingBeta))
  = join [comma] (merged_flags incomingBeta).
Proof.
  apply normalize_value_fixed.
  - unfold merged_flags, REQUIRED_BETA_FLAGS.
    change (js "oauth-2025-04-20") with (111%N :: js "auth-2025-04-20").
    cbn [app].
    change (join [comma] ((111%N :: js "auth-2025-04-20")
                            :: js "interleaved-thinking-2025-05-14" :: ?rest))
      with (111%N :: js "auth-2025-04-20" ++ [comma]
              ++ join [comma] (js "interleaved-thinking-2025-05-14" :: rest)).
    reflexivity.
  - destruct (join_last (merged_flags incomingBeta)) as (front & c & -> & Hc);
      [done | apply merged_flags_ok |].
    rewrite rev_app_distr. cbn. by apply http_whitespace_js_space.
Qed.

Lemma header_value_ok_one_line (s : jsstring) :
  header_value_ok s = true <-> one_line s.
Proof.
  unfold header_value_ok, one_line. rewrite forallb_forall, Forall_forall.
  split; intros H c Hc.
  - apply list_elem_of_In in Hc. specialize (H c Hc).
    apply negb_true_iff in H. rewrite !orb_false_iff, !N.eqb_neq in H. tauto.
  - apply list_elem_of_In in Hc. specialize (H c Hc).
    apply negb_true_iff. rewrite !orb_false_iff, !N.eqb_neq. tauto.
Qed.

Lemma one_line_sub (a b : jsstring) :
  (forall x, x ∈ a -> x ∈ b) -> one_line b -> one_line a.
Proof.
  unfold one_line. rewrite !Forall_forall. intros Hsub Hb x Hx. by apply Hb, Hsub.
Qed.

Lemma one_line_normalize (v : jsstring) : one_line v -> one_line (normalize_value v).
Proof. apply one_line_sub, elem_of_normalize_value. Qed.

Lemma one_line_join (flags : list jsstring) :
  Forall one_line flags -> one_line (join [comma] flags).
Proof.
  induction 1 as [| f fs Hf Hfs IH]; [constructor |].
  destruct fs as [| q r]; [done |].
  change (join [comma] (f :: q :: r)) with (f ++ [comma] ++ join [comma] (q :: r)).
  apply Forall_app. split; [done |]. apply Forall_app. split; [| done].
  by repeat constructor.
Qed.

Lemma one_line_merged_flags (incomingBeta : option jsstring) :
  from_option one_line True incomingBeta ->
  Forall one_line (merged_flags incomingBeta).
Proof.
  intros Hinc. unfold merged_flags. apply Forall_app. split.
  - unfold REQUIRED_BETA_FLAGS.
    constructor; [by apply header_value_ok_one_line |].
    constructor; [by apply header_value_ok_one_line | constructor].
  - apply Forall_forall. intros f Hf.
    apply list_elem_of_filter in Hf as [_ Hf].
    rewrite elem_of_distinct_in_order in Hf.
    unfold incomingBetasList in Hf.
    destruct incomingBeta as [s |]; [| by apply elem_of_nil in Hf].
    destruct (nonempty s); [| by apply elem_of_nil in Hf].
    apply list_elem_of_In, filter_In in Hf as [Hf _].
    apply list_elem_of_In, list_elem_of_fmap in Hf as (p & -> & Hp).
    apply (one_line_sub _ s); [| exact Hinc].
    intros x Hx. apply elem_of_trim in Hx. by apply (elem_of_split comma s p).
Qed.

(** The header builder, step by step: it throws at the first value that is
    no header value, and at a version that has no text. *)
Lemma buildHeaders_eq (accessToken : jsstring) (version : value)
    (incomingBeta : option jsstring) :
  buildHeaders accessToken version incomingBeta =
    if header_value_ok (normalize_value (js "Bearer " ++ accessToken)) then
      if header_value_ok (join [comma] (merged_flags incomingBeta)) then
        match to_js_string version with
        | Ok text =>
            if header_value_ok
                 (normalize_value (js "claude-cli/" ++ text ++ js " (external, cli)"))
            then
              Ok (<[js "user-agent" :=
                      normalize_value
                        (js "claude-cli/" ++ text ++ js " (external, cli)")]>
                    (<[js "anthropic-beta" := join [comma] (merged_flags incomingBeta)]>
                       (<[js "anthropic-version" := ANTHROPIC_API_VERSION]>
                          (<[js "content-type" := js "application/json"]>
                             (<[js "authorization" :=
                                  normalize_value (js "Bearer " ++ accessToken)]> ∅)))))
            else Throw (TypeError "Invalid header value")
        | Throw e => Throw e
        end
      else Throw (TypeError "Invalid header value")
    else Throw (TypeError "Invalid header value").
Proof.
  unfold buildHeaders, Headers_set. cbn zeta.
  rewrite Set_of_merged, merged_value_normal.
  destruct (header_value_ok (normalize_value (js "Bearer " ++ accessToken)));
    [| reflexivity].
  cbn [mbind outcome_bind obind].
  change (header_value_ok (normalize_value (js "application/json"))) with true.
  cbn [mbind outcome_bind obind].
  change (header_value_ok (normalize_value ANTHROPIC_API_VERSION)) with true.
  cbn [mbind outcome_bind obind].
  destruct (header_value_ok (join [comma] (merged_flags incomingBeta)));
    [| reflexivity].
  cbn [mbind outcome_bind obind].
  destruct (to_js_string version) as [text | e]; [| reflexivity].
  cbn [mbind outcome_bind obind].
  destruct (header_value_ok (normalize_value _)); reflexivity.
Qed.

Lemma buildHeaders_beta (accessToken : jsstring) (version : value)
    (incomingBeta : option jsstring) (built : gmap jsstring jsstring) :
  buildHeaders accessToken version incomingBeta = Ok built ->
  headers_get built (js "anthropic-beta")
  = Some (join [comma] (merged_flags incomingBeta)).
Proof.
  rewrite buildHeaders_eq. intros H.
  repeat match type of H with
         | (if ?b then _ else _) = _ => destruct b; [| discriminate H]
         | match ?o with Ok _ => _ | Throw _ => _ end = _ =>
             destruct o; [| discriminate H]
         end.
  injection H as <-. unfold headers_get.
  change (header_name (js "anthropic-beta")) with (js "anthropic-beta").
  header_keys. apply lookup_insert_eq.
Qed.

Lemma buildHeaders_no_api_key (accessToken : jsstring) (version : value)
    (incomingBeta : option jsstring) (built : gmap jsstring jsstring) :
  buildHeaders accessToken version incomingBeta = Ok built ->
  headers_get built (js "x-api-key") = None.
Proof.
  rewrite buildHeaders_eq. intros H.
  repeat match type of H with
         | (if ?b then _ else _) = _ => destruct b; [| discriminate H]
         | match ?o with Ok _ => _ | Throw _ => _ end = _ =>
             destruct o; [| discriminate H]
         end.
  injection H as <-. unfold headers_get.
  change (header_name (js "x-api-key")) with (js "x-api-key").
  header_keys. apply lookup_empty.
Qed.

(** The client-identification value is normal, and a header value exactly
    when the text of the version is one. *)
Lemma user_agent_value (text : jsstring) :
  header_value_ok (normalize_value (js "claude-cli/" ++ text ++ js " (external, cli)"))
  = header_value_ok text.
Proof.
  assert (Hnormal : normalize_value (js "claude-cli/" ++ text ++ js " (external, cli)")
                    = js "claude-cli/" ++ text ++ js " (external, cli)").
  { apply normalize_value_fixed; [reflexivity |].
    rewrite !rev_app_distr. reflexivity. }
  rewrite Hnormal. unfold header_value_ok. rewrite !forallb_app.
  change (forallb _ (js "claude-cli/")) with true.
  change (forallb _ (js " (external, cli)")) with true.
  by rewrite andb_true_r.
Qed.

Lemma buildHeaders_succeeds (accessToken : jsstring) (version : value)
    (text : jsstring) (incomingBeta : option jsstring) :
  to_js_string version = Ok text ->
  one_line accessToken -> one_line text ->
  from_option one_line True incomingBeta ->
  exists built, buildHeaders accessToken version incomingBeta = Ok built.
Proof.
  intros Hv Htok Htext Hinc. rewrite buildHeaders_eq, Hv, user_agent_value.
  assert (H1 : header_value_ok (normalize_value (js "Bearer " ++ accessToken)) = true).
  { apply header_value_ok_one_line, one_line_normalize, Forall_app.
    split; [by apply header_value_ok_one_line | done]. }
  assert (H2 : header_value_ok (join [comma] (merged_flags incomingBeta)) = true).
  { by apply header_value_ok_one_line, one_line_join, one_line_merged_flags. }
  assert (H3 : header_value_ok text = true) by (by apply header_value_ok_one_line).
  rewrite H1, H2, H3. by eexists.
Qed.

Lemma buildHeaders_bad_version (accessToken : jsstring) (version : value)
    (text : jsstring) (incomingBeta : option jsstring) :
  to_js_string version = Ok text -> ~ one_line text ->
  buildHeaders accessToken version incomingBeta
  = Throw (TypeError "Invalid header value").
Proof.
  intros Hv Htext. rewrite buildHeaders_eq, Hv, user_agent_value.
  destruct (header_value_ok text) eqn:Hok;
    [by apply header_value_ok_one_line in Hok |].
  by repeat match goal with |- context [if ?b then _ else _] => destruct b end.
Qed.

(** C8: the capability flags of the headers built.  An incoming value is a
    comma-separated list of pieces; the flags that the caller supplies are
    its pieces without the white space at their ends, the empty ones left
    out.  Whenever the header builder returns a header set, its
    [anthropic-beta] header is the comma-separated, deduplicated union of
    the mandatory flags followed by the supplied flags (the two mandatory
    flags alone when there is no incoming value), and there is no
    [x-api-key] header.  That union has no duplicate, begins with the
    mandatory flags,
    goes on with the distinct supplied flags that are not mandatory, in
    order of first occurrence, and holds exactly the mandatory and the
    supplied flags.  The builder returns a header set when the credential,
    the text of the version and the incoming value hold no NUL, line feed
    and carriage return; it throws a [TypeError], and returns nothing, when
    the text of the version holds one. *)
Theorem buildHeaders_flags (accessToken : jsstring) (version : value) :
  (forall pieces built,
     Forall (fun p => comma ∉ p) pieces ->
     buildHeaders accessToken version (Some (comma_separated pieces)) = Ok built ->
     headers_get built (js "anthropic-beta")
     = Some (comma_separated (flag_union (supplied_flags pieces))) /\
     headers_get built (js "x-api-key") = None) /\
  (forall built,
     buildHeaders accessToken version None = Ok built ->
     headers_get built (js "anthropic-beta")
     = Some (js "oauth-2025-04-20,interleaved-thinking-2025-05-14") /\
     headers_get built (js "x-api-key") = None) /\
  (forall incoming : jsstring,
     exists pieces,
       Forall (fun p => comma ∉ p) pieces /\ comma_separated pieces = incoming) /\
  (forall supplied,
     NoDup (flag_union supplied) /\
     flag_union supplied
     = REQUIRED_BETA_FLAGS ++
       filter (fun f => f ∉ REQUIRED_BETA_FLAGS) (distinct_in_order supplied) /\
     (forall f, f ∈ flag_union supplied <->
                f ∈ REQUIRED_BETA_FLAGS \/ f ∈ supplied)) /\
  (forall text incoming,
     to_js_string version = Ok text ->
     one_line accessToken -> one_line text -> from_option one_line True incoming ->
     exists built, buildHeaders accessToken version incoming = Ok built) /\
  (forall text incoming,
     to_js_string version = Ok text -> ~ one_line text ->
     buildHeaders accessToken version incoming
     = Throw (TypeError "Invalid header value")).
Proof.
  split; [| split; [| split; [| split; [| split]]]].
  - intros pieces built Hpieces Hbuilt. split.
    + rewrite (buildHeaders_beta _ _ _ _ Hbuilt), join_comma_separated.
      by rewrite merged_flags_union.
    + by apply buildHeaders_no_api_key in Hbuilt.
  - intros built Hbuilt. split.
    + by rewrite (buildHeaders_beta _ _ _ _ Hbuilt).
    + by apply buildHeaders_no_api_key in Hbuilt.
  - intros incoming. exists (split comma incoming).
    split; [apply split_pieces |].
    rewrite <- join_comma_separated. apply join_split.
  - intros supplied. unfold flag_union. split; [apply NoDup_distinct_in_order |].
    split; [apply distinct_in_order_app, NoDup_REQUIRED_BETA_FLAGS |].
    intros f. by rewrite elem_of_distinct_in_order, elem_of_app.
  - intros text incoming. apply buildHeaders_succeeds.
  - intros text incoming. apply buildHeaders_bad_version.
Qed.

Lemma buildHeaders_flags_witness :
  exists built,
    buildHeaders (js "cached-access") (VStr (js "2.1.2"))
      (Some (js "context-1m, oauth-2025-04-20,,context-1m, files-api")) = Ok built /\
    headers_get built (js "anthropic-beta")
    = Some (js "oauth-2025-04-20,interleaved-thinking-2025-05-14,context-1m,files-api").
Proof.
  destruct (buildHeaders_flags (js "cached-access") (VStr (js "2.1.2")))
    as (Hflags & _ & _ & _ & Hbuilt & _).
  destruct (Hbuilt (js "2.1.2")
              (Some (js "context-1m, oauth-2025-04-20,,context-1m, files-api")))
    as [built Hb];
    [reflexivity | by apply header_value_ok_one_line
    | by apply header_value_ok_one_line | by apply header_value_ok_one_line |].
  exists built. split; [exact Hb |].
  destruct (Hflags [js "context-1m"; js " oauth-2025-04-20"; []; js "context-1m";
                    js " files-api"] built) as [Hbeta _];
    [repeat constructor; by apply (other_forallb comma) | exact Hb |].
  rewrite Hbeta. vm_compute. reflexivity.
Defined.

(** C8 as stated fails: with a line feed inside the version, which is
    whatever the registry sent, the last header cannot be set and the
    builder throws; no header set is returned.  (With a line feed inside
    the credential it throws at the first header, before any capability
    flag is set.) *)
Lemma line_feed_builds_nothing :
  ~ (forall (accessToken : jsstring) (version : value)
            (incomingBeta : option jsstring),
       exists built,
         buildHeaders accessToken version incomingBeta = Ok built /\
         headers_get built (js "anthropic-beta")
         = Some (comma_separated (merged_flags incomingBeta)) /\
         headers_get built (js "x-api-key") = None).
Proof.
  intros H.
  destruct (H (js "cached-access") (VStr [50; 10; 49]%N) None) as (built & Hbuilt & _).
  vm_compute in Hbuilt. discriminate Hbuilt.
Qed.

Example credential_with_line_feed :
  buildHeaders [97; 10; 98]%N (VStr (js "2.1.2")) None
  = Throw (TypeError "Invalid header value").
Proof. vm_compute. reflexivity. Qed.

(** X19: the capability flags survive being read back.  Every flag of the
    merged list is non-empty, free of commas and trimmed; so parsing the
    joined list as an incoming value gives back exactly the flags it was
    joined from, and merging them again changes nothing.  Hence, whenever
    the headers are built, parsing the built [anthropic-beta] value as an
    incoming value gives back the merged flags, and building the headers
    again from it (for any credential and version) yields the same
    [anthropic-beta] value: merging is idempotent.  The second build
    returns a header set whenever the same credential and version build
    one from the first incoming value. *)
Theorem beta_flags_read_back (accessToken accessToken' : jsstring)
    (version version' : value) (incomingBeta : option jsstring) :
  Forall flag_ok (merged_flags incomingBeta) /\
  incomingBetasList (Some (join [comma] (merged_flags incomingBeta)))
  = merged_flags incomingBeta /\
  merged_flags (Some (join [comma] (merged_flags incomingBeta)))
  = merged_flags incomingBeta /\
  (forall built,
     buildHeaders accessToken version incomingBeta = Ok built ->
     let beta := headers_get built (js "anthropic-beta") in
     beta = Some (join [comma] (merged_flags incomingBeta)) /\
     incomingBetasList beta = merged_flags incomingBeta /\
     (forall built',
        buildHeaders accessToken' version' beta = Ok built' ->
        headers_get built' (js "anthropic-beta") = beta) /\
     (forall other,
        buildHeaders accessToken' version' incomingBeta = Ok other ->
        exists built', buildHeaders accessToken' version' beta = Ok built')).
Proof.
  assert (Hread : incomingBetasList (Some (join [comma] (merged_flags incomingBeta)))
                  = merged_flags incomingBeta).
  { apply incomingBetasList_join; [done | apply merged_flags_ok]. }
  split; [apply merged_flags_ok |]. split; [exact Hread |].
  split; [apply merged_flags_join |].
  intros built Hbuilt. cbn zeta. rewrite (buildHeaders_beta _ _ _ _ Hbuilt).
  split; [done |]. split; [exact Hread |]. split.
  - intros built' Hbuilt'.
    by rewrite (buildHeaders_beta _ _ _ _ Hbuilt'), merged_flags_join.
  - intros other. rewrite !buildHeaders_eq, merged_flags_join.
    intros H.
    repeat match type of H with
           | (if ?b then _ else _) = _ => destruct b; [| discriminate H]
           | match ?o with Ok _ => _ | Throw _ => _ end = _ =>
               destruct o; [| discriminate H]
           end.
    by eexists.
Qed.

Lemma beta_flags_read_back_witness :
  exists built,
    buildHeaders (js "cached-access") (VStr (js "2.1.2"))
      (Some (js "files-api, oauth-2025-04-20")) = Ok built /\
    incomingBetasList (headers_get built (js "anthropic-beta"))
    = [js "oauth-2025-04-20"; js "interleaved-thinking-2025-05-14"; js "files-api"].
Proof.
  destruct (buildHeaders (js "cached-access") (VStr (js "2.1.2"))
              (Some (js "files-api, oauth-2025-04-20"))) as [built |] eqn:Hbuilt;
    [| vm_compute in Hbuilt; discriminate Hbuilt].
  exists built. split; [reflexivity |].
  destruct (beta_flags_read_back (js "cached-access") (js "other")
              (VStr (js "2.1.2")) (VStr (js "2.1.2"))
              (Some (js "files-api, oauth-2025-04-20")))
    as (_ & _ & _ & Hbuild).
  destruct (Hbuild built Hbuilt) as (_ & Hread & _).
  rewrite Hread. vm_compute. reflexivity.
Defined.

(** ** The login script *)

Lemma split_no_sep (sep : N) (s : jsstring) : sep ∉ s -> split sep s = [s].
Proof.
  intros Hs. apply (other_forallb sep) in Hs. rewrite split_unfold.
  destruct (take_while_app (fun c => negb (c =? sep)%N) s [] Hs I) as [Ht Hd].
  rewrite app_nil_r in Ht, Hd. by rewrite Ht, Hd.
Qed.

Lemma split_at_sep (sep : N) (first tail : jsstring) :
  sep ∉ first -> split sep (first ++ sep :: tail) = first :: split sep tail.
Proof.
  intros Hs. apply (other_forallb sep) in Hs. rewrite split_unfold.
  destruct (take_while_app (fun c => negb (c =? sep)%N) first (sep :: tail) Hs)
    as [Ht Hd]; [by cbn; rewrite N.eqb_refl |].
  by rewrite Ht, Hd.
Qed.

(** X20: how the login script reads what the user pastes.  A pasted text
    without a number sign is sent whole as the code, with the verifier as
    the state.  A text [c#s] (neither part holding a number sign, [s] not
    empty) is sent as the code [c] with the state [s], and whatever follows
    a second number sign is dropped.  When nothing stands between the first
    number sign and the end or a second number sign, the state is the
    verifier again.  The code verifier itself is always sent. *)
Theorem exchange_request_reads_code (verifier : jsstring) :
  (forall code, hash ∉ code ->
     exchange_request code verifier = exchange_of code verifier verifier) /\
  (forall c s rest,
     hash ∉ c -> hash ∉ s -> s <> [] ->
     rest = [] \/ head rest = Some hash ->
     exchange_request (c ++ [hash] ++ s ++ rest) verifier = exchange_of c s verifier) /\
  (forall c rest,
     hash ∉ c ->
     rest = [] \/ head rest = Some hash ->
     exchange_request (c ++ [hash] ++ rest) verifier = exchange_of c verifier verifier).
Proof.
  split; [| split].
  - intros code Hcode. unfold exchange_request. by rewrite split_no_sep.
  - intros c s rest Hc Hs Hne Hrest. unfold exchange_request.
    cbn [app]. rewrite split_at_sep by done.
    assert (Hsecond : exists more, split hash (s ++ rest) = s :: more).
    { destruct Hrest as [-> | Hhead].
      - rewrite app_nil_r, split_no_sep by done. by eexists.
      - destruct rest as [| x rest]; [done |]. injection Hhead as ->.
        rewrite split_at_sep by done. by eexists. }
    destruct Hsecond as [more ->]. cbn [lookup list_lookup].
    unfold nonempty. apply str_eqb_false in Hne. by rewrite Hne.
  - intros c rest Hc Hrest. unfold exchange_request.
    cbn [app]. rewrite split_at_sep by done.
    destruct Hrest as [-> | Hhead]; [reflexivity |].
    destruct rest as [| x rest]; [done |]. injection Hhead as ->.
    cbn [split]. rewrite N.eqb_refl. reflexivity.
Qed.

Lemma exchange_request_reads_code_witness :
  exchange_request (js "abc#xyz#more") (js "verifier")
  = exchange_of (js "abc") (js "xyz") (js "verifier").
Proof.
  refine (proj1 (proj2 (exchange_request_reads_code (js "verifier")))
            (js "abc") (js "xyz") (js "#more") _ _ _ _);
    [apply (other_forallb hash); reflexivity | apply (other_forallb hash); reflexivity
    | discriminate | right; reflexivity].
Defined.

(** ** A name field cut between two chunks *)

Lemma quotes_app (a b : jsstring) : quotes (a ++ b) = quotes a + quotes b.
Proof. induction a as [| c a IH]; [done |]. cbn. rewrite IH. lia. Qed.

(** A match holds at least four quotes. *)
Lemma name_field_match_quotes (t : jsstring) (x : jsstring * jsstring) :
  name_field_match t = Some x -> 4 <= quotes t.
Proof.
  unfold name_field_match.
  destruct (eat N.eqb (dq :: js "name" ++ [dq]) t) as [s1 |] eqn:H1; [| done].
  cbn [mbind option_bind].
  destruct (eat N.eqb [colon] (drop_while is_js_space s1)) as [s2 |] eqn:H2; [| done].
  cbn [mbind option_bind].
  destruct (eat N.eqb (dq :: js "mcp_") (drop_while is_js_space s2)) as [s3 |] eqn:H3;
    [| done].
  cbn [mbind option_bind].
  destruct (take_while _ s3); [done |].
  destruct (eat N.eqb [dq] (drop_while (fun c => negb (c =? dq)%N) s3))
    as [s4 |] eqn:H4; [| done].
  intros _. apply eat_eqb in H1, H2, H3, H4.
  pose proof (take_drop_while is_js_space s1) as Hs1.
  pose proof (take_drop_while is_js_space s2) as Hs2.
  pose proof (take_drop_while (fun c => negb (c =? dq)%N) s3) as Hs3.
  rewrite H2 in Hs1. rewrite H3 in Hs2. rewrite H4 in Hs3.
  apply (f_equal quotes) in Hs1, Hs2, Hs3.
  rewrite !quotes_app in Hs1, Hs2, Hs3.
  rewrite H1, quotes_app.
  change (quotes (dq :: js "name" ++ [dq])) with 2.
  change (quotes ((dq :: js "mcp_"))) with 1 in Hs2.
  change (quotes [dq]) with 1 in Hs3.
  change (quotes [colon]) with 0 in Hs1. lia.
Qed.

Lemma plain_not_quote (n : jsstring) :
  forallb plain n = true -> quotes n = 0.
Proof.
  induction n as [| c n IH]; [done |]. cbn. unfold plain at 1.
  destruct (c =? dq)%N; cbn; [by rewrite !andb_false_r |].
  intros H. apply andb_prop in H as [_ H]. by apply IH.
Qed.

Lemma quote_units_plain (h : bool) (n : jsstring) :
  forallb plain n = true -> quote_units h n = n.
Proof.
  revert h. induction n as [| c n IH]; intros h; [done |]. cbn [forallb quote_units].
  intros H. apply andb_prop in H as [Hc Hn]. rewrite (IH _ Hn).
  unfold plain in Hc. apply andb_prop in Hc as [Hc Hbs]. apply andb_prop in Hc as [Hc Hq].
  apply andb_prop in Hc as [Hlo Hhi].
  apply negb_true_iff in Hq, Hbs. apply N.leb_le in Hlo. apply N.ltb_lt in Hhi.
  unfold quote_unit. rewrite Hq, Hbs.
  unfold is_high_surrogate, is_low_surrogate. decide_tests. reflexivity.
Qed.

(** A match of the expression in a part of the text of a name field,
    when the name is plain, is the whole field. *)
Lemma match_is_whole_field (n a t b : jsstring) (x : jsstring * jsstring) :
  forallb plain n = true ->
  name_field (TOOL_PREFIX ++ n) = a ++ t ++ b ->
  name_field_match t = Some x ->
  a = [] /\ b = [].
Proof.
  intros Hn Hfield Hm. apply name_field_match_quotes in Hm.
  set (lead := js "name" ++ [dq; colon; space; dq] ++ js "mcp_").
  assert (Htext : name_field (TOOL_PREFIX ++ n) = dq :: lead ++ n ++ [dq]).
  { unfold name_field, json_quote, TOOL_PREFIX.
    rewrite (quote_units_plain false (js "mcp_" ++ n))
      by (rewrite forallb_app; by rewrite Hn).
    change (quote_units false (js "name")) with (js "name").
    unfold lead. cbn [app]. by rewrite <- !app_assoc. }
  assert (Hlead : quotes lead = 2) by reflexivity.
  assert (Hcount : quotes (name_field (TOOL_PREFIX ++ n)) = 4).
  { rewrite Htext. cbn [quotes]. rewrite N.eqb_refl, !quotes_app, Hlead.
    rewrite (plain_not_quote n Hn). reflexivity. }
  rewrite Hfield, !quotes_app in Hcount.
  rewrite Htext in Hfield.
  split.
  - destruct a as [| c a]; [done |]. exfalso.
    cbn [app] in Hfield. injection Hfield as <- _.
    cbn [quotes] in Hcount. rewrite N.eqb_refl in Hcount. lia.
  - destruct b as [| c b]; [done |]. exfalso.
    destruct (exists_last (l := c :: b)) as (b' & z & Hb); [done |].
    rewrite Hb in Hfield, Hcount.
    change (dq :: lead ++ n ++ [dq]) with ((dq :: lead) ++ n ++ [dq]) in Hfield.
    rewrite !app_assoc in Hfield. apply app_inj_tail in Hfield as [_ <-].
    rewrite quotes_app in Hcount. cbn [quotes] in Hcount.
    rewrite N.eqb_refl in Hcount. lia.
Qed.

(** No part of the text of such a field is changed by the substitution. *)
Lemma strip_part_of_field (n t1 t2 : jsstring) :
  forallb plain n = true -> t1 <> [] -> t2 <> [] ->
  name_field (TOOL_PREFIX ++ n) = t1 ++ t2 ->
  strip_tool_prefix t1 = t1 /\ strip_tool_prefix t2 = t2.
Proof.
  intros Hn H1 H2 Hfield.
  split; unfold strip_tool_prefix, replace_all; apply replace_from_no_match;
    intros t [k Hk]; destruct (name_field_match t) as [x |] eqn:Hm; try done; exfalso.
  - destruct (match_is_whole_field n k t t2 x Hn) as [_ ?]; [| done | done].
    by rewrite Hfield, Hk, <- app_assoc.
  - destruct (match_is_whole_field n (t1 ++ k) t [] x Hn) as [Hnil _]; [| done |].
    + by rewrite Hfield, Hk, app_nil_r, <- app_assoc.
    + by destruct t1.
Qed.

(** Bytes below 128 are their own decoding and their own encoding. *)
Lemma decode_stream_ascii (d : TextDecoder) (t : jsstring) :
  utf8 d = idle -> Forall (fun c => (c < 128)%N) t ->
  exists d', decode_stream d t = (d', t) /\ utf8 d' = idle.
Proof.
  intros Hidle Hascii. unfold decode_stream. rewrite Hidle.
  assert (Hdec : decode_bytes idle t = (idle, t)).
  { induction Hascii as [| c t Hc _ IH]; [done |]. cbn [decode_bytes].
    rewrite decode_byte_idle. unfold lead_byte.
    destruct (N.leb_spec c 127); [| lia]. by rewrite IH. }
  rewrite Hdec. destruct t as [| c t]; cbn [drop_bom].
  - by eexists.
  - assert (Hunits : flat_map utf16_units (c :: t) = c :: t).
    { clear Hdec. induction Hascii as [| c' t' Hc _ IH]; [done |]. cbn [flat_map].
      rewrite IH. unfold utf16_units. destruct (N.ltb_spec c' 65536); [done | lia]. }
    inversion Hascii as [| ? ? Hc _]; subst.
    destruct (bom_seen d); [rewrite Hunits; by eexists |].
    destruct (N.eqb_spec c BOM) as [-> | _]; [unfold BOM in Hc; lia |].
    rewrite Hunits. by eexists.
Qed.

Lemma encode_ascii (t : jsstring) :
  Forall (fun c => (c < 128)%N) t -> TextEncoder_encode t = t.
Proof.
  unfold TextEncoder_encode. induction 1 as [| c t Hc _ IH]; [done |].
  cbn [scalar_values]. unfold is_high_surrogate, is_low_surrogate.
  destruct (N.leb_spec 55296 c); [lia |]. destruct (N.leb_spec 56320 c); [lia |].
  cbn [andb flat_map]. rewrite IH. unfold encode_scalar.
  by destruct (N.ltb_spec c 128); [| lia].
Qed.

Lemma plain_ascii (n : jsstring) :
  forallb plain n = true -> Forall (fun c => (c < 128)%N) n.
Proof.
  induction n as [| c n IH]; [constructor |]. cbn. unfold plain at 1.
  intros H. apply andb_prop in H as [Hc Hn].
  constructor; [| by apply IH].
  apply andb_prop in Hc as [Hc _]. apply andb_prop in Hc as [Hc _].
  apply andb_prop in Hc as [_ Hc]. by apply N.ltb_lt.
Qed.

(** X21: a name field cut between two chunks keeps its prefix.  Let the
    stream consist of two chunks that together are the text of a [name]
    field whose value is the prefix followed by a plain name (printable
    ASCII without quote or backslash), the cut falling anywhere inside the
    field.  Then neither chunk matches the expression on its own and the
    output is the input: the client receives the prefixed name.  Delivered
    in one chunk, the same field loses its prefix. *)
Theorem split_name_field_keeps_prefix (n t1 t2 : jsstring) :
  forallb plain n = true -> n <> [] -> t1 <> [] -> t2 <> [] ->
  name_field (TOOL_PREFIX ++ n) = t1 ++ t2 ->
  transformStreamingResponse [t1; t2] = [t1; t2] /\
  transformStreamingResponse [t1 ++ t2] = [name_field n].
Proof.
  intros Hn Hne H1 H2 Hfield.
  assert (Hascii : Forall (fun c => (c < 128)%N) (t1 ++ t2)).
  { rewrite <- Hfield. unfold name_field, json_quote, TOOL_PREFIX.
    rewrite (quote_units_plain false (js "mcp_" ++ n))
      by (rewrite forallb_app; by rewrite Hn).
    apply plain_ascii in Hn.
    repeat first [apply Forall_app; split | apply Forall_cons; split
                 | apply Forall_nil | done | (cbv; reflexivity)]. }
  assert (Hout : Forall (fun c => (c < 128)%N) (name_field n)).
  { unfold name_field, json_quote.
    rewrite (quote_units_plain false n Hn). apply plain_ascii in Hn.
    repeat first [apply Forall_app; split | apply Forall_cons; split
                 | apply Forall_nil | done | (cbv; reflexivity)]. }
  pose proof Hascii as Hboth. apply Forall_app in Hboth as [Ha1 Ha2].
  destruct (strip_part_of_field n t1 t2 Hn H1 H2 Hfield) as [Hs1 Hs2].
  unfold transformStreamingResponse. rewrite !pull_all_decoded by (cbn; lia).
  cbn [decoded_texts]. split.
  - destruct (decode_stream_ascii new_TextDecoder t1 eq_refl Ha1) as (d1 & -> & Hd1).
    destruct (decode_stream_ascii d1 t2 Hd1 Ha2) as (d2 & -> & _).
    cbn [map]. by rewrite Hs1, Hs2, !encode_ascii.
  - destruct (decode_stream_ascii new_TextDecoder (t1 ++ t2) eq_refl Hascii)
      as (d1 & -> & _).
    cbn [map]. by rewrite <- Hfield, (strip_name_field n Hne), encode_ascii.
Qed.

Lemma split_name_field_keeps_prefix_witness :
  transformStreamingResponse
    [json_quote (js "name") ++ [colon; space] ++ dq :: js "mc"; js "p_search" ++ [dq]]
  = [json_quote (js "name") ++ [colon; space] ++ dq :: js "mc"; js "p_search" ++ [dq]].
Proof.
  refine (proj1 (split_name_field_keeps_prefix (js "search")
                   (json_quote (js "name") ++ [colon; space] ++ dq :: js "mc")
                   (js "p_search" ++ [dq]) _ _ _ _ _));
    [reflexivity | discriminate | discriminate | discriminate | reflexivity].
Defined.
